(** * msgpack-dump: the decoder of [src/msgpack-dump.c] and its properties

    The C program reads a MessagePack stream from a file descriptor and
    prints an indented text rendering on standard output.  This file
    embeds the program function by function: the [struct ctx] cursor is a
    record, the file descriptor's future behaviour and the two output
    streams form the outside [world], and every C function that touches
    them is a state transformer in a small state monad.

    Machine model: LP64 ([size_t] and [uint64_t] are 64 bits wide, [int]
    and [unsigned] are 32 bits wide, two's complement).  What the C
    standard leaves to the implementation and the program depends on is a
    parameter: the signedness of plain [char] and the byte order of the
    host ([abi]), and the behaviour of the C library the program calls
    ([libc]: whether [malloc] grants a request, how [%g] renders a
    floating value). *)

From Stdlib Require Import ZArith List String Ascii Bool Lia.
From Stdlib Require Import DecimalString HexadecimalString.
From Stdlib.Strings Require Import Byte.
Import ListNotations.

Local Open Scope string_scope.
Local Open Scope Z_scope.

(** ** Machine integers *)

Module C.

(** Conversion to [uint64_t] / [size_t], and to [unsigned]. *)
Definition u64 (z : Z) : Z := z mod 2 ^ 64.
Definition u32 (z : Z) : Z := z mod 2 ^ 32.

(** Conversion to [int] and to [int64_t] (two's complement). *)
Definition to_int (z : Z) : Z :=
  let m := u32 z in if m <? 2 ^ 31 then m else m - 2 ^ 32.
Definition to_int64 (z : Z) : Z :=
  let m := u64 z in if m <? 2 ^ 63 then m else m - 2 ^ 64.

(** [~0ULL]. *)
Definition all_ones64 : Z := 2 ^ 64 - 1.

(** The value of an [unsigned char]. *)
Definition byte_val (b : byte) : Z := Z.of_N (Byte.to_N b).

(** The byte holding [z], for [0 <= z < 256]. *)
Definition byte_of (z : Z) : byte :=
  match Byte.of_N (Z.to_N z) with Some b => b | None => x00 end.

End C.

(** ** What the implementation decides *)

Record abi : Type := mkAbi {
  char_signed : bool;     (* is plain [char] a signed type? *)
  little_endian : bool    (* is the least significant byte stored first? *)
}.

Record libc : Type := mkLibc {
  malloc_ok : Z -> bool;        (* does [malloc (len)] return a buffer? *)
  fmt_g_float : Z -> string;    (* [%g] of the binary32 value with these bits *)
  fmt_g_double : Z -> string    (* [%g] of the binary64 value with these bits *)
}.

(** ** printf conversions *)

Module Fmt.

Definition nl : string := String "010"%char EmptyString.
Definition dquote : string := String "034"%char EmptyString.

(** [%d], [%PRId64], [%PRIu64], [%zu]: the decimal numeral of the
    argument's value. *)
Definition dec (z : Z) : string :=
  DecimalString.NilZero.string_of_int (Z.to_int z).

(** [%x] of an [int] argument: the argument is read as [unsigned]. *)
Definition hex (v : Z) : string :=
  HexadecimalString.NilZero.string_of_uint (N.to_hex_uint (Z.to_N (C.u32 v))).

(** [%02x]: at least two digits, padded with zeros on the left. *)
Definition hex02 (v : Z) : string :=
  let h := hex v in
  if (String.length h <? 2)%nat then "0" ++ h else h.

Fixpoint spaces (n : nat) : string :=
  match n with
  | O => EmptyString
  | S k => " " ++ spaces k
  end.

Fixpoint until_nul (data : list byte) : list byte :=
  match data with
  | [] => []
  | b :: rest => if Byte.eqb b x00 then [] else b :: until_nul rest
  end.

(** [%.*s] with precision [prec] on the buffer [data]: the bytes up to
    the first zero byte, at most [prec] of them; a negative precision
    counts as no precision.  (With a negative precision and no zero
    byte in the buffer, C reads past the buffer: the model stops at its
    end.) *)
Definition prec_s (prec : Z) (data : list byte) : string :=
  string_of_list_byte
    (until_nul (if prec <? 0 then data else firstn (Z.to_nat prec) data)).

End Fmt.

(** ** The cursor and the outside world *)

(** [struct ctx]. *)
Record ctx : Type := mkCtx {
  fd : Z;
  offset : Z;
  indent : Z;
  eof : bool
}.

Definition ctx_ctor (fd : Z) : ctx := mkCtx fd 0 0 false.

(** What the descriptor will deliver, one entry per [read] call that gets
    that far: a run of bytes (a [read] asking for fewer takes a prefix and
    leaves the rest; an empty run is a [read] that returns 0), or a [read]
    that fails, with the text [strerror] gives for it.  After the last
    entry every [read] returns 0. *)
Inductive chunk : Type :=
| Data (bs : list byte)
| Fault (why : string).

Record world : Type := mkWorld {
  pending : list chunk;   (* the future of [ctx->fd] *)
  out : string;           (* standard output so far *)
  err : string            (* standard error so far *)
}.

Definition state : Type := ctx * world.

(** State transformers returning a value. *)
Definition M (A : Type) : Type := state -> A * state.

Definition ret {A : Type} (a : A) : M A := fun s => (a, s).

Definition bind {A B : Type} (m : M A) (k : A -> M B) : M B :=
  fun s => let (a, s') := m s in k a s'.

Declare Scope m_scope.
Delimit Scope m_scope with m.
Notation "x <- m ;; k" := (bind m (fun x => k))
  (at level 61, m at next level, right associativity) : m_scope.
Notation "m ;;; k" := (bind m (fun _ => k))
  (at level 61, right associativity) : m_scope.
Local Open Scope m_scope.

Definition printf (s : string) : M unit :=
  fun '(c, w) => (tt, (c, mkWorld (pending w) (out w ++ s) (err w))).

Definition eprintf (s : string) : M unit :=
  fun '(c, w) => (tt, (c, mkWorld (pending w) (out w) (err w ++ s))).

(** ** Error checked IO *)

(** [read (fd, buf, count)] for [count > 0]: the return value, the bytes
    stored and the descriptor's remaining future; a failing [read]
    returns -1 and the reason. *)
Definition sys_read (inp : list chunk) (count : Z)
  : Z * list byte * list chunk * string :=
  match inp with
  | [] => (0, [], [], EmptyString)
  | Fault why :: rest => (-1, [], rest, why)
  | Data bs :: rest =>
      let avail := Z.of_nat (List.length bs) in
      if avail <=? count then (avail, bs, rest, EmptyString)
      else (count, firstn (Z.to_nat count) bs,
            Data (skipn (Z.to_nat count) bs) :: rest, EmptyString)
  end.

Inductive io_end : Type :=
| IoDone              (* the loop ended with [done >= sz] *)
| IoEof               (* a [read] returned 0 *)
| IoErr (why : string).  (* a [read] returned a negative value *)

(** The [while (done < sz)] loop of [eread], with the [read] call
    unfolded so that the recursion follows the list of chunks: a chunk
    longer than what is left to read ends the loop ([done] reaches [sz]).
    [off] is [ctx->offset], [buf] the bytes stored so far. *)
Fixpoint eread_loop (inp : list chunk) (sz done off : Z) (buf : list byte)
  : io_end * list byte * list chunk * Z :=
  if sz <=? done then (IoDone, buf, inp, off)
  else
    match inp with
    | [] => (IoEof, buf, [], off)
    | Fault why :: rest => (IoErr why, buf, rest, off)
    | Data bs :: rest =>
        let avail := Z.of_nat (List.length bs) in
        if avail =? 0 then (IoEof, buf, rest, off)
        else if avail <=? sz - done then
          eread_loop rest sz (done + avail) (C.u64 (off + avail)) (buf ++ bs)%list
        else
          (IoDone, (buf ++ firstn (Z.to_nat (sz - done)) bs)%list,
           Data (skipn (Z.to_nat (sz - done)) bs) :: rest,
           C.u64 (off + (sz - done)))
    end.

(** [eread]: [Some buf] is [true] with [buf] the [sz] bytes read, [None]
    is [false] (no caller looks at the buffer then). *)
Definition eread (sz : Z) : M (option (list byte)) :=
  fun '(c, w) =>
    if eof c then (None, (c, w))
    else
      match eread_loop (pending w) sz 0 (offset c) [] with
      | (IoDone, buf, inp, off) =>
          (Some buf,
           (mkCtx (fd c) off (indent c) (eof c), mkWorld inp (out w) (err w)))
      | (IoEof, _, inp, off) =>
          (None,
           (mkCtx (fd c) off (indent c) true, mkWorld inp (out w) (err w)))
      | (IoErr why, _, inp, off) =>
          (None,
           (mkCtx (fd c) off (indent c) (eof c),
            mkWorld inp (out w)
              (err w ++ "Cannot read " ++ Fmt.dec sz ++ " bytes: " ++ why ++ Fmt.nl)))
      end.

(** ** Roles *)

Definition ROLE_NONE : Z := -1.
Definition ROLE_MAP_KEY : Z := -2.
Definition ROLE_MAP_VALUE : Z := -3.
(* >=0 roles are array indexes *)

(** ** The dispatch table of [dump]

    Each decoder the [if ... else if ...] chain of [dump] can call, with
    the arguments the chain passes to it. *)
Inductive decoder : Type :=
| DumpNil
| DumpFalse
| DumpTrue
| DumpInt (n : Z)
| DumpUint8 | DumpUint16 | DumpUint32 | DumpUint64
| DumpInt8 | DumpInt16 | DumpInt32 | DumpInt64
| DumpFloat32 | DumpFloat64
| DumpData (is_str : bool) (len : Z)
| DumpDataVar (is_str : bool) (lenlen : Z)
| DumpArray (nb_objs : Z)
| DumpArrayVar (lenlen : Z)
| DumpMap (nb_objs : Z)
| DumpMapVar (lenlen : Z)
| DumpExt (len : Z)
| DumpExtVar (lenlen : Z).

(** The chain, one row per [if], top to bottom: the test on the tag byte
    and the call made when it holds. *)
Definition rules : list ((Z -> bool) * (Z -> decoder)) :=
  [ (fun t => t =? 0xc0,               fun _ => DumpNil);
    (fun t => t =? 0xc2,               fun _ => DumpFalse);
    (fun t => t =? 0xc3,               fun _ => DumpTrue);
    (fun t => Z.land t 0x80 =? 0,      fun t => DumpInt t);
    (fun t => Z.land t 0xe0 =? 0xe0,   fun t => DumpInt t);
    (fun t => t =? 0xcc,               fun _ => DumpUint8);
    (fun t => t =? 0xcd,               fun _ => DumpUint16);
    (fun t => t =? 0xce,               fun _ => DumpUint32);
    (fun t => t =? 0xcf,               fun _ => DumpUint64);
    (fun t => t =? 0xd0,               fun _ => DumpInt8);
    (fun t => t =? 0xd1,               fun _ => DumpInt16);
    (fun t => t =? 0xd2,               fun _ => DumpInt32);
    (fun t => t =? 0xd3,               fun _ => DumpInt64);
    (fun t => t =? 0xca,               fun _ => DumpFloat32);
    (fun t => t =? 0xcb,               fun _ => DumpFloat64);
    (fun t => Z.land t 0xe0 =? 0xa0,   fun t => DumpData true (Z.land t 0x1f));
    (fun t => t =? 0xd9,               fun _ => DumpDataVar true 1);
    (fun t => t =? 0xda,               fun _ => DumpDataVar true 2);
    (fun t => t =? 0xdb,               fun _ => DumpDataVar true 4);
    (fun t => t =? 0xc4,               fun _ => DumpDataVar false 1);
    (fun t => t =? 0xc5,               fun _ => DumpDataVar false 2);
    (fun t => t =? 0xc6,               fun _ => DumpDataVar false 4);
    (fun t => Z.land t 0xf0 =? 0x90,   fun t => DumpArray (Z.land t 0x0f));
    (fun t => t =? 0xdc,               fun _ => DumpArrayVar 2);
    (fun t => t =? 0xdd,               fun _ => DumpArrayVar 4);
    (fun t => Z.land t 0xf0 =? 0x80,   fun t => DumpMap (Z.land t 0x0f));
    (fun t => t =? 0xde,               fun _ => DumpMapVar 2);
    (fun t => t =? 0xdf,               fun _ => DumpMapVar 4);
    (fun t => t =? 0xd4,               fun _ => DumpExt 1);
    (fun t => t =? 0xd5,               fun _ => DumpExt 2);
    (fun t => t =? 0xd6,               fun _ => DumpExt 4);
    (fun t => t =? 0xd7,               fun _ => DumpExt 8);
    (fun t => t =? 0xd8,               fun _ => DumpExt 16);
    (fun t => t =? 0xc7,               fun _ => DumpExtVar 1);
    (fun t => t =? 0xc8,               fun _ => DumpExtVar 2);
    (fun t => t =? 0xc9,               fun _ => DumpExtVar 4) ].

(** The first row whose test holds; [None] is the final [else]. *)
Fixpoint first_match (rs : list ((Z -> bool) * (Z -> decoder))) (t : Z)
  : option decoder :=
  match rs with
  | [] => None
  | (test, call) :: rest => if test t then Some (call t) else first_match rest t
  end.

Definition select (t : Z) : option decoder := first_match rules t.

(** The rows whose test holds for a tag byte. *)
Definition matching (t : Z) : list decoder :=
  map (fun r => snd r t) (filter (fun r => fst r t) rules).

(** Does some row of the table take the tag byte? *)
Definition recognized (t : Z) : bool :=
  match select t with
  | Some _ => true
  | None => false
  end.

(** ** The decoders *)

Section Decoders.

Variable A : abi.
Variable L : libc.

Definition dump_indent : M unit :=
  fun s => printf (Fmt.spaces (Z.to_nat (C.u32 (indent (fst s) * 3)))) s.

Definition dump_start (role : Z) : M unit :=
  (if negb (role =? ROLE_MAP_VALUE) then dump_indent else ret tt) ;;;
  (if 0 <=? role then printf ("[" ++ Fmt.dec role ++ "]: ") else ret tt).

Definition dump_stop (role : Z) : M unit :=
  if role =? ROLE_MAP_KEY then printf ": " else printf Fmt.nl.

Definition dump_nil : M unit := printf "()".
Definition dump_false : M unit := printf "false".
Definition dump_true : M unit := printf "true".
Definition dump_int (n : Z) : M unit := printf (Fmt.dec n).

(** The [for] loop of [read_varint], [cb] iterations left: [n] is [*n],
    [byte] the last byte read. *)
Fixpoint read_varint_loop (cb : nat) (n byte : Z) : M (option (Z * Z)) :=
  match cb with
  | O => ret (Some (n, byte))
  | S cb' =>
      let n := C.u64 (Z.shiftl n 8) in  (* big endian is not dead *)
      r <- eread 1 ;;
      match r with
      | None => ret None
      | Some buf =>
          let byte := C.byte_val (hd x00 buf) in
          read_varint_loop cb' (Z.lor n byte) byte
      end
  end.

(** [read_varint]: [Some n] is [true] with [*n = n]. ([byte] is not
    initialised in C; it is read only after the loop has set it, as
    every caller passes [lenlen >= 1].) *)
Definition read_varint (lenlen : Z) (sign : bool) : M (option Z) :=
  r <- read_varint_loop (Z.to_nat lenlen) 0 0 ;;
  match r with
  | None => ret None
  | Some (n, byte) =>
      if sign then
        let sign_extend := C.u64 (Z.shiftl C.all_ones64 lenlen) in
        if 128 <=? byte then ret (Some (Z.lor n sign_extend))
        else ret (Some n)
      else ret (Some n)
  end.

Definition read_varuint (lenlen : Z) : M (option Z) :=
  read_varint lenlen false.

Definition dump_varint (lenlen : Z) (sign : bool) : M bool :=
  r <- read_varint lenlen sign ;;
  match r with
  | None => ret false
  | Some n =>
      (if sign then printf (Fmt.dec (C.to_int64 n))
       else printf (Fmt.dec n)) ;;;
      ret true
  end.

Definition dump_varuint (b : Z) : M bool := dump_varint b false.
Definition dump_varsint (b : Z) : M bool := dump_varint b true.
Definition dump_uint8 : M bool := dump_varuint 1.
Definition dump_uint16 : M bool := dump_varuint 2.
Definition dump_uint32 : M bool := dump_varuint 4.
Definition dump_uint64 : M bool := dump_varuint 8.
Definition dump_int8 : M bool := dump_varsint 1.
Definition dump_int16 : M bool := dump_varsint 2.
Definition dump_int32 : M bool := dump_varsint 4.
Definition dump_int64 : M bool := dump_varsint 8.

(** The number whose big-endian (most significant byte first) and
    little-endian representations are the given bytes. *)
Definition be_value (bs : list byte) : Z :=
  fold_left (fun acc b => acc * 256 + C.byte_val b) bs 0.
Definition le_value (bs : list byte) : Z := be_value (rev bs).

(** The bit pattern of a [float] or [double] object whose storage holds
    the bytes [bs], lowest address first. *)
Definition object_bits (bs : list byte) : Z :=
  if little_endian A then le_value bs else be_value bs.

Definition dump_float32 : M bool :=
  r <- eread 4 ;;
  match r with
  | None => ret false
  | Some v => printf (fmt_g_float L (object_bits v)) ;;; ret true
  end.

Definition dump_float64 : M bool :=
  r <- eread 8 ;;
  match r with
  | None => ret false
  | Some v => printf (fmt_g_double L (object_bits v)) ;;; ret true
  end.

(** The value of [data[n]], a plain [char], once promoted to [int]. *)
Definition char_val (b : byte) : Z :=
  let v := C.byte_val b in
  if char_signed A then (if v <? 128 then v else v - 256) else v.

(** The [for] loop printing a blob, from index [n] on: [data] holds
    [data[n]] to [data[len-1]]. *)
Fixpoint hex_loop (n : Z) (data : list byte) : string :=
  match data with
  | [] => EmptyString
  | b :: rest =>
      (if 0 <? n then " " else EmptyString) ++ Fmt.hex02 (char_val b)
        ++ hex_loop (n + 1) rest
  end.

Definition dump_data (is_str : bool) (len : Z) : M bool :=
  if negb (malloc_ok L len) then
    eprintf ("Cannot alloc " ++ Fmt.dec len ++ " bytes") ;;; ret false
  else
    r <- eread len ;;
    match r with
    | None => ret false
    | Some data =>
        (if is_str then
           printf (Fmt.dquote ++ Fmt.prec_s (C.to_int len) data ++ Fmt.dquote)
         else printf (hex_loop 0 data)) ;;;
        ret true
    end.

Definition dump_data_var (is_str : bool) (lenlen : Z) : M bool :=
  r <- read_varuint lenlen ;;
  match r with
  | None => ret false
  | Some len => dump_data is_str len
  end.

(** [dump_ext]: the result of [dump_data] is dropped. *)
Definition dump_ext (len : Z) : M bool :=
  r <- eread 1 ;;
  match r with
  | None => ret false
  | Some buf =>
      printf ("Type" ++ Fmt.dec (C.byte_val (hd x00 buf)) ++ ":") ;;;
      _ <- dump_data false len ;;
      ret true
  end.

Definition dump_ext_var (lenlen : Z) : M bool :=
  r <- read_varuint lenlen ;;
  match r with
  | None => ret false
  | Some len => dump_ext len
  end.

(** *** Containers

    [dump], [dump_array] and [dump_map] call each other.  The
    containers take the function they call for an element as an
    argument, [dump] passes itself.  A call answers [Some b] when the C
    function returns [b], [None] when the model's recursion bound was
    too small to tell. *)
Section Containers.

Variable dump : Z -> M (option bool).

(** The loop of [dump_array]: [count] iterations left, [n] the loop
    variable (an [unsigned], handed to [dump] as an [int]).  The loop
    runs [nb_objs] times: every caller passes a count below [2^32], so
    [n] reaches it. *)
Fixpoint dump_array_loop (count : nat) (n : Z) : M (option bool) :=
  match count with
  | O => ret (Some true)
  | S count' =>
      r <- dump (C.to_int n) ;;
      match r with
      | Some true => dump_array_loop count' (C.u32 (n + 1))
      | other => ret other
      end
  end.

Definition incr_indent : M unit :=
  fun '(c, w) => (tt, (mkCtx (fd c) (offset c) (C.u32 (indent c + 1)) (eof c), w)).
Definition decr_indent : M unit :=
  fun '(c, w) => (tt, (mkCtx (fd c) (offset c) (C.u32 (indent c - 1)) (eof c), w)).

Definition dump_array (nb_objs : Z) : M (option bool) :=
  printf ("[" ++ Fmt.nl) ;;;
  incr_indent ;;;
  r <- dump_array_loop (Z.to_nat nb_objs) 0 ;;
  match r with
  | Some true =>
      decr_indent ;;;
      dump_indent ;;;
      printf "]" ;;;
      ret (Some true)
  | other => ret other
  end.

Definition dump_array_var (lenlen : Z) : M (option bool) :=
  r <- read_varuint lenlen ;;
  match r with
  | None => ret (Some false)
  | Some len => dump_array len
  end.

Fixpoint dump_map_loop (count : nat) : M (option bool) :=
  match count with
  | O => ret (Some true)
  | S count' =>
      k <- dump ROLE_MAP_KEY ;;
      match k with
      | Some true =>
          v <- dump ROLE_MAP_VALUE ;;
          match v with
          | Some true => dump_map_loop count'
          | other => ret other
          end
      | other => ret other
      end
  end.

Definition dump_map (nb_objs : Z) : M (option bool) :=
  printf ("{" ++ Fmt.nl) ;;;
  incr_indent ;;;
  r <- dump_map_loop (Z.to_nat nb_objs) ;;
  match r with
  | Some true =>
      decr_indent ;;;
      dump_indent ;;;
      printf "}" ;;;
      ret (Some true)
  | other => ret other
  end.

Definition dump_map_var (lenlen : Z) : M (option bool) :=
  r <- read_varuint lenlen ;;
  match r with
  | None => ret (Some false)
  | Some len => dump_map len
  end.

Definition lift (m : M bool) : M (option bool) := b <- m ;; ret (Some b).
Definition always (m : M unit) : M (option bool) := m ;;; ret (Some true).

(** The call a row of the table stands for. *)
Definition call (d : decoder) : M (option bool) :=
  match d with
  | DumpNil => always dump_nil
  | DumpFalse => always dump_false
  | DumpTrue => always dump_true
  | DumpInt n => always (dump_int n)
  | DumpUint8 => lift dump_uint8
  | DumpUint16 => lift dump_uint16
  | DumpUint32 => lift dump_uint32
  | DumpUint64 => lift dump_uint64
  | DumpInt8 => lift dump_int8
  | DumpInt16 => lift dump_int16
  | DumpInt32 => lift dump_int32
  | DumpInt64 => lift dump_int64
  | DumpFloat32 => lift dump_float32
  | DumpFloat64 => lift dump_float64
  | DumpData is_str len => lift (dump_data is_str len)
  | DumpDataVar is_str lenlen => lift (dump_data_var is_str lenlen)
  | DumpArray nb_objs => dump_array nb_objs
  | DumpArrayVar lenlen => dump_array_var lenlen
  | DumpMap nb_objs => dump_map nb_objs
  | DumpMapVar lenlen => dump_map_var lenlen
  | DumpExt len => lift (dump_ext len)
  | DumpExtVar lenlen => lift (dump_ext_var lenlen)
  end.

(** The body of [dump]. *)
Definition dump_body (role : Z) : M (option bool) :=
  r <- eread 1 ;;
  match r with
  | None => fun s => (Some (eof (fst s)), s)
  | Some buf =>
      let tag := C.byte_val (hd x00 buf) in
      dump_start role ;;;
      match select tag with
      | None =>
          eprintf ("Bad tag " ++ Fmt.hex02 tag ++ Fmt.nl) ;;; ret (Some false)
      | Some d =>
          r <- call d ;;
          match r with
          | Some true => dump_stop role ;;; ret (Some true)
          | other => ret other
          end
      end
  end.

End Containers.

(** [dump], with at most [depth] calls of [dump] inside one another. *)
Fixpoint dump (depth : nat) (role : Z) : M (option bool) :=
  match depth with
  | O => ret None
  | S depth' => dump_body (dump depth') role
  end.

(** The loop of [main], at most [iters] iterations: the exit status,
    [1] from [exit(1)] and [0] from the end of [main]. *)
Fixpoint main_loop (iters depth : nat) : M (option Z) :=
  fun s =>
    if eof (fst s) then (Some 0, s)
    else
      match iters with
      | O => (None, s)
      | S iters' =>
          match dump depth ROLE_NONE s with
          | (Some true, s') => main_loop iters' depth s'
          | (Some false, s') => (Some 1, s')
          | (None, s') => (None, s')
          end
      end.

End Decoders.

(** ** The program *)

(** A bound on the [read] calls a descriptor can serve before it only
    returns 0: one per chunk and one per byte. *)
Fixpoint weight (inp : list chunk) : nat :=
  match inp with
  | [] => O
  | Data bs :: rest => S (List.length bs + weight rest)
  | Fault _ :: rest => S (weight rest)
  end.

(** What a run leaves behind: the exit status ([None] only if the
    recursion bound was too small, which [run_fd_status] excludes) and
    the two output streams. *)
Record result : Type := mkResult {
  status : option Z;
  stdout : string;
  stderr : string
}.

Definition result_of (r : option Z * state) : result :=
  mkResult (fst r) (out (snd (snd r))) (err (snd (snd r))).

(** [main] from [ctx_ctor] on: [inp] is what the opened descriptor will
    deliver. *)
Definition run_fd (A : abi) (L : libc) (fd : Z) (inp : list chunk) : result :=
  result_of
    (main_loop A L (S (weight inp)) (S (weight inp))
       (ctx_ctor fd, mkWorld inp EmptyString EmptyString)).



(** A regular file holding [bs], read in one piece. *)
Definition file (bs : list byte) : list chunk := [Data bs].

(** Hosts: x86-64 Linux has a signed [char] and is little-endian. *)
Definition x86_64 : abi := mkAbi true true.

(** A C library that grants every allocation and renders a floating
    value by naming its bit pattern. *)
Definition symbolic_libc : libc :=
  mkLibc (fun _ => true)
         (fun bits => "<binary32 " ++ Fmt.hex bits ++ ">")
         (fun bits => "<binary64 " ++ Fmt.dec bits ++ ">").

(** ** Vocabulary for the properties *)

(** Projections of a state. *)
Definition indent_of (s : state) : Z := indent (fst s).
Definition eof_of (s : state) : bool := eof (fst s).
Definition pending_of (s : state) : list chunk := pending (snd s).
Definition out_of (s : state) : string := out (snd s).
Definition err_of (s : state) : string := err (snd s).

(** [wp m s Q]: running [m] from [s] ends with a value and a state that
    satisfy [Q]. *)
Definition wp {A : Type} (m : M A) (s : state) (Q : A -> state -> Prop) : Prop :=
  Q (fst (m s)) (snd (m s)).

(** [keeps R m]: every run of [m] relates the state it starts from to the
    state it ends in. *)
Definition keeps (R : state -> state -> Prop) {A : Type} (m : M A) : Prop :=
  forall s, wp m s (fun _ s' => R s s').

(** Proof search for [keeps R m], for [m] built from [printf], [eprintf]
    and [eread] with [bind], [ret], [if] and [match].  The arguments are
    the facts to use for [ret], for [bind] and for the three primitives. *)
Ltac frame kret kbind pr epr rd :=
  repeat match goal with
    | |- keeps _ (printf _) => apply pr
    | |- keeps _ (eprintf _) => apply epr
    | |- keeps _ (eread _) => apply rd
    | |- keeps _ (ret _) => apply kret
    | |- keeps _ (bind _ _) => apply kbind; [ | intros ]
    | |- keeps _ (if ?b then _ else _) => destruct b
    | |- keeps _ (match ?x with _ => _ end) => destruct x
    end.

Definition same_indent (s s' : state) : Prop := indent_of s' = indent_of s.

Definition not_heavier (s s' : state) : Prop :=
  (weight (pending_of s') <= weight (pending_of s))%nat.

(** [balanced m]: from a state whose indent level is an [unsigned], a
    run of [m] that answers [true] ends at the indent level it started
    from. *)
Definition balanced (m : M (option bool)) : Prop :=
  forall s, 0 <= indent_of s < 2 ^ 32 ->
    wp m s (fun r s' => r = Some true -> indent_of s' = indent_of s).

(** [answers bound m]: from a state whose stream weighs less than
    [bound], [m] gives the answer of the C function, and adds nothing to
    the stream. *)
Definition answers (bound : nat) (m : M (option bool)) : Prop :=
  forall s, (weight (pending_of s) < bound)%nat ->
    wp m s (fun r s' => r <> None /\ not_heavier s s').

(** The rows of the table that call no container. *)
Definition scalar (d : decoder) : bool :=
  match d with
  | DumpArray _ | DumpArrayVar _ | DumpMap _ | DumpMapVar _ => false
  | _ => true
  end.

(** One iteration of the loop of [read_varint] on [*n], with the byte it
    read. *)
Definition varint_step (n : Z) (b : byte) : Z :=
  Z.lor (C.u64 (Z.shiftl n 8)) (C.byte_val b).

(** What [dump_start] prints, at an indent level and for a role. *)
Definition start_text (level role : Z) : string :=
  (if negb (role =? ROLE_MAP_VALUE)
   then Fmt.spaces (Z.to_nat (C.u32 (level * 3))) else EmptyString)
  ++ (if 0 <=? role then "[" ++ Fmt.dec role ++ "]: " else EmptyString).

(** [intact s s']: the indent level and both output streams are in [s']
    what they are in [s]. *)
Definition intact (s s' : state) : Prop :=
  indent_of s' = indent_of s /\ out_of s' = out_of s /\ err_of s' = err_of s.

(** The content of a stream on which every [read] succeeds and delivers
    at least one byte, until the end of the stream: [Some bs] when [inp]
    cuts [bs] into such reads. *)
Fixpoint stream (inp : list chunk) : option (list byte) :=
  match inp with
  | [] => Some []
  | Data (b :: bs) :: rest =>
      match stream rest with
      | Some more => Some (b :: bs ++ more)%list
      | None => None
      end
  | _ => None
  end.

(** The [k] low-order bytes of [n], most significant first. *)
Fixpoint be_bytes (k : nat) (n : Z) : list byte :=
  match k with
  | O => []
  | S k' => C.byte_of ((n / 256 ^ Z.of_nat k') mod 256) :: be_bytes k' n
  end.

(** The headers the wire format has for a string of [len] bytes: the tag
    byte, and the length in 1, 2 or 4 big-endian bytes where the tag does
    not hold it. *)
Definition str_headers (len : Z) : list (list byte) :=
  ((if len <? 32 then [[C.byte_of (0xa0 + len)]] else [])
   ++ (if len <? 2 ^ 8 then [xd9 :: be_bytes 1 len] else [])
   ++ (if len <? 2 ^ 16 then [xda :: be_bytes 2 len] else [])
   ++ (if len <? 2 ^ 32 then [xdb :: be_bytes 4 len] else []))%list.

(** [at_payload pl s]: the stream is not at its end and holds just the
    bytes [pl]. *)
Definition at_payload (pl : list byte) (s : state) : Prop :=
  eof_of s = false /\ stream (pending_of s) = Some pl.

(** A failure that sets the end-of-stream flag and prints nothing. *)
Definition fails_at_eof (s : state) (r : option bool) (s' : state) : Prop :=
  r = Some false /\ eof_of s' = true /\ intact s s'.

(** ** Vocabulary for further properties *)

(** The data bytes a descriptor still holds. *)
Fixpoint bytes_left (inp : list chunk) : Z :=
  match inp with
  | [] => 0
  | Data bs :: rest => Z.of_nat (List.length bs) + bytes_left rest
  | Fault _ :: rest => bytes_left rest
  end.

(** [eof_sticky s s']: the end-of-stream flag, once set in [s], is set in
    [s']. *)
Definition eof_sticky (s s' : state) : Prop :=
  eof_of s = true -> eof_of s' = true.

(** [advanced s s']: between [s] and [s'] bytes were only taken from the
    descriptor, and [ctx->offset] moved by their number (as a [size_t]). *)
Definition advanced (s s' : state) : Prop :=
  bytes_left (pending_of s') <= bytes_left (pending_of s)
  /\ C.u64 (offset (fst s'))
     = C.u64 (offset (fst s)
              + (bytes_left (pending_of s) - bytes_left (pending_of s'))).

(** [append_only s s']: both output streams of [s'] start with what they
    were in [s]. *)
Definition append_only (s s' : state) : Prop :=
  (exists t, out_of s' = out_of s ++ t) /\ (exists e, err_of s' = err_of s ++ e).

(** What [dump_stop] prints for a role. *)
Definition stop_text (role : Z) : string :=
  if role =? ROLE_MAP_KEY then ": " else Fmt.nl.

(** [decoded s s' text rest]: between [s] and [s'] the stream was read
    without meeting its end and now holds [rest], [text] was printed on
    standard output, and the indent level and standard error are as
    before. *)
Definition decoded (s s' : state) (text : string) (rest : list byte) : Prop :=
  eof_of s' = false /\ stream (pending_of s') = Some rest
  /\ indent_of s' = indent_of s
  /\ out_of s' = out_of s ++ text /\ err_of s' = err_of s.

(** The text of a value that its tag byte holds whole: nil, the two
    booleans and the two ranges of small integers (printed as the
    unsigned value of the byte). *)
Definition immediate_text (t : Z) : option string :=
  if t =? 0xc0 then Some "()"
  else if t =? 0xc2 then Some "false"
  else if t =? 0xc3 then Some "true"
  else if (t <? 0x80) || (0xe0 <=? t) then Some (Fmt.dec t)
  else None.

(** The tags of the fixed-width integers, with the width in bytes. *)
Definition uint_tags : list (byte * nat) :=
  [(xcc, 1%nat); (xcd, 2%nat); (xce, 4%nat); (xcf, 8%nat)].
Definition sint_tags : list (byte * nat) :=
  [(xd0, 1%nat); (xd1, 2%nat); (xd2, 4%nat); (xd3, 8%nat)].

(** The headers the wire format has for a binary blob of [len] bytes. *)
Definition bin_headers (len : Z) : list (list byte) :=
  ((if len <? 2 ^ 8 then [xc4 :: be_bytes 1 len] else [])
   ++ (if len <? 2 ^ 16 then [xc5 :: be_bytes 2 len] else [])
   ++ (if len <? 2 ^ 32 then [xc6 :: be_bytes 4 len] else []))%list.

(** The headers the wire format has for an extension value with a
    payload of [len] bytes: the five fixed sizes, and the three with a
    length field.  The type byte follows the header. *)
Definition ext_headers (len : Z) : list (list byte) :=
  ((if len =? 1 then [[xd4]] else [])
   ++ (if len =? 2 then [[xd5]] else [])
   ++ (if len =? 4 then [[xd6]] else [])
   ++ (if len =? 8 then [[xd7]] else [])
   ++ (if len =? 16 then [[xd8]] else [])
   ++ (if len <? 2 ^ 8 then [xc7 :: be_bytes 1 len] else [])
   ++ (if len <? 2 ^ 16 then [xc8 :: be_bytes 2 len] else [])
   ++ (if len <? 2 ^ 32 then [xc9 :: be_bytes 4 len] else []))%list.

(** A byte as two lowercase hexadecimal digits, and a blob as such
    pairs with one space between them. *)
Definition hex_digit (v : Z) : ascii :=
  ascii_of_nat (Z.to_nat (if v <? 10 then 48 + v else 87 + v)).
Definition hex_pair (b : byte) : string :=
  String (hex_digit (C.byte_val b / 16))
    (String (hex_digit (C.byte_val b mod 16)) EmptyString).
Definition hex_pairs (data : list byte) : string :=
  String.concat " " (map hex_pair data).

(** No zero byte in the payload. *)
Definition no_nul (data : list byte) : bool :=
  forallb (fun b => negb (Byte.eqb b x00)) data.

(** Bytes that a plain [char] holds as the same number on the host:
    all of them where [char] is unsigned, those below 128 otherwise. *)
Definition plain_chars (A : abi) (data : list byte) : bool :=
  negb (char_signed A) || forallb (fun b => C.byte_val b <? 128) data.

(** [decodes A L d bs text]: the bytes [bs] are one value for [dump]:
    with a recursion bound of [d] or more, in any role, from any state
    whose stream starts with [bs] and whose indent level is an
    [unsigned], [dump] answers [true], takes exactly [bs] and prints
    what [dump_start] prints, then [text] (which may depend on the indent
    level), then what [dump_stop] prints. *)
Definition decodes (A : abi) (L : libc) (d : nat) (bs : list byte)
    (text : Z -> string) : Prop :=
  forall depth rest role s,
    (d <= depth)%nat ->
    eof_of s = false -> stream (pending_of s) = Some (bs ++ rest)%list ->
    0 <= indent_of s < 2 ^ 32 ->
    exists s',
      dump A L depth role s = (Some true, s')
      /\ decoded s s'
           (start_text (indent_of s) role ++ text (indent_of s) ++ stop_text role)
           rest.

(** The headers the wire format has for an array of [count] elements
    and for a map of [count] pairs. *)
Definition array_headers (count : Z) : list (list byte) :=
  ((if count <? 16 then [[C.byte_of (0x90 + count)]] else [])
   ++ (if count <? 2 ^ 16 then [xdc :: be_bytes 2 count] else [])
   ++ (if count <? 2 ^ 32 then [xdd :: be_bytes 4 count] else []))%list.

Definition map_headers (count : Z) : list (list byte) :=
  ((if count <? 16 then [[C.byte_of (0x80 + count)]] else [])
   ++ (if count <? 2 ^ 16 then [xde :: be_bytes 2 count] else [])
   ++ (if count <? 2 ^ 32 then [xdf :: be_bytes 4 count] else []))%list.

(** A value as its bytes and its text at an indent level. *)
Definition value : Type := (list byte * (Z -> string))%type.

(** The lines an array prints for its elements at indent level [level],
    the first of them with index [i]: indentation, the index as a
    label, the element, a newline. *)
Fixpoint array_lines (level i : Z) (elems : list value) : string :=
  match elems with
  | [] => EmptyString
  | e :: rest =>
      (start_text level i ++ snd e level ++ Fmt.nl)
      ++ array_lines level (i + 1) rest
  end.

(** The lines a map prints for its pairs: indentation, the key, a colon
    and a space, the value, a newline. *)
Fixpoint map_lines (level : Z) (pairs : list (value * value)) : string :=
  match pairs with
  | [] => EmptyString
  | (k, v) :: rest =>
      (Fmt.spaces (Z.to_nat (C.u32 (level * 3)))
       ++ snd k level ++ ": " ++ snd v level ++ Fmt.nl)
      ++ map_lines level rest
  end.

(** What a container prints around the [lines] of its body. *)
Definition bracketed (opening closing : string) (level : Z) (lines : string)
  : string :=
  opening ++ Fmt.nl ++ lines
  ++ Fmt.spaces (Z.to_nat (C.u32 (level * 3))) ++ closing.

(** The lines a run prints for top-level values: each value at indent
    level 0 and a newline. *)
Fixpoint top_lines (vals : list value) : string :=
  match vals with
  | [] => EmptyString
  | v :: rest => (snd v 0 ++ Fmt.nl) ++ top_lines rest
  end.

(** [tidy s s']: if the stream of [s] is well-behaved, so is the stream
    of [s']; nothing is read once the end-of-stream flag is set, and the
    flag is set only when the stream has been read to its end. *)
Definition tidy (s s' : state) : Prop :=
  stream (pending_of s) <> None ->
  stream (pending_of s') <> None
  /\ (eof_of s = true -> eof_of s' = true /\ pending_of s' = pending_of s)
  /\ (eof_of s = false -> eof_of s' = true -> pending_of s' = []).

(** [same_reading s1 s2]: two states with the same cursor, the same
    descriptor and the same standard error; standard output may differ. *)
Definition same_reading (s1 s2 : state) : Prop :=
  fst s1 = fst s2 /\ pending_of s1 = pending_of s2 /\ err_of s1 = err_of s2.

(** [same_bytes o s1 s2]: two states whose descriptors are well-behaved
    and hold the same bytes, however the reads will split them, with the
    same indent level, end-of-stream flag and standard error; the
    standard output of [s1] is [o] followed by that of [s2]; the
    descriptor number and the offset may differ. *)
Definition same_bytes (o : string) (s1 s2 : state) : Prop :=
  indent_of s1 = indent_of s2 /\ eof_of s1 = eof_of s2
  /\ out_of s1 = o ++ out_of s2 /\ err_of s1 = err_of s2
  /\ (eof_of s1 = false ->
      exists bs, stream (pending_of s1) = Some bs
                 /\ stream (pending_of s2) = Some bs).

(** [alike R m1 m2]: from states related by [R], [m1] and [m2] give the
    same answer and end in states related by [R]. *)
Definition alike (R : state -> state -> Prop) {X : Type} (m1 m2 : M X)
  : Prop :=
  forall s1 s2, R s1 s2 ->
    fst (m1 s1) = fst (m2 s2) /\ R (snd (m1 s1)) (snd (m2 s2)).

(** Proof search for [alike R m m'] where [m] and [m'] are built alike
    from the primitives.  The arguments are the facts to use for [ret],
    for [bind] and for [printf], [eprintf] and [eread]. *)
Ltac simulate kret kbind kpr kepr krd :=
  repeat match goal with
    | |- alike _ (printf _) (printf _) => apply kpr
    | |- alike _ (eprintf _) (eprintf _) => apply kepr
    | |- alike _ (eread _) (eread _) => apply krd
    | |- alike _ (ret _) (ret _) => apply kret
    | |- alike _ (bind _ _) (bind _ _) => apply kbind; [ | intros ]
    | |- alike _ (if ?b then _ else _) (if ?b then _ else _) => destruct b
    | |- alike _ (match ?x with _ => _ end) (match ?x with _ => _ end) =>
        destruct x
    end.

(** [extends m1 m2]: wherever [m1] gives an answer, [m2] does the same
    as [m1]. *)
Definition extends {X : Type} (m1 m2 : M (option X)) : Prop :=
  forall s, fst (m1 s) <> None -> m2 s = m1 s.

(** The state [main] starts from once the descriptor is open on a file
    holding [bs]. *)
Definition opened (bs : list byte) : state :=
  (ctx_ctor 3, mkWorld (file bs) EmptyString EmptyString).

(** The tags of the numbers with a payload of fixed width, with the
    width in bytes: the integers and the two floating-point formats. *)
Definition number_tags : list (byte * nat) :=
  (uint_tags ++ sint_tags ++ [(xca, 4%nat); (xcb, 8%nat)])%list.

(** * Properties *)

(** ** The calculus of [wp] *)

Lemma wp_ret {A} (a : A) s (Q : A -> state -> Prop) : Q a s -> wp (ret a) s Q.
Proof. exact (fun H => H). Qed.

Lemma wp_bind {A B} (m : M A) (k : A -> M B) s (Q : B -> state -> Prop) :
  wp m s (fun a s' => wp (k a) s' Q) -> wp (bind m k) s Q.
Proof. unfold wp, bind. destruct (m s) as [a s']. exact (fun H => H). Qed.

Lemma wp_conseq {A} (m : M A) s (Q Q' : A -> state -> Prop) :
  wp m s Q -> (forall a s', Q a s' -> Q' a s') -> wp m s Q'.
Proof. unfold wp. intros H HQ. apply HQ, H. Qed.

Lemma wp_run {A} (m : M A) s (Q : A -> state -> Prop) a s' :
  wp m s Q -> m s = (a, s') -> Q a s'.
Proof. unfold wp. intros H E. rewrite E in H. exact H. Qed.

Lemma wp_if {A} (b : bool) (m1 m2 : M A) s Q :
  (b = true -> wp m1 s Q) -> (b = false -> wp m2 s Q) ->
  wp (if b then m1 else m2) s Q.
Proof. destruct b; auto. Qed.

Section Keeps.

Variable R : state -> state -> Prop.
Hypothesis R_refl : forall s, R s s.
Hypothesis R_trans : forall s1 s2 s3, R s1 s2 -> R s2 s3 -> R s1 s3.

Lemma keeps_ret {A} (a : A) : keeps R (ret a).
Proof. intros s. apply R_refl. Qed.

Lemma keeps_bind {A B} (m : M A) (k : A -> M B) :
  keeps R m -> (forall a, keeps R (k a)) -> keeps R (bind m k).
Proof.
  intros Hm Hk s. apply wp_bind.
  eapply wp_conseq; [apply Hm|]. intros a s1 H1. cbv beta in H1.
  eapply wp_conseq; [apply Hk|]. intros b s2 H2. cbv beta in H2.
  eapply R_trans; eassumption.
Qed.

Lemma keeps_if {A} (b : bool) (m1 m2 : M A) :
  keeps R m1 -> keeps R m2 -> keeps R (if b then m1 else m2).
Proof. destruct b; auto. Qed.

(** A step that starts from a state the relation reaches. *)
Lemma keeps_wp {A} (m : M A) s0 s (Q : A -> state -> Prop) :
  keeps R m -> R s0 s -> (forall a s', R s0 s' -> Q a s') -> wp m s Q.
Proof.
  intros Hm H0 HQ. eapply wp_conseq; [apply Hm|].
  intros a s' H. apply HQ. eapply R_trans; eassumption.
Qed.

End Keeps.

(** ** Relations every decoder keeps

    A preorder on states that [printf], [eprintf] and [eread] keep is
    kept by every decoder that is built from them. *)
Section Frame.

Variables (A : abi) (L : libc).
Variable R : state -> state -> Prop.
Hypothesis R_refl : forall s, R s s.
Hypothesis R_trans : forall s1 s2 s3, R s1 s2 -> R s2 s3 -> R s1 s3.
Hypothesis R_printf : forall str, keeps R (printf str).
Hypothesis R_eprintf : forall str, keeps R (eprintf str).
Hypothesis R_eread : forall sz, keeps R (eread sz).

Lemma keeps_dump_indent : keeps R dump_indent.
Proof. intros s. unfold dump_indent. apply R_printf. Qed.

Lemma keeps_dump_start role : keeps R (dump_start role).
Proof.
  unfold dump_start.
  frame (@keeps_ret R R_refl) (@keeps_bind R R_trans)
    R_printf R_eprintf R_eread;
    apply keeps_dump_indent.
Qed.

Lemma keeps_dump_stop role : keeps R (dump_stop role).
Proof.
  unfold dump_stop.
  frame (@keeps_ret R R_refl) (@keeps_bind R R_trans)
    R_printf R_eprintf R_eread.
Qed.

Lemma keeps_read_varint_loop cb : forall n b, keeps R (read_varint_loop cb n b).
Proof.
  induction cb as [|cb IH]; intros n b; simpl;
    frame (@keeps_ret R R_refl) (@keeps_bind R R_trans)
    R_printf R_eprintf R_eread.
  apply IH.
Qed.

Lemma keeps_read_varint lenlen sign : keeps R (read_varint lenlen sign).
Proof.
  unfold read_varint.
  frame (@keeps_ret R R_refl) (@keeps_bind R R_trans)
    R_printf R_eprintf R_eread.
  apply keeps_read_varint_loop.
Qed.

Lemma keeps_dump_varint lenlen sign : keeps R (dump_varint lenlen sign).
Proof.
  unfold dump_varint.
  frame (@keeps_ret R R_refl) (@keeps_bind R R_trans)
    R_printf R_eprintf R_eread.
  apply keeps_read_varint.
Qed.

Lemma keeps_dump_float32 : keeps R (dump_float32 A L).
Proof.
  unfold dump_float32.
  frame (@keeps_ret R R_refl) (@keeps_bind R R_trans)
    R_printf R_eprintf R_eread.
Qed.

Lemma keeps_dump_float64 : keeps R (dump_float64 A L).
Proof.
  unfold dump_float64.
  frame (@keeps_ret R R_refl) (@keeps_bind R R_trans)
    R_printf R_eprintf R_eread.
Qed.

Lemma keeps_dump_data is_str len : keeps R (dump_data A L is_str len).
Proof.
  unfold dump_data.
  frame (@keeps_ret R R_refl) (@keeps_bind R R_trans)
    R_printf R_eprintf R_eread.
Qed.

Lemma keeps_dump_data_var is_str lenlen : keeps R (dump_data_var A L is_str lenlen).
Proof.
  unfold dump_data_var, read_varuint.
  frame (@keeps_ret R R_refl) (@keeps_bind R R_trans)
    R_printf R_eprintf R_eread;
    [apply keeps_read_varint | apply keeps_dump_data].
Qed.

Lemma keeps_dump_ext len : keeps R (dump_ext A L len).
Proof.
  unfold dump_ext.
  frame (@keeps_ret R R_refl) (@keeps_bind R R_trans)
    R_printf R_eprintf R_eread.
  apply keeps_dump_data.
Qed.

Lemma keeps_dump_ext_var lenlen : keeps R (dump_ext_var A L lenlen).
Proof.
  unfold dump_ext_var, read_varuint.
  frame (@keeps_ret R R_refl) (@keeps_bind R R_trans)
    R_printf R_eprintf R_eread;
    [apply keeps_read_varint | apply keeps_dump_ext].
Qed.

Lemma keeps_call_scalar rec d : scalar d = true -> keeps R (call A L rec d).
Proof.
  destruct d; simpl; try discriminate; intros _;
    unfold always, lift, dump_nil, dump_false, dump_true, dump_int,
      dump_uint8, dump_uint16, dump_uint32, dump_uint64,
      dump_int8, dump_int16, dump_int32, dump_int64,
      dump_varuint, dump_varsint;
    frame (@keeps_ret R R_refl) (@keeps_bind R R_trans)
      R_printf R_eprintf R_eread;
    first [ apply keeps_dump_varint | apply keeps_dump_float32
          | apply keeps_dump_float64 | apply keeps_dump_data
          | apply keeps_dump_data_var | apply keeps_dump_ext
          | apply keeps_dump_ext_var ].
Qed.

End Frame.

(** ** [eread] *)

(** The loop of [eread] is the loop of the source over [sys_read]. *)
Lemma eread_loop_step inp sz done off buf :
  eread_loop inp sz done off buf =
  if sz <=? done then (IoDone, buf, inp, off)
  else
    match sys_read inp (sz - done) with
    | (ret, got, inp', why) =>
        if ret =? 0 then (IoEof, buf, inp', off)
        else if ret <? 0 then (IoErr why, buf, inp', off)
        else eread_loop inp' sz (done + ret) (C.u64 (off + ret)) (buf ++ got)
    end.
Proof.
  destruct inp as [|[bs|why] rest]; cbn [eread_loop sys_read];
    destruct (sz <=? done) eqn:E; try reflexivity.
  apply Z.leb_gt in E.
  destruct (Z.of_nat (List.length bs) =? 0) eqn:E0.
  - apply Z.eqb_eq in E0.
    replace (Z.of_nat (List.length bs) <=? sz - done) with true
      by (symmetry; apply Z.leb_le; lia).
    rewrite E0. reflexivity.
  - apply Z.eqb_neq in E0.
    destruct (Z.of_nat (List.length bs) <=? sz - done) eqn:E1.
    + rewrite (proj2 (Z.eqb_neq _ _) E0).
      replace (Z.of_nat (List.length bs) <? 0) with false
        by (symmetry; apply Z.ltb_ge; lia).
      reflexivity.
    + replace (sz - done =? 0) with false by (symmetry; apply Z.eqb_neq; lia).
      replace (sz - done <? 0) with false by (symmetry; apply Z.ltb_ge; lia).
      replace (done + (sz - done)) with sz by lia.
      destruct rest as [|[bs'|why'] rest']; cbn [eread_loop];
        rewrite Z.leb_refl; reflexivity.
Qed.

Lemma eread_loop_weight : forall inp sz done off buf e buf' inp' off',
  eread_loop inp sz done off buf = (e, buf', inp', off') ->
  (weight inp' <= weight inp)%nat
  /\ (e = IoDone -> done < sz -> (weight inp' < weight inp)%nat).
Proof.
  induction inp as [|[bs|why] rest IH]; intros sz done off buf e buf' inp' off';
    cbn [eread_loop]; destruct (sz <=? done) eqn:E;
    try (intros H; injection H as <- <- <- <-; split;
         [simpl; lia | first [discriminate | intros _ Hlt; apply Z.leb_le in E; lia]]).
  apply Z.leb_gt in E.
  destruct (Z.of_nat (List.length bs) =? 0) eqn:E0.
  - intros H; injection H as <- <- <- <-. split; [simpl; lia | discriminate].
  - apply Z.eqb_neq in E0.
    destruct (Z.of_nat (List.length bs) <=? sz - done) eqn:E1.
    + intros H. apply IH in H. destruct H as [H1 _]. simpl. split; lia.
    + apply Z.leb_gt in E1. intros H; injection H as <- <- <- <-.
      simpl. rewrite length_skipn. split; intros; lia.
Qed.

Lemma printf_same_indent str : keeps same_indent (printf str).
Proof. intros [c w]. reflexivity. Qed.

Lemma eprintf_same_indent str : keeps same_indent (eprintf str).
Proof. intros [c w]. reflexivity. Qed.

Lemma eread_same_indent sz : keeps same_indent (eread sz).
Proof.
  intros [c w]. unfold wp, eread. destruct (eof c); [reflexivity|].
  destruct (eread_loop (pending w) sz 0 (offset c) []) as [[[e buf] inp] off].
  destruct e; reflexivity.
Qed.

Lemma same_indent_refl s : same_indent s s.
Proof. reflexivity. Qed.

Lemma same_indent_trans s1 s2 s3 :
  same_indent s1 s2 -> same_indent s2 s3 -> same_indent s1 s3.
Proof. unfold same_indent. congruence. Qed.

Lemma printf_not_heavier str : keeps not_heavier (printf str).
Proof. intros [c w]. unfold wp, not_heavier, pending_of. simpl. lia. Qed.

Lemma eprintf_not_heavier str : keeps not_heavier (eprintf str).
Proof. intros [c w]. unfold wp, not_heavier, pending_of. simpl. lia. Qed.

(** A successful [eread] of at least one byte uses up some of the
    stream; no [eread] adds to it. *)
Lemma eread_weight sz s :
  wp (eread sz) s (fun r s' =>
    (weight (pending_of s') <= weight (pending_of s))%nat
    /\ (r <> None -> 0 < sz -> (weight (pending_of s') < weight (pending_of s))%nat)).
Proof.
  destruct s as [c w]. unfold wp, eread, pending_of.
  destruct (eof c); [simpl; split; [lia | congruence]|].
  destruct (eread_loop (pending w) sz 0 (offset c) []) as [[[e buf] inp] off] eqn:E.
  apply eread_loop_weight in E. destruct E as [E1 E2].
  destruct e; simpl; split; auto; congruence.
Qed.

Lemma eread_not_heavier sz : keeps not_heavier (eread sz).
Proof.
  intros s. eapply wp_conseq; [apply eread_weight|].
  intros r s' [H _]. exact H.
Qed.

Lemma not_heavier_refl s : not_heavier s s.
Proof. unfold not_heavier. lia. Qed.

Lemma not_heavier_trans s1 s2 s3 :
  not_heavier s1 s2 -> not_heavier s2 s3 -> not_heavier s1 s3.
Proof. unfold not_heavier. lia. Qed.

(** ** Primitive steps *)

Lemma wp_printf str s (Q : unit -> state -> Prop) :
  Q tt (fst s, mkWorld (pending_of s) (out_of s ++ str) (err_of s)) ->
  wp (printf str) s Q.
Proof. destruct s as [c w]. exact (fun H => H). Qed.

Lemma wp_eprintf str s (Q : unit -> state -> Prop) :
  Q tt (fst s, mkWorld (pending_of s) (out_of s) (err_of s ++ str)) ->
  wp (eprintf str) s Q.
Proof. destruct s as [c w]. exact (fun H => H). Qed.

Lemma wp_dump_indent s (Q : unit -> state -> Prop) :
  Q tt (fst s,
        mkWorld (pending_of s)
          (out_of s ++ Fmt.spaces (Z.to_nat (C.u32 (indent_of s * 3))))
          (err_of s)) ->
  wp dump_indent s Q.
Proof. destruct s as [c w]. exact (fun H => H). Qed.

Lemma wp_incr_indent s (Q : unit -> state -> Prop) :
  Q tt (mkCtx (fd (fst s)) (offset (fst s)) (C.u32 (indent_of s + 1)) (eof_of s),
        snd s) ->
  wp incr_indent s Q.
Proof. destruct s as [c w]. exact (fun H => H). Qed.

Lemma wp_decr_indent s (Q : unit -> state -> Prop) :
  Q tt (mkCtx (fd (fst s)) (offset (fst s)) (C.u32 (indent_of s - 1)) (eof_of s),
        snd s) ->
  wp decr_indent s Q.
Proof. destruct s as [c w]. exact (fun H => H). Qed.

Lemma u32_range z : 0 <= C.u32 z < 2 ^ 32.
Proof. unfold C.u32. apply Z.mod_pos_bound. reflexivity. Qed.

Lemma u32_incr_decr i : 0 <= i < 2 ^ 32 -> C.u32 (C.u32 (i + 1) - 1) = i.
Proof.
  intros H. unfold C.u32. rewrite Zminus_mod_idemp_l.
  replace (i + 1 - 1) with i by lia. apply Z.mod_small. exact H.
Qed.

(** ** Indentation is balanced *)

Section Balance.

Variables (A : abi) (L : libc).

Lemma call_scalar_same_indent rec d :
  scalar d = true -> keeps same_indent (call A L rec d).
Proof.
  apply keeps_call_scalar.
  - exact same_indent_refl.
  - exact same_indent_trans.
  - exact printf_same_indent.
  - exact eprintf_same_indent.
  - exact eread_same_indent.
Qed.

Section BalanceLoops.

Variable rec : Z -> M (option bool).
Hypothesis rec_balanced : forall role, balanced (rec role).

Lemma dump_array_loop_balanced count :
  forall n, balanced (dump_array_loop rec count n).
Proof.
  induction count as [|count IH]; intros n s Hs; simpl.
  - apply wp_ret. reflexivity.
  - apply wp_bind. eapply wp_conseq; [apply rec_balanced, Hs|].
    intros [[|]|] s1 H1; try (apply wp_ret; discriminate).
    specialize (H1 eq_refl).
    eapply wp_conseq; [apply IH; rewrite H1; exact Hs|].
    intros r s2 H2 Hr. rewrite (H2 Hr). exact H1.
Qed.

Lemma dump_map_loop_balanced count : balanced (dump_map_loop rec count).
Proof.
  induction count as [|count IH]; intros s Hs; simpl.
  - apply wp_ret. reflexivity.
  - apply wp_bind. eapply wp_conseq; [apply rec_balanced, Hs|].
    intros [[|]|] s1 H1; try (apply wp_ret; discriminate).
    specialize (H1 eq_refl).
    apply wp_bind. eapply wp_conseq; [apply rec_balanced; rewrite H1; exact Hs|].
    intros [[|]|] s2 H2; try (apply wp_ret; discriminate).
    specialize (H2 eq_refl).
    eapply wp_conseq; [apply IH; rewrite H2, H1; exact Hs|].
    intros r s3 H3 Hr. rewrite (H3 Hr). congruence.
Qed.

(** A container body: [indent++], the loop, [indent--], the closing
    line. *)
Lemma container_balanced (opening closing : string) (loop : M (option bool)) :
  balanced loop ->
  balanced
    (printf opening ;;; incr_indent ;;;
     r <- loop ;;
     match r with
     | Some true =>
         decr_indent ;;; dump_indent ;;; printf closing ;;; ret (Some true)
     | other => ret other
     end).
Proof.
  intros Hloop s Hs.
  apply wp_bind, wp_printf. apply wp_bind, wp_incr_indent.
  apply wp_bind. eapply wp_conseq; [apply Hloop; apply u32_range|].
  intros [[|]|] s1 H1; try (apply wp_ret; discriminate).
  specialize (H1 eq_refl).
  apply wp_bind, wp_decr_indent. apply wp_bind, wp_dump_indent.
  apply wp_bind, wp_printf. apply wp_ret. intros _.
  unfold indent_of in *. simpl in *. rewrite H1.
  apply u32_incr_decr. exact Hs.
Qed.

Lemma dump_array_balanced nb_objs : balanced (dump_array rec nb_objs).
Proof. apply container_balanced, dump_array_loop_balanced. Qed.

Lemma dump_map_balanced nb_objs : balanced (dump_map rec nb_objs).
Proof. apply container_balanced, dump_map_loop_balanced. Qed.

Lemma after_read_varuint_balanced lenlen (k : Z -> M (option bool)) :
  (forall len, balanced (k len)) ->
  balanced (r <- read_varuint lenlen ;;
            match r with None => ret (Some false) | Some len => k len end).
Proof.
  intros Hk s Hs. apply wp_bind.
  eapply wp_conseq;
    [apply (keeps_read_varint same_indent same_indent_refl same_indent_trans
              eread_same_indent)|].
  intros [len|] s1 H1; [|apply wp_ret; discriminate].
  eapply wp_conseq; [apply Hk; rewrite H1; exact Hs|].
  intros r s2 H2 Hr. rewrite (H2 Hr). exact H1.
Qed.

Lemma call_balanced d : balanced (call A L rec d).
Proof.
  destruct (scalar d) eqn:E.
  - intros s _. eapply wp_conseq; [apply call_scalar_same_indent, E|].
    intros r s' H _. exact H.
  - destruct d; try discriminate; simpl.
    + apply dump_array_balanced.
    + apply after_read_varuint_balanced. intros; apply dump_array_balanced.
    + apply dump_map_balanced.
    + apply after_read_varuint_balanced. intros; apply dump_map_balanced.
Qed.

Lemma dump_body_balanced role : balanced (dump_body A L rec role).
Proof.
  intros s Hs. unfold dump_body. apply wp_bind.
  eapply wp_conseq; [apply eread_same_indent|].
  intros [buf|] s1 H1; [|intros _; exact H1].
  apply wp_bind. eapply wp_conseq;
    [apply (keeps_dump_start same_indent same_indent_refl same_indent_trans
              printf_same_indent)|].
  intros [] s2 H2. cbv beta in H2.
  destruct (select _) as [d|].
  - apply wp_bind.
    eapply wp_conseq; [apply call_balanced; rewrite H2, H1; exact Hs|].
    intros [[|]|] s3 H3; try (apply wp_ret; discriminate).
    specialize (H3 eq_refl). apply wp_bind.
    eapply wp_conseq; [apply (keeps_dump_stop same_indent printf_same_indent)|].
    intros [] s4 H4. apply wp_ret. intros _.
    unfold same_indent in *. congruence.
  - apply wp_bind, wp_eprintf. apply wp_ret. discriminate.
Qed.

End BalanceLoops.

Lemma dump_balanced depth : forall role, balanced (dump A L depth role).
Proof.
  induction depth as [|depth IH]; intros role.
  - intros s _. apply wp_ret. discriminate.
  - apply dump_body_balanced. exact IH.
Qed.

End Balance.

(** ** Every run ends

    A call of [dump] that reads a tag byte uses up some of the stream, so
    the stream bounds both how deep the calls nest and how many values
    the loop of [main] decodes. *)

Section Termination.

Variables (A : abi) (L : libc).

Lemma call_scalar_not_heavier rec d :
  scalar d = true -> keeps not_heavier (call A L rec d).
Proof.
  apply keeps_call_scalar.
  - exact not_heavier_refl.
  - exact not_heavier_trans.
  - exact printf_not_heavier.
  - exact eprintf_not_heavier.
  - exact eread_not_heavier.
Qed.

Lemma call_scalar_answers rec d s :
  scalar d = true -> fst (call A L rec d s) <> None.
Proof.
  destruct d; try discriminate; intros _; simpl; unfold always, lift, bind;
    match goal with |- context [let (_, _) := ?m s in _] => destruct (m s) end;
    discriminate.
Qed.

Section TerminationLoops.

Variable bound : nat.
Variable rec : Z -> M (option bool).
Hypothesis rec_answers : forall role, answers bound (rec role).

Lemma dump_array_loop_answers count :
  forall n, answers bound (dump_array_loop rec count n).
Proof.
  induction count as [|count IH]; intros n s Hs; simpl.
  - apply wp_ret. split; [discriminate | apply not_heavier_refl].
  - apply wp_bind. eapply wp_conseq; [apply rec_answers, Hs|].
    intros r s1 [Hr H1]. unfold not_heavier in H1.
    destruct r as [[|]|]; try contradiction;
      try (apply wp_ret; split; [discriminate | exact H1]).
    eapply wp_conseq; [apply IH; lia|].
    intros r s2 [Hr2 H2]. split; [exact Hr2|].
    eapply not_heavier_trans; eassumption.
Qed.

Lemma dump_map_loop_answers count : answers bound (dump_map_loop rec count).
Proof.
  induction count as [|count IH]; intros s Hs; simpl.
  - apply wp_ret. split; [discriminate | apply not_heavier_refl].
  - apply wp_bind. eapply wp_conseq; [apply rec_answers, Hs|].
    intros r s1 [Hr H1]. unfold not_heavier in H1.
    destruct r as [[|]|]; try contradiction;
      try (apply wp_ret; split; [discriminate | exact H1]).
    apply wp_bind. eapply wp_conseq; [apply rec_answers; lia|].
    intros r s2 [Hr2 H2]. unfold not_heavier in H2.
    destruct r as [[|]|]; try contradiction;
      try (apply wp_ret; split; [discriminate | unfold not_heavier; lia]).
    eapply wp_conseq; [apply IH; lia|].
    intros r s3 [Hr3 H3]. split; [exact Hr3|].
    unfold not_heavier in *. lia.
Qed.

Lemma container_answers (opening closing : string) (loop : M (option bool)) :
  answers bound loop ->
  answers bound
    (printf opening ;;; incr_indent ;;;
     r <- loop ;;
     match r with
     | Some true =>
         decr_indent ;;; dump_indent ;;; printf closing ;;; ret (Some true)
     | other => ret other
     end).
Proof.
  intros Hloop s Hs.
  apply wp_bind, wp_printf. apply wp_bind, wp_incr_indent.
  apply wp_bind. eapply wp_conseq; [apply Hloop; exact Hs|].
  intros r s1 [Hr H1].
  destruct r as [[|]|]; try contradiction;
    try (apply wp_ret; split; [discriminate | exact H1]).
  apply wp_bind, wp_decr_indent. apply wp_bind, wp_dump_indent.
  apply wp_bind, wp_printf. apply wp_ret.
  split; [discriminate | exact H1].
Qed.

Lemma after_read_varuint_answers lenlen (k : Z -> M (option bool)) :
  (forall len, answers bound (k len)) ->
  answers bound (r <- read_varuint lenlen ;;
                 match r with None => ret (Some false) | Some len => k len end).
Proof.
  intros Hk s Hs. apply wp_bind.
  eapply wp_conseq;
    [apply (keeps_read_varint not_heavier not_heavier_refl not_heavier_trans
              eread_not_heavier)|].
  intros [len|] s1 H1; [|apply wp_ret; split; [discriminate | exact H1]].
  unfold not_heavier in H1.
  eapply wp_conseq; [apply Hk; lia|].
  intros r s2 [Hr H2]. split; [exact Hr|].
  unfold not_heavier in *. lia.
Qed.

Lemma call_answers d : answers bound (call A L rec d).
Proof.
  destruct (scalar d) eqn:E.
  - intros s _.
    split; [apply call_scalar_answers, E | apply call_scalar_not_heavier, E].
  - destruct d; try discriminate; simpl.
    + apply container_answers, dump_array_loop_answers.
    + apply after_read_varuint_answers. intros.
      apply container_answers, dump_array_loop_answers.
    + apply container_answers, dump_map_loop_answers.
    + apply after_read_varuint_answers. intros.
      apply container_answers, dump_map_loop_answers.
Qed.

(** [dump] answers when the stream is short enough for the calls it
    makes; when it answers [true] it has met the end of the stream
    or used some of it. *)
Lemma dump_body_answers role s :
  (weight (pending_of s) <= bound)%nat ->
  wp (dump_body A L rec role) s (fun r s' =>
    r <> None /\ not_heavier s s'
    /\ (r = Some true ->
        eof_of s' = true \/ (weight (pending_of s') < weight (pending_of s))%nat)).
Proof.
  intros Hs. unfold dump_body. apply wp_bind.
  eapply wp_conseq; [apply eread_weight|].
  intros [buf|] s1 [H1 H1'].
  - assert (Hlt : (weight (pending_of s1) < weight (pending_of s))%nat)
      by (apply H1'; [discriminate | lia]).
    apply wp_bind. eapply wp_conseq;
      [apply (keeps_dump_start not_heavier not_heavier_refl not_heavier_trans
                printf_not_heavier)|].
    intros [] s2 H2. cbv beta in H2. unfold not_heavier in H2.
    destruct (select _) as [d|].
    + apply wp_bind. eapply wp_conseq; [apply call_answers; lia|].
      intros r s3 [Hr H3]. unfold not_heavier in H3.
      destruct r as [[|]|]; try contradiction;
        try (apply wp_ret; split; [discriminate | split;
             [unfold not_heavier; lia | discriminate]]).
      apply wp_bind.
      eapply wp_conseq; [apply (keeps_dump_stop not_heavier printf_not_heavier)|].
      intros [] s4 H4. unfold not_heavier in H4. apply wp_ret.
      split; [discriminate | split; [unfold not_heavier; lia | right; lia]].
    + apply wp_bind, wp_eprintf. apply wp_ret.
      split; [discriminate | split; [|discriminate]].
      unfold not_heavier, pending_of in *. simpl. lia.
  - unfold wp. simpl. split; [discriminate | split; [exact H1|]].
    intros H. left. unfold eof_of. congruence.
Qed.

End TerminationLoops.

Lemma dump_answers depth : forall role, answers depth (dump A L depth role).
Proof.
  induction depth as [|depth IH]; intros role s Hs; [lia|].
  simpl. eapply wp_conseq; [apply (dump_body_answers depth _ IH); lia|].
  intros r s' (H1 & H2 & _). split; assumption.
Qed.

Lemma dump_progress depth role s :
  (weight (pending_of s) < depth)%nat ->
  wp (dump A L depth role) s (fun r s' =>
    r <> None /\ not_heavier s s'
    /\ (r = Some true ->
        eof_of s' = true \/ (weight (pending_of s') < weight (pending_of s))%nat)).
Proof.
  destruct depth as [|depth]; intros Hs; [lia|].
  simpl. apply (dump_body_answers depth _ (dump_answers depth)). lia.
Qed.

Lemma main_loop_answers depth : forall iters s,
  (weight (pending_of s) < depth)%nat ->
  eof_of s = true \/ (weight (pending_of s) < iters)%nat ->
  fst (main_loop A L iters depth s) = Some 0
  \/ fst (main_loop A L iters depth s) = Some 1.
Proof.
  induction iters as [|iters IH]; intros s Hd Hi.
  - destruct Hi as [Hi|Hi]; [|lia]. unfold eof_of in Hi.
    simpl. rewrite Hi. left; reflexivity.
  - simpl. destruct (eof (fst s)) eqn:E; [left; reflexivity|].
    destruct Hi as [Hi|Hi]; [unfold eof_of in Hi; congruence|].
    pose proof (dump_progress depth ROLE_NONE s Hd) as H. unfold wp in H.
    destruct (dump A L depth ROLE_NONE s) as [r s']. simpl in H.
    destruct H as (Hr & Hw & Hp). unfold not_heavier in Hw.
    destruct r as [[|]|]; try contradiction; [|right; reflexivity].
    apply IH; [lia|]. destruct (Hp eq_refl) as [H|H]; [left; exact H|right; lia].
Qed.

Lemma run_fd_status_ok fd0 inp :
  status (run_fd A L fd0 inp) = Some 0 \/ status (run_fd A L fd0 inp) = Some 1.
Proof.
  unfold run_fd, result_of. cbn [status].
  apply main_loop_answers; [|right]; unfold pending_of; simpl; lia.
Qed.

End Termination.

(** ** Reading a well-behaved stream *)

Lemma byte_val_range b : 0 <= C.byte_val b < 256.
Proof.
  unfold C.byte_val. pose proof (Byte.to_N_bounded b). lia.
Qed.

Lemma byte_val_byte_of z : 0 <= z < 256 -> C.byte_val (C.byte_of z) = z.
Proof.
  intros H. unfold C.byte_val, C.byte_of.
  destruct (Byte.of_N (Z.to_N z)) as [b|] eqn:E.
  - apply Byte.to_of_N in E. rewrite E. lia.
  - apply Byte.of_N_None_iff in E. lia.
Qed.

Lemma stream_cons b bs rest more :
  stream rest = Some more ->
  stream (Data (b :: bs) :: rest) = Some ((b :: bs) ++ more)%list.
Proof. intros H. simpl. rewrite H. reflexivity. Qed.

Lemma stream_weight : forall inp bs,
  stream inp = Some bs -> (List.length bs <= weight inp)%nat.
Proof.
  induction inp as [|[[|b bs0]|why] rest IH]; intros bs H; try discriminate.
  - injection H as <-. simpl. lia.
  - simpl in H. destruct (stream rest) as [more|]; [|discriminate].
    injection H as <-. specialize (IH more eq_refl).
    simpl. rewrite length_app. lia.
Qed.

Lemma eread_loop_stream : forall inp bs sz done off buf,
  stream inp = Some bs -> done <= sz ->
  (sz - done <= Z.of_nat (List.length bs) ->
   exists inp' off',
     eread_loop inp sz done off buf
     = (IoDone, (buf ++ firstn (Z.to_nat (sz - done)) bs)%list, inp', off')
     /\ stream inp' = Some (skipn (Z.to_nat (sz - done)) bs))
  /\ (Z.of_nat (List.length bs) < sz - done ->
      exists buf' inp' off',
        eread_loop inp sz done off buf = (IoEof, buf', inp', off')).
Proof.
  induction inp as [|[[|b bs0]|why] rest IH]; intros bs sz done off buf Hs Hd;
    try discriminate.
  - injection Hs as <-. cbn [eread_loop]. split; intros H.
    + simpl in H. replace (sz <=? done) with true by (symmetry; apply Z.leb_le; lia).
      exists [], off. rewrite firstn_nil, skipn_nil, app_nil_r. split; reflexivity.
    + simpl in H. replace (sz <=? done) with false by (symmetry; apply Z.leb_gt; lia).
      exists buf, [], off. reflexivity.
  - simpl in Hs. destruct (stream rest) as [more|] eqn:Er; [|discriminate].
    injection Hs as <-. cbn [eread_loop].
    destruct (sz <=? done) eqn:E.
    + apply Z.leb_le in E. assert (sz - done = 0) as -> by lia. split; intros H.
      * exists (Data (b :: bs0) :: rest), off. simpl.
        rewrite app_nil_r, Er. split; reflexivity.
      * lia.
    + apply Z.leb_gt in E.
      change (b :: (bs0 ++ more)%list) with ((b :: bs0) ++ more)%list.
      remember (b :: bs0) as chunk eqn:Hc.
      assert (Hlen : 0 < Z.of_nat (List.length chunk)) by (subst chunk; simpl; lia).
      replace (Z.of_nat (List.length chunk) =? 0) with false
        by (symmetry; apply Z.eqb_neq; lia).
      rewrite length_app, Nat2Z.inj_add.
      destruct (Z.of_nat (List.length chunk) <=? sz - done) eqn:E1.
      * apply Z.leb_le in E1.
        destruct (IH more sz (done + Z.of_nat (List.length chunk))
                    (C.u64 (off + Z.of_nat (List.length chunk)))
                    (buf ++ chunk)%list eq_refl ltac:(lia)) as [IH1 IH2].
        assert (Hn : Z.to_nat (sz - done)
                     = (List.length chunk
                        + Z.to_nat (sz - (done + Z.of_nat (List.length chunk))))%nat)
          by lia.
        split; intros H.
        -- specialize (IH1 ltac:(lia)). destruct IH1 as (inp' & off' & H1 & H2).
           exists inp', off'. rewrite H1, H2, Hn.
           rewrite firstn_app_2, <- app_assoc, skipn_app.
           rewrite (@skipn_all2 _ _ chunk) by lia.
           replace (List.length chunk
                    + Z.to_nat (sz - (done + Z.of_nat (List.length chunk)))
                    - List.length chunk)%nat
             with (Z.to_nat (sz - (done + Z.of_nat (List.length chunk)))) by lia.
           split; reflexivity.
        -- specialize (IH2 ltac:(lia)). destruct IH2 as (buf' & inp' & off' & H1).
           exists buf', inp', off'. exact H1.
      * apply Z.leb_gt in E1. split; intros H; [|lia].
        exists (Data (skipn (Z.to_nat (sz - done)) chunk) :: rest),
               (C.u64 (off + (sz - done))).
        rewrite firstn_app, skipn_app.
        replace (Z.to_nat (sz - done) - List.length chunk)%nat with O by lia.
        rewrite firstn_O, skipn_O, app_nil_r. split; [reflexivity|].
        destruct (skipn (Z.to_nat (sz - done)) chunk) as [|b' bs'] eqn:Ek.
        -- apply (f_equal (@List.length byte)) in Ek.
           rewrite length_skipn in Ek. simpl in Ek. lia.
        -- rewrite (stream_cons _ _ _ _ Er). reflexivity.
Qed.

(** [eread] on a stream that has [bs] left: it hands over the first [sz]
    bytes, or meets the end of the stream when there are fewer. *)
Lemma eread_stream sz s bs :
  eof_of s = false -> stream (pending_of s) = Some bs -> 0 <= sz ->
  wp (eread sz) s (fun r s' =>
    indent_of s' = indent_of s /\ out_of s' = out_of s /\ err_of s' = err_of s
    /\ if sz <=? Z.of_nat (List.length bs)
       then r = Some (firstn (Z.to_nat sz) bs) /\ eof_of s' = false
            /\ stream (pending_of s') = Some (skipn (Z.to_nat sz) bs)
       else r = None /\ eof_of s' = true).
Proof.
  destruct s as [c w]. unfold eof_of, pending_of, indent_of, out_of, err_of.
  simpl. intros He Hs Hsz. unfold wp, eread. rewrite He.
  destruct (eread_loop_stream (pending w) bs sz 0 (offset c) [] Hs Hsz) as [H1 H2].
  rewrite Z.sub_0_r in H1, H2.
  destruct (sz <=? Z.of_nat (List.length bs)) eqn:E.
  - apply Z.leb_le in E. destruct (H1 E) as (inp' & off' & -> & H).
    simpl. repeat split; try reflexivity; assumption.
  - apply Z.leb_gt in E. destruct (H2 E) as (buf' & inp' & off' & ->).
    simpl. repeat split; reflexivity.
Qed.

(** ** Lengths on the wire *)

Lemma land_shifted_byte a b : 0 <= b < 256 -> Z.land (a * 2 ^ 8) b = 0.
Proof.
  intros Hb. apply Z.bits_inj'. intros n Hn.
  rewrite Z.land_spec, Z.bits_0.
  destruct (Z.ltb_spec n 8) as [Hlt|Hge].
  - rewrite Z.mul_pow2_bits_low by exact Hlt. reflexivity.
  - destruct (Z.eq_dec b 0) as [->|Hnz].
    + rewrite Z.bits_0. apply andb_false_r.
    + rewrite (Z.bits_above_log2 b n); [apply andb_false_r | lia |].
      assert (Z.log2 b < 8) by (apply Z.log2_lt_pow2; lia). lia.
Qed.

Lemma varint_step_add n b :
  0 <= n < 2 ^ 56 -> varint_step n b = n * 256 + C.byte_val b.
Proof.
  intros Hn. unfold varint_step, C.u64.
  rewrite Z.shiftl_mul_pow2 by lia.
  rewrite Z.mod_small by lia.
  pose proof (byte_val_range b) as Hb.
  pose proof (Z.add_lor_land (n * 2 ^ 8) (C.byte_val b)) as H.
  rewrite (land_shifted_byte n _ Hb) in H. lia.
Qed.

Lemma fold_varint_step bs : forall acc,
  0 <= acc -> (acc + 1) * 256 ^ Z.of_nat (List.length bs) <= 2 ^ 64 ->
  fold_left varint_step bs acc
  = fold_left (fun a b => a * 256 + C.byte_val b) bs acc.
Proof.
  induction bs as [|b bs IH]; intros acc H0 H; [reflexivity|].
  cbn [fold_left]. cbn [List.length] in H.
  rewrite Nat2Z.inj_succ, Z.pow_succ_r in H by lia.
  pose proof (byte_val_range b) as Hb.
  assert (Hp : 1 <= 256 ^ Z.of_nat (List.length bs))
    by (apply Z.pow_le_mono_r with (b := 0); lia).
  rewrite varint_step_add by nia.
  apply IH; nia.
Qed.

Lemma be_value_be_bytes_acc k : forall n acc,
  0 <= n ->
  fold_left (fun a b => a * 256 + C.byte_val b) (be_bytes k n) acc
  = acc * 256 ^ Z.of_nat k + n mod 256 ^ Z.of_nat k.
Proof.
  induction k as [|k IH]; intros n acc Hn.
  - simpl. rewrite Z.mod_1_r. lia.
  - cbn [be_bytes fold_left]. rewrite IH by exact Hn.
    assert (Hp : 0 < 256 ^ Z.of_nat k) by (apply Z.pow_pos_nonneg; lia).
    rewrite byte_val_byte_of by (apply Z.mod_pos_bound; lia).
    rewrite Nat2Z.inj_succ, Z.pow_succ_r by lia.
    rewrite (Z.mul_comm 256), Z.rem_mul_r by lia. lia.
Qed.

Lemma be_bytes_length k n : List.length (be_bytes k n) = k.
Proof. induction k as [|k IH]; simpl; congruence. Qed.

(** The bytes [be_bytes] writes are read back by the loop of
    [read_varint]. *)
Lemma fold_varint_be_bytes k n :
  (k <= 8)%nat -> 0 <= n < 256 ^ Z.of_nat k ->
  fold_left varint_step (be_bytes k n) 0 = n.
Proof.
  intros Hk Hn. rewrite fold_varint_step.
  - rewrite be_value_be_bytes_acc by lia. rewrite Z.mod_small by exact Hn. lia.
  - lia.
  - rewrite be_bytes_length, Z.mul_1_l.
    change (2 ^ 64) with (256 ^ 8). apply Z.pow_le_mono_r; lia.
Qed.

(** ** Reading a length from a well-behaved stream *)

Lemma read_varint_loop_stream cb : forall n b s bs,
  eof_of s = false -> stream (pending_of s) = Some bs ->
  (cb <= List.length bs)%nat ->
  wp (read_varint_loop cb n b) s (fun r s' =>
    (exists last, r = Some (fold_left varint_step (firstn cb bs) n, last))
    /\ eof_of s' = false /\ stream (pending_of s') = Some (skipn cb bs)
    /\ intact s s').
Proof.
  induction cb as [|cb IH]; intros n b s bs He Hs Hl.
  - apply wp_ret. repeat split; eauto.
  - cbn [read_varint_loop]. apply wp_bind.
    eapply wp_conseq; [apply (eread_stream 1 s bs He Hs); lia|].
    intros r s1 (Hi & Ho & Hr & H).
    destruct bs as [|x bs]; [simpl in Hl; lia|].
    replace (1 <=? Z.of_nat (List.length (x :: bs))) with true in H
      by (symmetry; apply Z.leb_le; simpl; lia).
    destruct H as (-> & He1 & Hs1). simpl in Hs1.
    cbn [hd firstn Z.to_nat Pos.to_nat Pos.iter_op Nat.add].
    eapply wp_conseq; [apply (IH _ _ s1 bs He1 Hs1); simpl in Hl; lia|].
    intros r s2 ((last & ->) & He2 & Hs2 & Hi2 & Ho2 & Hr2).
    repeat split; eauto; congruence.
Qed.

Lemma read_varuint_stream k len s rest :
  (k <= 8)%nat -> 0 <= len < 256 ^ Z.of_nat k ->
  eof_of s = false -> stream (pending_of s) = Some (be_bytes k len ++ rest)%list ->
  wp (read_varuint (Z.of_nat k)) s (fun r s' =>
    r = Some len /\ eof_of s' = false /\ stream (pending_of s') = Some rest
    /\ intact s s').
Proof.
  intros Hk Hlen He Hs. unfold read_varuint, read_varint. apply wp_bind.
  rewrite Nat2Z.id.
  eapply wp_conseq;
    [apply (read_varint_loop_stream k 0 0 s _ He Hs);
     rewrite length_app, be_bytes_length; lia|].
  intros r s1 ((last & ->) & He1 & Hs1 & Hi1).
  apply wp_ret.
  rewrite <- (be_bytes_length k len) in Hs1 at 1.
  rewrite skipn_app, skipn_all, Nat.sub_diag in Hs1. simpl in Hs1.
  replace (firstn k (be_bytes k len ++ rest)) with (be_bytes k len).
  - rewrite fold_varint_be_bytes by assumption.
    split; [reflexivity|]. split; [exact He1|]. split; [exact Hs1 | exact Hi1].
  - rewrite <- (be_bytes_length k len) at 2.
    rewrite firstn_app, firstn_all, Nat.sub_diag. simpl. rewrite app_nil_r. reflexivity.
Qed.

(** ** A string cut short *)

Lemma append_assoc (a b c : string) : (a ++ b) ++ c = a ++ b ++ c.
Proof. induction a as [|x a IH]; simpl; congruence. Qed.

Lemma append_nil_r (a : string) : a ++ EmptyString = a.
Proof. induction a as [|x a IH]; simpl; congruence. Qed.

Lemma dump_start_spec role s :
  dump_start role s
  = (tt, (fst s,
          mkWorld (pending_of s) (out_of s ++ start_text (indent_of s) role)
            (err_of s))).
Proof.
  destruct s as [c [p o e]].
  unfold dump_start, start_text, bind, dump_indent, printf, ret,
    pending_of, out_of, err_of, indent_of.
  destruct (negb (role =? ROLE_MAP_VALUE)), (0 <=? role); simpl;
    rewrite ?append_assoc, ?append_nil_r; reflexivity.
Qed.

Section Truncated.

Variables (A : abi) (L : libc).
Variables (len : Z) (pl : list byte).
Hypothesis short : Z.of_nat (List.length pl) < len.
Hypothesis granted : malloc_ok L len = true.

Lemma dump_data_short s1 :
  at_payload pl s1 ->
  wp (lift (dump_data A L true len)) s1 (fails_at_eof s1).
Proof.
  intros [He Hs]. unfold lift, dump_data. rewrite granted. simpl negb. cbv iota.
  apply wp_bind, wp_bind.
  eapply wp_conseq; [apply (eread_stream len s1 pl He Hs); lia|].
  intros r s2 (Hi & Ho & Hr & H).
  replace (len <=? Z.of_nat (List.length pl)) with false in H
    by (symmetry; apply Z.leb_gt; exact short).
  destruct H as [-> He2]. apply wp_ret, wp_ret.
  split; [reflexivity|]. split; [exact He2|]. repeat split; assumption.
Qed.

Lemma dump_data_var_short k s1 :
  (k <= 8)%nat -> 0 <= len < 256 ^ Z.of_nat k ->
  eof_of s1 = false ->
  stream (pending_of s1) = Some (be_bytes k len ++ pl)%list ->
  wp (lift (dump_data_var A L true (Z.of_nat k))) s1 (fails_at_eof s1).
Proof.
  intros Hk Hlen He Hs. unfold lift, dump_data_var. apply wp_bind, wp_bind.
  eapply wp_conseq; [apply (read_varuint_stream k len s1 pl Hk Hlen He Hs)|].
  intros r s2 (-> & He2 & Hs2 & Hi2 & Ho2 & Hr2).
  pose proof (dump_data_short s2 (conj He2 Hs2)) as H.
  unfold lift in H. revert H. unfold wp, bind.
  destruct (dump_data A L true len s2) as [b s3]. simpl.
  intros (Hb & He3 & Hi3 & Ho3 & Hr3).
  split; [exact Hb|]. split; [exact He3|]. repeat split; congruence.
Qed.

Section Body.

Variable rec : Z -> M (option bool).
Variables (t : byte) (rest : list byte) (d : decoder).
Hypothesis selected : select (C.byte_val t) = Some d.
Hypothesis call_fails : forall s1,
  eof_of s1 = false -> stream (pending_of s1) = Some rest ->
  wp (call A L rec d) s1 (fails_at_eof s1).

Lemma dump_body_fails role s :
  eof_of s = false -> stream (pending_of s) = Some (t :: rest) ->
  wp (dump_body A L rec role) s (fun r s' =>
    r = Some false /\ eof_of s' = true
    /\ out_of s' = out_of s ++ start_text (indent_of s) role
    /\ err_of s' = err_of s).
Proof.
  intros He Hs. unfold dump_body. apply wp_bind.
  eapply wp_conseq; [apply (eread_stream 1 s _ He Hs); lia|].
  intros r s1 (Hi & Ho & Hr & H).
  replace (1 <=? Z.of_nat (List.length (t :: rest))) with true in H
    by (symmetry; apply Z.leb_le; simpl; lia).
  change (firstn (Z.to_nat 1) (t :: rest)) with [t] in H.
  destruct H as (-> & He1 & Hs1). simpl in Hs1. cbn [hd].
  apply wp_bind. unfold wp at 1. rewrite dump_start_spec. cbn [fst snd].
  rewrite selected. apply wp_bind.
  eapply wp_conseq; [apply call_fails; [exact He1 | exact Hs1]|].
  intros r s3 (-> & He3 & Hi3 & Ho3 & Hr3). apply wp_ret.
  split; [reflexivity|]. split; [exact He3|].
  unfold out_of, err_of, indent_of in *. simpl in *. split; congruence.
Qed.

End Body.

(** [dump] on a stream that holds the header of a string of [len]
    bytes and then only the shorter [pl]. *)
Lemma dump_truncated_string hdr depth role s :
  In hdr (str_headers len) ->
  eof_of s = false -> stream (pending_of s) = Some (hdr ++ pl)%list ->
  wp (dump A L (S depth) role) s (fun r s' =>
    r = Some false /\ eof_of s' = true
    /\ out_of s' = out_of s ++ start_text (indent_of s) role
    /\ err_of s' = err_of s).
Proof.
  intros Hin He Hs.
  assert (Hpos : 0 <= len) by lia.
  unfold str_headers in Hin.
  repeat (apply in_app_or in Hin; destruct Hin as [Hin|Hin]).
  - destruct (len <? 32) eqn:E; [|contradiction]. apply Z.ltb_lt in E.
    destruct Hin as [<-|[]]. cbn [dump].
    apply dump_body_fails
      with (t := C.byte_of (0xa0 + len)) (d := DumpData true len) (rest := pl);
      try assumption.
    + rewrite byte_val_byte_of by lia.
      assert (Hn : len = Z.of_nat (Z.to_nat len)) by lia.
      rewrite Hn. assert (Hb : (Z.to_nat len < 32)%nat) by lia.
      clear -Hb. generalize dependent (Z.to_nat len). intros n Hb.
      do 32 (destruct n as [|n]; [reflexivity|]). lia.
    + intros s1 He1 Hs1. apply dump_data_short. split; assumption.
  - destruct (len <? 2 ^ 8) eqn:E; [|contradiction]. apply Z.ltb_lt in E.
    destruct Hin as [<-|[]]. cbn [dump].
    apply dump_body_fails
      with (t := xd9) (d := DumpDataVar true 1) (rest := (be_bytes 1 len ++ pl)%list);
      try assumption; [reflexivity|].
    intros s1 He1 Hs1. apply (dump_data_var_short 1%nat); try assumption; lia.
  - destruct (len <? 2 ^ 16) eqn:E; [|contradiction]. apply Z.ltb_lt in E.
    destruct Hin as [<-|[]]. cbn [dump].
    apply dump_body_fails
      with (t := xda) (d := DumpDataVar true 2) (rest := (be_bytes 2 len ++ pl)%list);
      try assumption; [reflexivity|].
    intros s1 He1 Hs1. apply (dump_data_var_short 2%nat); try assumption; lia.
  - destruct (len <? 2 ^ 32) eqn:E; [|contradiction]. apply Z.ltb_lt in E.
    destruct Hin as [<-|[]]. cbn [dump].
    apply dump_body_fails
      with (t := xdb) (d := DumpDataVar true 4) (rest := (be_bytes 4 len ++ pl)%list);
      try assumption; [reflexivity|].
    intros s1 He1 Hs1. apply (dump_data_var_short 4%nat); try assumption; lia.
Qed.

(** The same string as the first element of arrays nested [k] deep: the
    failure comes up through every enclosing [dump_array]. *)
Lemma dump_nested_truncated_string hdr k : forall depth role s,
  In hdr (str_headers len) ->
  eof_of s = false ->
  stream (pending_of s) = Some (repeat x91 k ++ hdr ++ pl)%list ->
  wp (dump A L (S (k + depth)) role) s (fun r s' =>
    r = Some false /\ eof_of s' = true /\ err_of s' = err_of s).
Proof.
  induction k as [|k IH]; intros depth role s Hin He Hs.
  - eapply wp_conseq; [apply (dump_truncated_string hdr depth role s Hin He Hs)|].
    intros r s' (H1 & H2 & _ & H4). auto.
  - cbn [repeat app] in Hs. cbn [Nat.add dump]. unfold dump_body.
    apply wp_bind.
    eapply wp_conseq; [apply (eread_stream 1 s _ He Hs); lia|].
    intros r s1 (Hi & Ho & Hr & H).
    match type of H with
    | if ?c then _ else _ =>
        replace c with true in H by (symmetry; apply Z.leb_le; simpl; lia)
    end.
    change (firstn (Z.to_nat 1) (x91 :: ?l)) with [x91] in H.
    destruct H as (-> & He1 & Hs1). simpl in Hs1. cbn [hd].
    apply wp_bind. unfold wp at 1. rewrite dump_start_spec. cbn [fst snd].
    change (select (C.byte_val x91)) with (Some (DumpArray 1)). cbn [call].
    apply wp_bind. unfold dump_array.
    apply wp_bind, wp_printf. apply wp_bind, wp_incr_indent. apply wp_bind.
    change (Z.to_nat 1) with 1%nat. cbn [dump_array_loop]. apply wp_bind.
    eapply wp_conseq; [apply (IH depth); [exact Hin | exact He1 | exact Hs1]|].
    intros r s3 (-> & He3 & Hr3).
    apply wp_ret, wp_ret, wp_ret.
    split; [reflexivity|]. split; [exact He3|].
    unfold err_of in *. simpl in *. congruence.
Qed.

End Truncated.

(** ** Runs on concrete streams *)

Section Runs.

Variables (A : abi) (L : libc) (fd : Z).

(** The spec's examples of clean runs: an empty stream, two top-level
    values, and a map inside an array. *)
Example run_empty :
  run_fd A L fd (file []) = mkResult (Some 0) EmptyString EmptyString.
Proof. reflexivity. Qed.

Example run_two_fixints :
  run_fd A L fd (file [x01; x02])
  = mkResult (Some 0) ("1" ++ Fmt.nl ++ "2" ++ Fmt.nl) EmptyString.
Proof. reflexivity. Qed.

Example run_nested :
  run_fd A symbolic_libc fd (file [x92; x81; xa1; x61; x01; xc3])
  = mkResult (Some 0)
      ("[" ++ Fmt.nl
       ++ "   [0]: {" ++ Fmt.nl
       ++ "      " ++ Fmt.dquote ++ "a" ++ Fmt.dquote ++ ": 1" ++ Fmt.nl
       ++ "   }" ++ Fmt.nl
       ++ "   [1]: true" ++ Fmt.nl
       ++ "]" ++ Fmt.nl)
      EmptyString.
Proof. vm_compute. reflexivity. Qed.

End Runs.

(** C1 (the code departs from the claim).  Under the int16 tag the
    payload 0x80 0x00 is printed as 32768, not -32768: [read_varint]
    looks at the last byte read (the lowest-order one) to decide the
    sign, and shifts the mask by [lenlen] bits, not by [8 * lenlen].
    Under the int8 tag 0xFF does print -1, but 0x80 prints -2; under the
    int64 tag the value 128 prints as -128. *)
Theorem int16_min_printed_unsigned : forall A L d,
  run_fd A L d (file [xd1; x80; x00])
    = mkResult (Some 0) ("32768" ++ Fmt.nl) EmptyString
  /\ run_fd A L d (file [xd0; xff])
    = mkResult (Some 0) ("-1" ++ Fmt.nl) EmptyString
  /\ run_fd A L d (file [xd0; x80])
    = mkResult (Some 0) ("-2" ++ Fmt.nl) EmptyString
  /\ run_fd A L d (file [xd3; x00; x00; x00; x00; x00; x00; x00; x80])
    = mkResult (Some 0) ("-128" ++ Fmt.nl) EmptyString.
Proof. intros A L d. repeat split; vm_compute; reflexivity. Qed.

(** C2 (the code departs from the claim).  A stream that ends where the
    second element of a two-element array should start is decoded with
    success: the closing bracket is printed and the exit status is 0.
    The same holds for a map whose value is missing.  [dump] answers
    [ctx->eof] when it cannot read a tag byte, whatever its role. *)
Theorem eof_inside_container_exits_0 : forall A d,
  (forall L,
     run_fd A L d (file [x92; x01])
     = mkResult (Some 0)
         ("[" ++ Fmt.nl ++ "   [0]: 1" ++ Fmt.nl ++ "]" ++ Fmt.nl) EmptyString)
  /\ run_fd A symbolic_libc d (file [x81; xa1; x61])
     = mkResult (Some 0)
         ("{" ++ Fmt.nl ++ "   " ++ Fmt.dquote ++ "a" ++ Fmt.dquote ++ ": }" ++ Fmt.nl)
         EmptyString
  /\ (forall L depth role c o e,
        eof c = false ->
        dump A L (S depth) role (c, mkWorld [] o e)
        = (Some true, (mkCtx (fd c) (offset c) (indent c) true, mkWorld [] o e))).
Proof.
  intros A d. split; [|split].
  - intros L. vm_compute. reflexivity.
  - vm_compute. reflexivity.
  - intros L depth role [f o i b] out0 err0 H. simpl in H. subst b.
    reflexivity.
Qed.

(** C3 (the code departs from the claim).  [dump_ext] drops the result of
    [dump_data]: when the payload of an extension value cannot be read
    (end of stream, or a failing [read]) or its buffer cannot be
    allocated, [dump] still answers [true] and the run goes on; the three
    runs below end with exit status 0. *)
Theorem ext_payload_failure_exits_0 : forall A d,
  run_fd A symbolic_libc d (file [xd4; x01])
    = mkResult (Some 0) ("Type1:" ++ Fmt.nl) EmptyString
  /\ run_fd A symbolic_libc d [Data [xd4; x01]; Fault "Input/output error"]
    = mkResult (Some 0) ("Type1:" ++ Fmt.nl)
        ("Cannot read 1 bytes: Input/output error" ++ Fmt.nl)
  /\ (forall g32 g64,
        run_fd A (mkLibc (fun _ => false) g32 g64) d (file [xd4; x01; x02])
        = mkResult (Some 0) ("Type1:" ++ Fmt.nl ++ "2" ++ Fmt.nl)
            "Cannot alloc 1 bytes").
Proof.
  intros A d. split; [|split]; try intros g32 g64; vm_compute; reflexivity.
Qed.

(** C4 (the code departs from the claim).  A tag byte in 0xe0..0xff is
    handed to [dump_int] as the [unsigned char] it is, so the number
    printed is the byte's unsigned value, 224 to 255: 0xff prints 255,
    not -1, and 0xe0 prints 224, not -32.  No further byte is consumed. *)
Theorem negative_fixint_printed_unsigned : forall A L d,
  run_fd A L d (file [xff]) = mkResult (Some 0) ("255" ++ Fmt.nl) EmptyString
  /\ run_fd A L d (file [xe0]) = mkResult (Some 0) ("224" ++ Fmt.nl) EmptyString
  /\ run_fd A L d (file [xff; x01])
     = mkResult (Some 0) ("255" ++ Fmt.nl ++ "1" ++ Fmt.nl) EmptyString
  /\ (forall b, 0xe0 <= C.byte_val b ->
        select (C.byte_val b) = Some (DumpInt (C.byte_val b))).
Proof.
  intros A L d. repeat split; try (vm_compute; reflexivity).
  intros b H. destruct b; vm_compute in H; try (exfalso; apply H; reflexivity);
    reflexivity.
Qed.

(** C5 (the code departs from the claim).  [dump_float32] and
    [dump_float64] read the payload straight into the storage of the
    floating object, with no byte swap.  On a little-endian host the
    object's bit pattern is then the payload read least significant byte
    first: the wire bytes 3f 80 00 00 (1.0 in big-endian order) are
    printed as the value with bits 0x0000803f, not 0x3f800000. *)
Theorem float_payload_not_swapped : forall L d,
  run_fd x86_64 L d (file [xca; x3f; x80; x00; x00])
    = mkResult (Some 0) (fmt_g_float L 0x0000803f ++ Fmt.nl) EmptyString
  /\ be_value [x3f; x80; x00; x00] = 0x3f800000
  /\ run_fd x86_64 L d (file [xcb; x3f; xf0; x00; x00; x00; x00; x00; x00])
    = mkResult (Some 0) (fmt_g_double L 0x000000000000f03f ++ Fmt.nl) EmptyString
  /\ be_value [x3f; xf0; x00; x00; x00; x00; x00; x00] = 0x3ff0000000000000.
Proof.
  intros L d. repeat split; vm_compute; reflexivity.
Qed.

(** C6 (the code departs from the claim).  The blob is printed from a
    buffer of plain [char] with [%02x].  Where [char] is signed, a
    payload byte in 0x80..0xff is promoted to a negative [int] and
    printed as eight hexadecimal digits: the one-byte blob ff prints as
    ffffffff.  (Where [char] is unsigned it prints as ff.) *)
Theorem blob_high_byte_printed_wide : forall d,
  run_fd x86_64 symbolic_libc d (file [xc4; x01; xff])
    = mkResult (Some 0) ("ffffffff" ++ Fmt.nl) EmptyString
  /\ run_fd x86_64 symbolic_libc d (file [xc4; x03; x01; x7f; x80])
    = mkResult (Some 0) ("01 7f ffffff80" ++ Fmt.nl) EmptyString
  /\ run_fd (mkAbi false true) symbolic_libc d (file [xc4; x01; xff])
    = mkResult (Some 0) ("ff" ++ Fmt.nl) EmptyString.
Proof.
  intros d. repeat split; vm_compute; reflexivity.
Qed.

(** C7 (the code departs from the claim).  The string is printed with
    [%.*s], which stops at the first zero byte: the three-byte string
    61 00 62 is printed as the one character a between quotes.  (Control
    characters other than the zero byte are printed as they are.) *)
Theorem string_cut_at_zero_byte : forall A d,
  run_fd A symbolic_libc d (file [xa3; x61; x00; x62])
    = mkResult (Some 0) (Fmt.dquote ++ "a" ++ Fmt.dquote ++ Fmt.nl) EmptyString
  /\ run_fd A symbolic_libc d (file [xa3; x61; x0a; x62])
    = mkResult (Some 0)
        (Fmt.dquote ++ "a" ++ Fmt.nl ++ "b" ++ Fmt.dquote ++ Fmt.nl) EmptyString.
Proof.
  intros A d. split; vm_compute; reflexivity.
Qed.

(** C8.  A stream that holds the header of a string of [len] bytes and
    then fewer than [len] bytes before it ends: whatever its role,
    [dump] answers [false] with the end-of-stream flag set, having
    printed the indentation and label of the value and nothing of the
    string; the loop of [main] then leaves with [exit(1)]; a run on such
    a stream ends with status 1 and an empty standard output; and so
    does a run in which the string is the first element of arrays nested
    to any depth.
    (Nothing is written to standard error either: the failure is
    reported by the answer and the exit status.) *)
Theorem truncated_string_exits_1 :
  forall (A : abi) (L : libc) (len : Z) (hdr pl : list byte),
  In hdr (str_headers len) ->
  Z.of_nat (List.length pl) < len ->
  malloc_ok L len = true ->
  (forall s depth role,
     eof_of s = false -> stream (pending_of s) = Some (hdr ++ pl)%list ->
     exists s',
       dump A L (S depth) role s = (Some false, s')
       /\ eof_of s' = true
       /\ out_of s' = out_of s ++ start_text (indent_of s) role
       /\ err_of s' = err_of s)
  /\ (forall s iters depth,
        eof_of s = false -> stream (pending_of s) = Some (hdr ++ pl)%list ->
        fst (main_loop A L (S iters) (S depth) s) = Some 1)
  /\ (forall d inp,
        stream inp = Some (hdr ++ pl)%list ->
        run_fd A L d inp = mkResult (Some 1) EmptyString EmptyString)
  /\ (forall k d inp,
        stream inp = Some (repeat x91 k ++ hdr ++ pl)%list ->
        status (run_fd A L d inp) = Some 1
        /\ stderr (run_fd A L d inp) = EmptyString).
Proof.
  intros A L len hdr pl Hin Hshort Hgrant.
  assert (Hdump : forall s depth role,
     eof_of s = false -> stream (pending_of s) = Some (hdr ++ pl)%list ->
     exists s',
       dump A L (S depth) role s = (Some false, s')
       /\ eof_of s' = true
       /\ out_of s' = out_of s ++ start_text (indent_of s) role
       /\ err_of s' = err_of s).
  { intros s depth role He Hs.
    pose proof (dump_truncated_string A L len pl Hshort Hgrant hdr depth role s
                  Hin He Hs) as H.
    unfold wp in H. destruct (dump A L (S depth) role s) as [r s'].
    simpl in H. destruct H as (-> & H). exists s'. split; [reflexivity | exact H]. }
  split; [exact Hdump|]. split; [|split].
  - intros s iters depth He Hs.
    destruct (Hdump s depth ROLE_NONE He Hs) as (s' & Hd & _).
    cbn [main_loop]. unfold eof_of in He. rewrite He, Hd. reflexivity.
  - intros d inp Hs. unfold run_fd.
    destruct (Hdump (ctx_ctor d, mkWorld inp EmptyString EmptyString)
                (weight inp) ROLE_NONE eq_refl Hs) as (s' & Hd & _ & Ho & Hr).
    cbn [main_loop]. cbn [fst eof ctx_ctor]. rewrite Hd.
    unfold result_of. cbn [fst snd]. unfold out_of, err_of in Ho, Hr.
    rewrite Ho, Hr. reflexivity.
  - intros k d inp Hs.
    pose proof (stream_weight inp _ Hs) as Hw.
    rewrite length_app, repeat_length in Hw.
    assert (E : exists s',
               main_loop A L (S (weight inp)) (S (weight inp))
                 (ctx_ctor d, mkWorld inp EmptyString EmptyString)
               = (Some 1, s')
               /\ err_of s' = EmptyString).
    { replace (main_loop A L (S (weight inp)) (S (weight inp)))
        with (main_loop A L (S (weight inp)) (S (k + (weight inp - k))))
        by (f_equal; lia).
      pose proof (dump_nested_truncated_string A L len pl Hshort Hgrant hdr k
                    (weight inp - k) ROLE_NONE
                    (ctx_ctor d, mkWorld inp EmptyString EmptyString)
                    Hin eq_refl Hs) as H.
      unfold wp in H. cbn [main_loop]. cbn [fst eof ctx_ctor].
      destruct (dump A L (S (k + (weight inp - k))) ROLE_NONE
                  (ctx_ctor d, mkWorld inp EmptyString EmptyString)) as [r s'].
      simpl in H. destruct H as (-> & _ & Hr).
      exists s'. split; [reflexivity | exact Hr]. }
    destruct E as (s' & E & Hr). unfold run_fd. rewrite E.
    split; [reflexivity | exact Hr].
Qed.

(** The spec's example: the tag declares 4 bytes, 2 follow. *)
Lemma truncated_string_exits_1_witness :
  run_fd x86_64 symbolic_libc 3 [Data [xa4; x61]; Data [x62]]
  = mkResult (Some 1) EmptyString EmptyString.
Proof.
  apply (proj1 (proj2 (proj2 (truncated_string_exits_1 x86_64 symbolic_libc 4
                                [xa4] [x61; x62]
                                ltac:(simpl; auto) ltac:(simpl; lia) eq_refl)))).
  reflexivity.
Defined.

(** C9.  Of the 256 tag bytes, 0xc1 alone reaches the final [else] of
    [dump] (the "Bad tag" branch); for every other tag byte exactly one
    test of the chain holds, and [dump] makes the call of that row; so
    255 byte values are recognized.  A run on the byte 0xc1 prints the
    error and ends with status 1. *)
Theorem only_c1_is_a_bad_tag :
  (forall b : byte, select (C.byte_val b) = None <-> b = xc1)
  /\ (forall b : byte, b <> xc1 ->
        exists d, matching (C.byte_val b) = [d] /\ select (C.byte_val b) = Some d)
  /\ matching (C.byte_val xc1) = []
  /\ List.length (filter recognized (map Z.of_nat (seq 0 256))) = 255%nat
  /\ (forall A L d,
        run_fd A L d (file [xc1])
        = mkResult (Some 1) EmptyString ("Bad tag c1" ++ Fmt.nl)).
Proof.
  split; [|split; [|split; [|split]]].
  - intros b. split.
    + destruct b; vm_compute; intros H; try discriminate H; reflexivity.
    + intros ->. reflexivity.
  - intros b Hb.
    destruct b; try (exfalso; apply Hb; reflexivity);
      eexists; split; vm_compute; reflexivity.
  - reflexivity.
  - vm_compute. reflexivity.
  - intros A L d. vm_compute. reflexivity.
Qed.

(** C10.  A call of [dump] that answers [true] leaves the indent level
    as it found it, whatever the depth of the value; so do [dump_array]
    and [dump_map], which raise the level by one around their elements
    and lower it again before they answer [true]. *)
Theorem dump_keeps_indent :
  forall (A : abi) (L : libc) (s : state),
  0 <= indent_of s < 2 ^ 32 ->
  (forall depth role s',
     dump A L depth role s = (Some true, s') -> indent_of s' = indent_of s)
  /\ (forall depth nb_objs s',
        dump_array (dump A L depth) nb_objs s = (Some true, s') ->
        indent_of s' = indent_of s)
  /\ (forall depth nb_objs s',
        dump_map (dump A L depth) nb_objs s = (Some true, s') ->
        indent_of s' = indent_of s).
Proof.
  intros A L s Hs. split; [|split].
  - intros depth role s' H.
    exact (wp_run _ _ _ _ _ (dump_balanced A L depth role s Hs) H eq_refl).
  - intros depth nb_objs s' H.
    exact (wp_run _ _ _ _ _
             (dump_array_balanced _ (dump_balanced A L depth) nb_objs s Hs) H eq_refl).
  - intros depth nb_objs s' H.
    exact (wp_run _ _ _ _ _
             (dump_map_balanced _ (dump_balanced A L depth) nb_objs s Hs) H eq_refl).
Qed.

(** An array holding a one-pair map and [true]: the level is 0 again
    once [dump] has answered. *)
Lemma dump_keeps_indent_witness :
  indent_of
    (snd (dump x86_64 symbolic_libc 3 ROLE_NONE
            (ctx_ctor 3,
             mkWorld (file [x92; x81; xa1; x61; x01; xc3])
               EmptyString EmptyString)))
  = 0.
Proof.
  refine (proj1 (dump_keeps_indent x86_64 symbolic_libc
                   (ctx_ctor 3,
                    mkWorld (file [x92; x81; xa1; x61; x01; xc3])
                      EmptyString EmptyString)
                   _) 3%nat ROLE_NONE _ _).
  - unfold indent_of. simpl. lia.
  - vm_compute. reflexivity.
Defined.

(** Every run ends, with status 0 or 1. *)
Theorem run_fd_status : forall A L d inp,
  status (run_fd A L d inp) = Some 0 \/ status (run_fd A L d inp) = Some 1.
Proof. exact run_fd_status_ok. Qed.

(** * Further properties *)

(** ** Relations the whole decoder keeps

    A preorder on states that the three primitives and the two updates of
    the indent level keep is kept by [dump] at every depth and by the
    loop of [main]. *)
Section Invariant.

Variables (A : abi) (L : libc).
Variable R : state -> state -> Prop.
Hypothesis R_refl : forall s, R s s.
Hypothesis R_trans : forall s1 s2 s3, R s1 s2 -> R s2 s3 -> R s1 s3.
Hypothesis R_printf : forall str, keeps R (printf str).
Hypothesis R_eprintf : forall str, keeps R (eprintf str).
Hypothesis R_eread : forall sz, keeps R (eread sz).
Hypothesis R_incr : keeps R incr_indent.
Hypothesis R_decr : keeps R decr_indent.

Section InvariantLoops.

Variable rec : Z -> M (option bool).
Hypothesis rec_keeps : forall role, keeps R (rec role).

Lemma keeps_dump_array_loop count : forall n, keeps R (dump_array_loop rec count n).
Proof.
  induction count as [|count IH]; intros n; cbn [dump_array_loop];
    frame (@keeps_ret R R_refl) (@keeps_bind R R_trans)
      R_printf R_eprintf R_eread;
    first [apply rec_keeps | apply IH].
Qed.

Lemma keeps_dump_map_loop count : keeps R (dump_map_loop rec count).
Proof.
  induction count as [|count IH]; cbn [dump_map_loop];
    frame (@keeps_ret R R_refl) (@keeps_bind R R_trans)
      R_printf R_eprintf R_eread;
    first [apply rec_keeps | apply IH].
Qed.

Lemma keeps_container (opening closing : string) (loop : M (option bool)) :
  keeps R loop ->
  keeps R
    (printf opening ;;; incr_indent ;;;
     r <- loop ;;
     match r with
     | Some true =>
         decr_indent ;;; dump_indent ;;; printf closing ;;; ret (Some true)
     | other => ret other
     end).
Proof.
  intros Hloop.
  frame (@keeps_ret R R_refl) (@keeps_bind R R_trans)
    R_printf R_eprintf R_eread;
    first [ exact Hloop | exact R_incr | exact R_decr
          | apply (keeps_dump_indent R R_printf) ].
Qed.

Lemma keeps_after_read_varuint lenlen (k : Z -> M (option bool)) :
  (forall len, keeps R (k len)) ->
  keeps R (r <- read_varuint lenlen ;;
           match r with None => ret (Some false) | Some len => k len end).
Proof.
  intros Hk.
  frame (@keeps_ret R R_refl) (@keeps_bind R R_trans)
    R_printf R_eprintf R_eread;
    first [ apply (keeps_read_varint R R_refl R_trans R_eread) | apply Hk ].
Qed.

Lemma keeps_call d : keeps R (call A L rec d).
Proof.
  destruct (scalar d) eqn:E.
  - apply (keeps_call_scalar A L R R_refl R_trans R_printf R_eprintf R_eread), E.
  - destruct d; try discriminate; cbn [call].
    + apply keeps_container, keeps_dump_array_loop.
    + apply keeps_after_read_varuint. intros.
      apply keeps_container, keeps_dump_array_loop.
    + apply keeps_container, keeps_dump_map_loop.
    + apply keeps_after_read_varuint. intros.
      apply keeps_container, keeps_dump_map_loop.
Qed.

Lemma keeps_dump_body role : keeps R (dump_body A L rec role).
Proof.
  unfold dump_body.
  frame (@keeps_ret R R_refl) (@keeps_bind R R_trans)
    R_printf R_eprintf R_eread;
    first [ apply (keeps_dump_start R R_refl R_trans R_printf)
          | apply (keeps_dump_stop R R_printf)
          | apply keeps_call
          | intros s; apply R_refl ].
Qed.

End InvariantLoops.

Lemma keeps_dump depth : forall role, keeps R (dump A L depth role).
Proof.
  induction depth as [|depth IH]; intros role.
  - apply (keeps_ret R R_refl).
  - apply keeps_dump_body, IH.
Qed.

Lemma keeps_main_loop depth iters : keeps R (main_loop A L iters depth).
Proof.
  induction iters as [|iters IH]; intros s; unfold wp; cbn [main_loop];
    destruct (eof (fst s)); try apply R_refl.
  pose proof (keeps_dump depth ROLE_NONE s) as H. unfold wp in H.
  destruct (dump A L depth ROLE_NONE s) as [[[|]|] s1]; simpl in H |- *;
    try exact H.
  eapply R_trans; [exact H | apply IH].
Qed.

End Invariant.

(** ** The end-of-stream flag is never cleared *)

Lemma eof_sticky_refl s : eof_sticky s s.
Proof. exact (fun H => H). Qed.

Lemma eof_sticky_trans s1 s2 s3 :
  eof_sticky s1 s2 -> eof_sticky s2 s3 -> eof_sticky s1 s3.
Proof. unfold eof_sticky. auto. Qed.

Lemma printf_eof_sticky str : keeps eof_sticky (printf str).
Proof. intros [c w]. exact (fun H => H). Qed.

Lemma eprintf_eof_sticky str : keeps eof_sticky (eprintf str).
Proof. intros [c w]. exact (fun H => H). Qed.

Lemma incr_indent_eof_sticky : keeps eof_sticky incr_indent.
Proof. intros [c w]. exact (fun H => H). Qed.

Lemma decr_indent_eof_sticky : keeps eof_sticky decr_indent.
Proof. intros [c w]. exact (fun H => H). Qed.

Lemma eread_eof_sticky sz : keeps eof_sticky (eread sz).
Proof.
  intros [c w]. unfold wp, eof_sticky, eof_of, eread. simpl.
  destruct (eof c) eqn:E; [intros _; exact E | discriminate].
Qed.

(** X1.  Once [ctx->eof] is set, no call of [dump] and no iteration of the
    loop of [main] clears it. *)
Theorem eof_never_cleared : forall A L depth iters role s,
  eof_of s = true ->
  eof_of (snd (dump A L depth role s)) = true
  /\ eof_of (snd (main_loop A L iters depth s)) = true.
Proof.
  intros A L depth iters role s H. split.
  - exact (keeps_dump A L eof_sticky eof_sticky_refl eof_sticky_trans
             printf_eof_sticky eprintf_eof_sticky eread_eof_sticky
             incr_indent_eof_sticky decr_indent_eof_sticky depth role s H).
  - exact (keeps_main_loop A L eof_sticky eof_sticky_refl eof_sticky_trans
             printf_eof_sticky eprintf_eof_sticky eread_eof_sticky
             incr_indent_eof_sticky decr_indent_eof_sticky depth iters s H).
Qed.

(** ** The offset counts the bytes taken *)

Lemma u64_add_l a b : C.u64 (C.u64 a + b) = C.u64 (a + b).
Proof. unfold C.u64. apply Zplus_mod_idemp_l. Qed.

Lemma advanced_refl s : advanced s s.
Proof. unfold advanced. split; [lia | f_equal; lia]. Qed.

Lemma advanced_trans s1 s2 s3 :
  advanced s1 s2 -> advanced s2 s3 -> advanced s1 s3.
Proof.
  unfold advanced. intros [H1 E1] [H2 E2]. split; [lia|].
  rewrite E2, <- u64_add_l, E1, u64_add_l. f_equal. lia.
Qed.

Lemma printf_advanced str : keeps advanced (printf str).
Proof. intros [c w]. apply (advanced_refl (c, w)). Qed.

Lemma eprintf_advanced str : keeps advanced (eprintf str).
Proof. intros [c w]. apply (advanced_refl (c, w)). Qed.

Lemma incr_indent_advanced : keeps advanced incr_indent.
Proof. intros [c w]. apply (advanced_refl (c, w)). Qed.

Lemma decr_indent_advanced : keeps advanced decr_indent.
Proof. intros [c w]. apply (advanced_refl (c, w)). Qed.

Lemma bytes_left_nonneg inp : 0 <= bytes_left inp.
Proof. induction inp as [|[bs|why] rest IH]; simpl; lia. Qed.

Lemma eread_loop_advanced : forall inp sz done off buf e buf' inp' off',
  eread_loop inp sz done off buf = (e, buf', inp', off') ->
  bytes_left inp' <= bytes_left inp
  /\ C.u64 off' = C.u64 (off + (bytes_left inp - bytes_left inp')).
Proof.
  induction inp as [|[bs|why] rest IH]; intros sz done off buf e buf' inp' off';
    cbn [eread_loop]; destruct (sz <=? done) eqn:E;
    try (intros H; injection H as <- <- <- <-; simpl; split; [lia | f_equal; lia]).
  apply Z.leb_gt in E.
  destruct (Z.of_nat (List.length bs) =? 0) eqn:E0.
  - apply Z.eqb_eq in E0. intros H; injection H as <- <- <- <-.
    simpl. split; [lia | f_equal; lia].
  - apply Z.eqb_neq in E0.
    destruct (Z.of_nat (List.length bs) <=? sz - done) eqn:E1.
    + intros H. apply IH in H. destruct H as [H1 H2]. simpl. split; [lia|].
      rewrite H2, u64_add_l. f_equal. lia.
    + apply Z.leb_gt in E1. intros H; injection H as <- <- <- <-.
      simpl. rewrite length_skipn. split; [lia|].
      unfold C.u64. rewrite Zmod_mod. f_equal. lia.
Qed.

Lemma eread_advanced sz : keeps advanced (eread sz).
Proof.
  intros [c w]. unfold wp, eread.
  destruct (eof c); [apply (advanced_refl (c, w))|].
  destruct (eread_loop (pending w) sz 0 (offset c) []) as [[[e buf] inp] off] eqn:E.
  apply eread_loop_advanced in E.
  destruct e; exact E.
Qed.

(** X2.  [dump] and the loop of [main] only take bytes from the
    descriptor, and [ctx->offset] moves by the number of bytes taken,
    modulo [2^64], whether the call succeeds or fails. *)
Theorem offset_counts_bytes_taken : forall A L depth iters role s,
  advanced s (snd (dump A L depth role s))
  /\ advanced s (snd (main_loop A L iters depth s)).
Proof.
  intros A L depth iters role s. split.
  - exact (keeps_dump A L advanced advanced_refl advanced_trans
             printf_advanced eprintf_advanced eread_advanced
             incr_indent_advanced decr_indent_advanced depth role s).
  - exact (keeps_main_loop A L advanced advanced_refl advanced_trans
             printf_advanced eprintf_advanced eread_advanced
             incr_indent_advanced decr_indent_advanced depth iters s).
Qed.

(** ** Output is only appended *)

Lemma append_only_refl s : append_only s s.
Proof.
  split; exists EmptyString; symmetry; apply append_nil_r.
Qed.

Lemma append_only_trans s1 s2 s3 :
  append_only s1 s2 -> append_only s2 s3 -> append_only s1 s3.
Proof.
  intros [[t1 H1] [e1 G1]] [[t2 H2] [e2 G2]]. split.
  - exists (t1 ++ t2). rewrite H2, H1. apply append_assoc.
  - exists (e1 ++ e2). rewrite G2, G1. apply append_assoc.
Qed.

Lemma printf_append_only str : keeps append_only (printf str).
Proof.
  intros [c w]. split; [exists str; reflexivity|].
  exists EmptyString. symmetry. apply append_nil_r.
Qed.

Lemma eprintf_append_only str : keeps append_only (eprintf str).
Proof.
  intros [c w]. split; [|exists str; reflexivity].
  exists EmptyString. symmetry. apply append_nil_r.
Qed.

Lemma incr_indent_append_only : keeps append_only incr_indent.
Proof. intros [c w]. apply (append_only_refl (c, w)). Qed.

Lemma decr_indent_append_only : keeps append_only decr_indent.
Proof. intros [c w]. apply (append_only_refl (c, w)). Qed.

Lemma eread_append_only sz : keeps append_only (eread sz).
Proof.
  intros [c w]. unfold wp, eread.
  destruct (eof c); [apply (append_only_refl (c, w))|].
  destruct (eread_loop (pending w) sz 0 (offset c) []) as [[[e buf] inp] off].
  destruct e; try apply (append_only_refl (c, w)).
  split; [exists EmptyString; symmetry; apply append_nil_r|].
  eexists. reflexivity.
Qed.

(** X3.  What was printed stays printed: after any call of [dump], and
    after the loop of [main], standard output and standard error start
    with what they held before, also when the call fails. *)
Theorem output_only_appended : forall A L depth iters role s,
  (exists t e,
     out_of (snd (dump A L depth role s)) = out_of s ++ t
     /\ err_of (snd (dump A L depth role s)) = err_of s ++ e)
  /\ (exists t e,
        out_of (snd (main_loop A L iters depth s)) = out_of s ++ t
        /\ err_of (snd (main_loop A L iters depth s)) = err_of s ++ e).
Proof.
  intros A L depth iters role s. split.
  - destruct (keeps_dump A L append_only append_only_refl append_only_trans
                printf_append_only eprintf_append_only eread_append_only
                incr_indent_append_only decr_indent_append_only depth role s)
      as [[t Ht] [e He]].
    exists t, e. split; assumption.
  - destruct (keeps_main_loop A L append_only append_only_refl append_only_trans
                printf_append_only eprintf_append_only eread_append_only
                incr_indent_append_only decr_indent_append_only depth iters s)
      as [[t Ht] [e He]].
    exists t, e. split; assumption.
Qed.

(** ** Values decoded from a well-behaved stream *)

Lemma dump_stop_spec role s :
  dump_stop role s
  = (tt, (fst s,
          mkWorld (pending_of s) (out_of s ++ stop_text role) (err_of s))).
Proof.
  destruct s as [c [p o e]]. unfold dump_stop, stop_text.
  destruct (role =? ROLE_MAP_KEY); reflexivity.
Qed.

Lemma decoded_run {X} (m : M X) s (x : X) text rest :
  wp m s (fun r s' => r = x /\ decoded s s' text rest) ->
  exists s', m s = (x, s') /\ decoded s s' text rest.
Proof.
  unfold wp. destruct (m s) as [r s']. simpl. intros [-> H].
  exists s'. split; [reflexivity | exact H].
Qed.

Section Value.

Variables (A : abi) (L : libc).
Variable rec : Z -> M (option bool).
Variables (t : byte) (rest rest' : list byte) (d : decoder) (body : string).
Hypothesis selected : select (C.byte_val t) = Some d.
Hypothesis call_decodes : forall s1,
  eof_of s1 = false -> stream (pending_of s1) = Some rest ->
  wp (call A L rec d) s1 (fun r s' => r = Some true /\ decoded s1 s' body rest').

(** The body of [dump] around a call that decodes: the tag byte is read,
    the value is printed between what [dump_start] and [dump_stop]
    print. *)
Lemma dump_body_value role s :
  eof_of s = false -> stream (pending_of s) = Some (t :: rest) ->
  wp (dump_body A L rec role) s (fun r s' =>
    r = Some true
    /\ decoded s s'
         (start_text (indent_of s) role ++ body ++ stop_text role) rest').
Proof.
  intros He Hs. unfold dump_body. apply wp_bind.
  eapply wp_conseq; [apply (eread_stream 1 s _ He Hs); lia|].
  intros r s1 (Hi & Ho & Hr & H).
  replace (1 <=? Z.of_nat (List.length (t :: rest))) with true in H
    by (symmetry; apply Z.leb_le; simpl; lia).
  change (firstn (Z.to_nat 1) (t :: rest)) with [t] in H.
  destruct H as (-> & He1 & Hs1). simpl in Hs1. cbn [hd].
  apply wp_bind. unfold wp at 1. rewrite dump_start_spec. cbn [fst snd].
  rewrite selected. apply wp_bind.
  eapply wp_conseq; [apply call_decodes; [exact He1 | exact Hs1]|].
  intros r s3 (-> & He3 & Hs3 & Hi3 & Ho3 & Hr3).
  apply wp_bind. unfold wp at 1. rewrite dump_stop_spec. cbn [fst snd].
  apply wp_ret. split; [reflexivity|].
  unfold decoded, eof_of, pending_of, indent_of, out_of, err_of in *.
  simpl in *. repeat split; try congruence.
  rewrite Ho3, Ho, Hi, !append_assoc. reflexivity.
Qed.

End Value.

(** ** Values held by the tag byte *)

Lemma select_immediate A L b text :
  immediate_text (C.byte_val b) = Some text ->
  exists d,
    select (C.byte_val b) = Some d
    /\ forall rec s1,
         call A L rec d s1
         = (Some true,
            (fst s1, mkWorld (pending_of s1) (out_of s1 ++ text) (err_of s1))).
Proof.
  intros H.
  destruct b; vm_compute in H; try discriminate H; injection H as <-;
    eexists; (split; [vm_compute; reflexivity
                     | intros rec [c [p o e]]; reflexivity]).
Qed.

Lemma immediate_run A L b text rest depth role s :
  immediate_text (C.byte_val b) = Some text ->
  eof_of s = false -> stream (pending_of s) = Some (b :: rest) ->
  exists s',
    dump A L (S depth) role s = (Some true, s')
    /\ decoded s s' (start_text (indent_of s) role ++ text ++ stop_text role) rest.
Proof.
  intros Ht He Hs.
  destruct (select_immediate A L b text Ht) as (d & Hsel & Hcall).
  apply decoded_run. cbn [dump].
  apply (dump_body_value A L (dump A L depth) b rest rest d text Hsel);
    [|exact He | exact Hs].
  intros s1 He1 Hs1. unfold wp. rewrite Hcall. cbn [fst snd].
  split; [reflexivity|]. unfold decoded. repeat split; assumption.
Qed.

Lemma immediate_decodes A L b text :
  immediate_text (C.byte_val b) = Some text ->
  decodes A L 1 [b] (fun _ => text).
Proof.
  intros Ht depth rest role s Hd He Hs _.
  destruct depth as [|depth]; [lia|].
  exact (immediate_run A L b text rest depth role s Ht He Hs).
Qed.

(** X4.  Nil, the booleans and the small integers take one byte of the
    stream: in any role, [dump] answers [true], prints the value between
    what [dump_start] and [dump_stop] print, and leaves the rest of the
    stream untouched. *)
Theorem immediate_value_decoded :
  forall A L b text rest depth role s,
  immediate_text (C.byte_val b) = Some text ->
  eof_of s = false -> stream (pending_of s) = Some (b :: rest) ->
  exists s',
    dump A L (S depth) role s = (Some true, s')
    /\ decoded s s' (start_text (indent_of s) role ++ text ++ stop_text role) rest.
Proof. exact immediate_run. Qed.

(** ** Fixed-width integers *)

Lemma read_varint_loop_stream_last cb : forall n b s bs,
  eof_of s = false -> stream (pending_of s) = Some bs ->
  (cb <= List.length bs)%nat ->
  wp (read_varint_loop cb n b) s (fun r s' =>
    r = Some (fold_left varint_step (firstn cb bs) n,
              fold_left (fun _ x => C.byte_val x) (firstn cb bs) b)
    /\ eof_of s' = false /\ stream (pending_of s') = Some (skipn cb bs)
    /\ intact s s').
Proof.
  induction cb as [|cb IH]; intros n b s bs He Hs Hl.
  - apply wp_ret. repeat split; eauto.
  - cbn [read_varint_loop]. apply wp_bind.
    eapply wp_conseq; [apply (eread_stream 1 s bs He Hs); lia|].
    intros r s1 (Hi & Ho & Hr & H).
    destruct bs as [|x bs]; [simpl in Hl; lia|].
    replace (1 <=? Z.of_nat (List.length (x :: bs))) with true in H
      by (symmetry; apply Z.leb_le; simpl; lia).
    destruct H as (-> & He1 & Hs1). simpl in Hs1.
    cbn [hd firstn Z.to_nat Pos.to_nat Pos.iter_op Nat.add].
    eapply wp_conseq; [apply (IH _ _ s1 bs He1 Hs1); simpl in Hl; lia|].
    intros r s2 (-> & He2 & Hs2 & Hi2 & Ho2 & Hr2).
    split; [reflexivity|]. split; [exact He2|]. split; [exact Hs2|].
    unfold intact in *. repeat split; congruence.
Qed.

Lemma last_byte_be_bytes k : forall n b0,
  0 <= n ->
  fold_left (fun _ x => C.byte_val x) (be_bytes (S k) n) b0 = n mod 256.
Proof.
  induction k as [|k IH]; intros n b0 Hn.
  - cbn [be_bytes fold_left]. change (256 ^ Z.of_nat 0) with 1.
    rewrite Z.div_1_r. apply byte_val_byte_of, Z.mod_pos_bound. lia.
  - change (be_bytes (S (S k)) n)
      with (C.byte_of ((n / 256 ^ Z.of_nat (S k)) mod 256) :: be_bytes (S k) n).
    cbn [fold_left]. apply IH, Hn.
Qed.

Lemma firstn_be_bytes k n rest : firstn k (be_bytes k n ++ rest) = be_bytes k n.
Proof.
  rewrite <- (be_bytes_length k n) at 1.
  rewrite firstn_app, firstn_all, Nat.sub_diag. simpl. apply app_nil_r.
Qed.

Lemma skipn_be_bytes k n rest : skipn k (be_bytes k n ++ rest) = rest.
Proof.
  rewrite <- (be_bytes_length k n) at 1.
  rewrite skipn_app, skipn_all, Nat.sub_diag. reflexivity.
Qed.

(** What [read_varint] leaves in [*n] for the [k] bytes of [n], as the
    code computes it: the sign mask is or-ed in when the last byte read
    is 128 or more. *)
Lemma read_varint_stream k n sign s rest :
  (1 <= k <= 8)%nat -> 0 <= n < 256 ^ Z.of_nat k ->
  eof_of s = false -> stream (pending_of s) = Some (be_bytes k n ++ rest)%list ->
  wp (read_varint (Z.of_nat k) sign) s (fun r s' =>
    r = Some (if sign && (128 <=? n mod 256)
              then Z.lor n (C.u64 (Z.shiftl C.all_ones64 (Z.of_nat k)))
              else n)
    /\ eof_of s' = false /\ stream (pending_of s') = Some rest
    /\ intact s s').
Proof.
  intros Hk Hn He Hs. unfold read_varint. apply wp_bind. rewrite Nat2Z.id.
  eapply wp_conseq;
    [apply (read_varint_loop_stream_last k 0 0 s _ He Hs);
     rewrite length_app, be_bytes_length; lia|].
  intros r s1 (-> & He1 & Hs1 & Hi1).
  rewrite firstn_be_bytes. rewrite skipn_be_bytes in Hs1.
  rewrite fold_varint_be_bytes by lia.
  destruct k as [|k]; [lia|]. rewrite last_byte_be_bytes by lia.
  destruct sign; cbn [andb];
    [destruct (128 <=? n mod 256)|]; apply wp_ret;
    (split; [reflexivity|]); (split; [exact He1|]); (split; [exact Hs1 | exact Hi1]).
Qed.

Lemma dump_varint_stream k n sign s rest :
  (1 <= k <= 8)%nat -> 0 <= n < 256 ^ Z.of_nat k ->
  eof_of s = false -> stream (pending_of s) = Some (be_bytes k n ++ rest)%list ->
  wp (dump_varint (Z.of_nat k) sign) s (fun r s' =>
    r = true
    /\ decoded s s'
         (if sign
          then Fmt.dec (C.to_int64
                 (if 128 <=? n mod 256
                  then Z.lor n (C.u64 (Z.shiftl C.all_ones64 (Z.of_nat k)))
                  else n))
          else Fmt.dec n)
         rest).
Proof.
  intros Hk Hn He Hs. unfold dump_varint. apply wp_bind.
  eapply wp_conseq; [apply (read_varint_stream k n sign s rest Hk Hn He Hs)|].
  intros r s1 (-> & He1 & Hs1 & Hi1 & Ho1 & Hr1).
  apply wp_bind.
  destruct sign; cbn [andb]; apply wp_printf, wp_ret;
    (split; [reflexivity|]);
    unfold decoded, eof_of, pending_of, indent_of, out_of, err_of in *;
    simpl; repeat split; congruence.
Qed.

(** X5.  The unsigned integers of 1, 2, 4 and 8 bytes: for every value
    [n] that fits, the tag followed by the big-endian bytes of [n] is
    decoded as [n], printed in decimal, and exactly those bytes are
    taken from the stream. *)
Theorem unsigned_integer_decoded :
  forall A L t k n rest depth role s,
  In (t, k) uint_tags -> 0 <= n < 256 ^ Z.of_nat k ->
  eof_of s = false ->
  stream (pending_of s) = Some (t :: be_bytes k n ++ rest)%list ->
  exists s',
    dump A L (S depth) role s = (Some true, s')
    /\ decoded s s'
         (start_text (indent_of s) role ++ Fmt.dec n ++ stop_text role) rest.
Proof.
  intros A L t k n rest depth role s Hin Hn He Hs.
  apply decoded_run. cbn [dump].
  assert (Hcall : forall s1,
    eof_of s1 = false -> stream (pending_of s1) = Some (be_bytes k n ++ rest)%list ->
    (1 <= k <= 8)%nat ->
    wp (lift (dump_varint (Z.of_nat k) false)) s1
      (fun r s' => r = Some true /\ decoded s1 s' (Fmt.dec n) rest)).
  { intros s1 He1 Hs1 Hk. unfold lift. apply wp_bind.
    eapply wp_conseq; [apply (dump_varint_stream k n false s1 rest Hk Hn He1 Hs1)|].
    intros r s2 [-> H]. apply wp_ret. split; [reflexivity | exact H]. }
  simpl in Hin.
  destruct Hin as [E|[E|[E|[E|[]]]]]; injection E as <- <-;
    (match type of Hs with
     | _ = Some (?t :: _) =>
         eapply (dump_body_value A L _ t);
           [vm_compute; reflexivity | | exact He | exact Hs]
     end);
    intros s1 He1 Hs1; apply (Hcall s1 He1 Hs1); lia.
Qed.

(** X6.  The signed integers of 1, 2, 4 and 8 bytes, as the code decodes
    them: the big-endian bytes of [n] are printed as the signed 64-bit
    reading of [n] itself when the last byte is below 128, and of [n]
    with all bits from bit [k] up set when the last byte is 128 or
    more ([k] the width in bytes). *)
Theorem signed_integer_decoded :
  forall A L t k n rest depth role s,
  In (t, k) sint_tags -> 0 <= n < 256 ^ Z.of_nat k ->
  eof_of s = false ->
  stream (pending_of s) = Some (t :: be_bytes k n ++ rest)%list ->
  exists s',
    dump A L (S depth) role s = (Some true, s')
    /\ decoded s s'
         (start_text (indent_of s) role
          ++ Fmt.dec (C.to_int64
               (if 128 <=? n mod 256
                then Z.lor n (2 ^ 64 - 2 ^ Z.of_nat k)
                else n))
          ++ stop_text role)
         rest.
Proof.
  intros A L t k n rest depth role s Hin Hn He Hs.
  apply decoded_run. cbn [dump].
  assert (Hcall : forall s1,
    eof_of s1 = false -> stream (pending_of s1) = Some (be_bytes k n ++ rest)%list ->
    (1 <= k <= 8)%nat ->
    C.u64 (Z.shiftl C.all_ones64 (Z.of_nat k)) = 2 ^ 64 - 2 ^ Z.of_nat k ->
    wp (lift (dump_varint (Z.of_nat k) true)) s1
      (fun r s' => r = Some true
         /\ decoded s1 s'
              (Fmt.dec (C.to_int64
                 (if 128 <=? n mod 256
                  then Z.lor n (2 ^ 64 - 2 ^ Z.of_nat k)
                  else n))) rest)).
  { intros s1 He1 Hs1 Hk Hmask. unfold lift. apply wp_bind.
    eapply wp_conseq; [apply (dump_varint_stream k n true s1 rest Hk Hn He1 Hs1)|].
    intros r s2 [-> H]. apply wp_ret. split; [reflexivity|].
    rewrite Hmask in H. exact H. }
  simpl in Hin.
  destruct Hin as [E|[E|[E|[E|[]]]]]; injection E as <- <-;
    (match type of Hs with
     | _ = Some (?t :: _) =>
         eapply (dump_body_value A L _ t);
           [vm_compute; reflexivity | | exact He | exact Hs]
     end);
    intros s1 He1 Hs1; apply (Hcall s1 He1 Hs1); first [lia | reflexivity].
Qed.

(** ** Strings and blobs *)

Lemma firstn_exact {X} (pl rest : list X) n :
  n = List.length pl -> firstn n (pl ++ rest) = pl.
Proof.
  intros ->. rewrite firstn_app, firstn_all, Nat.sub_diag. simpl. apply app_nil_r.
Qed.

Lemma skipn_exact {X} (pl rest : list X) n :
  n = List.length pl -> skipn n (pl ++ rest) = rest.
Proof.
  intros ->. rewrite skipn_app, skipn_all, Nat.sub_diag. reflexivity.
Qed.

Lemma until_nul_no_nul data : no_nul data = true -> Fmt.until_nul data = data.
Proof.
  induction data as [|b data IH]; [reflexivity|]. simpl.
  destruct (Byte.eqb b x00); simpl; [discriminate|].
  intros H. rewrite IH by exact H. reflexivity.
Qed.

Lemma prec_s_whole len data :
  Z.of_nat (List.length data) = len -> len < 2 ^ 31 -> no_nul data = true ->
  Fmt.prec_s (C.to_int len) data = string_of_list_byte data.
Proof.
  intros Hl Hlt Hn. unfold Fmt.prec_s, C.to_int, C.u32.
  rewrite Z.mod_small by lia.
  replace (len <? 2 ^ 31) with true by (symmetry; apply Z.ltb_lt; lia).
  replace (len <? 0) with false by (symmetry; apply Z.ltb_ge; lia).
  rewrite firstn_all2 by lia. rewrite until_nul_no_nul by exact Hn. reflexivity.
Qed.

Lemma hex02_pair A b :
  plain_chars A [b] = true -> Fmt.hex02 (char_val A b) = hex_pair b.
Proof.
  destruct A as [[|] le]; unfold plain_chars; cbn [char_signed negb orb forallb];
    destruct b; vm_compute; intros H; try discriminate H; reflexivity.
Qed.

Lemma plain_chars_cons A b data :
  plain_chars A (b :: data) = true ->
  plain_chars A [b] = true /\ plain_chars A data = true.
Proof.
  unfold plain_chars. destruct (char_signed A); cbn [negb orb forallb];
    [|auto]. rewrite andb_true_r. apply andb_prop.
Qed.

Lemma hex_loop_more A : forall data b n,
  0 < n -> plain_chars A (b :: data) = true ->
  hex_loop A n (b :: data) = " " ++ hex_pairs (b :: data).
Proof.
  induction data as [|x data IH]; intros b n Hn Hp;
    apply plain_chars_cons in Hp; destruct Hp as [Hb Hd].
  - cbn [hex_loop]. replace (0 <? n) with true by (symmetry; apply Z.ltb_lt; lia).
    rewrite (hex02_pair A b Hb). unfold hex_pairs. simpl.
    rewrite ?append_nil_r. reflexivity.
  - change (hex_loop A n (b :: x :: data))
      with ((if 0 <? n then " " else EmptyString) ++ Fmt.hex02 (char_val A b)
            ++ hex_loop A (n + 1) (x :: data)).
    replace (0 <? n) with true by (symmetry; apply Z.ltb_lt; lia).
    rewrite (hex02_pair A b Hb). rewrite IH by (lia || exact Hd).
    reflexivity.
Qed.

(** The loop of [dump_data] over a blob of plain characters. *)
Lemma hex_loop_pairs A data :
  plain_chars A data = true -> hex_loop A 0 data = hex_pairs data.
Proof.
  destruct data as [|b [|x data]]; intros Hp; [reflexivity | |].
  - cbn [hex_loop]. rewrite (hex02_pair A b Hp). unfold hex_pairs. simpl.
    rewrite ?append_nil_r. reflexivity.
  - apply plain_chars_cons in Hp. destruct Hp as [Hb Hd].
    change (hex_loop A 0 (b :: x :: data))
      with (Fmt.hex02 (char_val A b) ++ hex_loop A (0 + 1) (x :: data)).
    rewrite (hex02_pair A b Hb). rewrite hex_loop_more by (lia || exact Hd).
    reflexivity.
Qed.

Section Payload.

Variables (A : abi) (L : libc).
Variables (is_str : bool) (len : Z) (pl rest : list byte) (text : string).
Hypothesis exact : Z.of_nat (List.length pl) = len.
Hypothesis granted : malloc_ok L len = true.
Hypothesis printed :
  (if is_str
   then Fmt.dquote ++ Fmt.prec_s (C.to_int len) pl ++ Fmt.dquote
   else hex_loop A 0 pl) = text.

Lemma dump_data_whole s1 :
  eof_of s1 = false -> stream (pending_of s1) = Some (pl ++ rest)%list ->
  wp (dump_data A L is_str len) s1 (fun r s' =>
    r = true /\ decoded s1 s' text rest).
Proof.
  intros He Hs. unfold dump_data. rewrite granted. cbn [negb].
  apply wp_bind.
  eapply wp_conseq; [apply (eread_stream len s1 _ He Hs); lia|].
  intros r s2 (Hi & Ho & Hr & H).
  replace (len <=? Z.of_nat (List.length (pl ++ rest))) with true in H
    by (symmetry; apply Z.leb_le; rewrite length_app; lia).
  rewrite firstn_exact, skipn_exact in H by lia.
  destruct H as (-> & He2 & Hs2).
  apply wp_bind. rewrite <- printed.
  destruct is_str; apply wp_printf, wp_ret; (split; [reflexivity|]);
    unfold decoded, eof_of, pending_of, indent_of, out_of, err_of in *;
    simpl; repeat split; congruence.
Qed.

Lemma dump_data_var_whole k s1 :
  (k <= 8)%nat -> 0 <= len < 256 ^ Z.of_nat k ->
  eof_of s1 = false ->
  stream (pending_of s1) = Some (be_bytes k len ++ pl ++ rest)%list ->
  wp (dump_data_var A L is_str (Z.of_nat k)) s1 (fun r s' =>
    r = true /\ decoded s1 s' text rest).
Proof.
  intros Hk Hlen He Hs. unfold dump_data_var. apply wp_bind.
  eapply wp_conseq; [apply (read_varuint_stream k len s1 _ Hk Hlen He Hs)|].
  intros r s2 (-> & He2 & Hs2 & Hi2 & Ho2 & Hr2).
  eapply wp_conseq; [apply (dump_data_whole s2 He2 Hs2)|].
  intros r s3 (-> & He3 & Hs3 & Hi3 & Ho3 & Hr3).
  split; [reflexivity|]. unfold decoded. repeat split; congruence.
Qed.

End Payload.

Lemma lift_decodes (m : M bool) s text rest :
  wp m s (fun r s' => r = true /\ decoded s s' text rest) ->
  wp (lift m) s (fun r s' => r = Some true /\ decoded s s' text rest).
Proof.
  intros H. unfold lift. apply wp_bind.
  eapply wp_conseq; [exact H|]. intros r s' [-> Hd].
  apply wp_ret. split; [reflexivity | exact Hd].
Qed.

Lemma select_fixstr len :
  0 <= len < 32 ->
  select (C.byte_val (C.byte_of (0xa0 + len))) = Some (DumpData true len).
Proof.
  intros H. rewrite byte_val_byte_of by lia.
  assert (Hn : len = Z.of_nat (Z.to_nat len)) by lia.
  rewrite Hn. assert (Hb : (Z.to_nat len < 32)%nat) by lia.
  clear -Hb. generalize dependent (Z.to_nat len). intros n Hb.
  do 32 (destruct n as [|n]; [reflexivity|]). lia.
Qed.

(** X7.  A string whose payload holds no zero byte and is shorter than
    [2^31] bytes is printed whole and unchanged between double quotes,
    for each of the four headers, and exactly its bytes are taken from
    the stream. *)
Theorem string_decoded :
  forall A L len hdr pl rest depth role s,
  In hdr (str_headers len) ->
  Z.of_nat (List.length pl) = len -> len < 2 ^ 31 ->
  no_nul pl = true ->
  malloc_ok L len = true ->
  eof_of s = false ->
  stream (pending_of s) = Some (hdr ++ pl ++ rest)%list ->
  exists s',
    dump A L (S depth) role s = (Some true, s')
    /\ decoded s s'
         (start_text (indent_of s) role
          ++ (Fmt.dquote ++ string_of_list_byte pl ++ Fmt.dquote)
          ++ stop_text role)
         rest.
Proof.
  intros A L len hdr pl rest depth role s Hin Hl Hlt Hn Hg He Hs.
  apply decoded_run. cbn [dump].
  assert (Hp : (if true
                then Fmt.dquote ++ Fmt.prec_s (C.to_int len) pl ++ Fmt.dquote
                else hex_loop A 0 pl)
               = Fmt.dquote ++ string_of_list_byte pl ++ Fmt.dquote)
    by (rewrite (prec_s_whole len pl Hl Hlt Hn); reflexivity).
  assert (Hpos : 0 <= len) by lia.
  unfold str_headers in Hin.
  repeat (apply in_app_or in Hin; destruct Hin as [Hin|Hin]).
  - destruct (len <? 32) eqn:E; [|contradiction]. apply Z.ltb_lt in E.
    destruct Hin as [<-|[]].
    apply (dump_body_value A L _ (C.byte_of (0xa0 + len)) (pl ++ rest) rest
             (DumpData true len)); [apply select_fixstr; lia | | exact He | exact Hs].
    intros s1 He1 Hs1. apply lift_decodes.
    apply (dump_data_whole A L true len pl rest _ Hl Hg Hp s1 He1 Hs1).
  - destruct (len <? 2 ^ 8) eqn:E; [|contradiction]. apply Z.ltb_lt in E.
    destruct Hin as [<-|[]].
    apply (dump_body_value A L _ xd9 (be_bytes 1 len ++ pl ++ rest) rest
             (DumpDataVar true 1)); [reflexivity | | exact He | exact Hs].
    intros s1 He1 Hs1. apply lift_decodes.
    apply (dump_data_var_whole A L true len pl rest _ Hl Hg Hp 1%nat s1);
      try assumption; lia.
  - destruct (len <? 2 ^ 16) eqn:E; [|contradiction]. apply Z.ltb_lt in E.
    destruct Hin as [<-|[]].
    apply (dump_body_value A L _ xda (be_bytes 2 len ++ pl ++ rest) rest
             (DumpDataVar true 2)); [reflexivity | | exact He | exact Hs].
    intros s1 He1 Hs1. apply lift_decodes.
    apply (dump_data_var_whole A L true len pl rest _ Hl Hg Hp 2%nat s1);
      try assumption; lia.
  - destruct (len <? 2 ^ 32) eqn:E; [|contradiction]. apply Z.ltb_lt in E.
    destruct Hin as [<-|[]].
    apply (dump_body_value A L _ xdb (be_bytes 4 len ++ pl ++ rest) rest
             (DumpDataVar true 4)); [reflexivity | | exact He | exact Hs].
    intros s1 He1 Hs1. apply lift_decodes.
    apply (dump_data_var_whole A L true len pl rest _ Hl Hg Hp 4%nat s1);
      try assumption; lia.
Qed.

(** X8.  A binary blob all of whose bytes are plain characters of the
    host (any byte where [char] is unsigned, bytes below 0x80 where it
    is signed) is printed as one two-digit lowercase hexadecimal pair per
    byte, in order, with single spaces between the pairs. *)
Theorem blob_decoded :
  forall A L len hdr pl rest depth role s,
  In hdr (bin_headers len) ->
  Z.of_nat (List.length pl) = len ->
  plain_chars A pl = true ->
  malloc_ok L len = true ->
  eof_of s = false ->
  stream (pending_of s) = Some (hdr ++ pl ++ rest)%list ->
  exists s',
    dump A L (S depth) role s = (Some true, s')
    /\ decoded s s'
         (start_text (indent_of s) role ++ hex_pairs pl ++ stop_text role) rest.
Proof.
  intros A L len hdr pl rest depth role s Hin Hl Hc Hg He Hs.
  apply decoded_run. cbn [dump].
  assert (Hp : (if false
                then Fmt.dquote ++ Fmt.prec_s (C.to_int len) pl ++ Fmt.dquote
                else hex_loop A 0 pl)
               = hex_pairs pl)
    by (apply hex_loop_pairs, Hc).
  assert (Hpos : 0 <= len) by lia.
  unfold bin_headers in Hin.
  repeat (apply in_app_or in Hin; destruct Hin as [Hin|Hin]).
  - destruct (len <? 2 ^ 8) eqn:E; [|contradiction]. apply Z.ltb_lt in E.
    destruct Hin as [<-|[]].
    apply (dump_body_value A L _ xc4 (be_bytes 1 len ++ pl ++ rest) rest
             (DumpDataVar false 1)); [reflexivity | | exact He | exact Hs].
    intros s1 He1 Hs1. apply lift_decodes.
    apply (dump_data_var_whole A L false len pl rest _ Hl Hg Hp 1%nat s1);
      try assumption; lia.
  - destruct (len <? 2 ^ 16) eqn:E; [|contradiction]. apply Z.ltb_lt in E.
    destruct Hin as [<-|[]].
    apply (dump_body_value A L _ xc5 (be_bytes 2 len ++ pl ++ rest) rest
             (DumpDataVar false 2)); [reflexivity | | exact He | exact Hs].
    intros s1 He1 Hs1. apply lift_decodes.
    apply (dump_data_var_whole A L false len pl rest _ Hl Hg Hp 2%nat s1);
      try assumption; lia.
  - destruct (len <? 2 ^ 32) eqn:E; [|contradiction]. apply Z.ltb_lt in E.
    destruct Hin as [<-|[]].
    apply (dump_body_value A L _ xc6 (be_bytes 4 len ++ pl ++ rest) rest
             (DumpDataVar false 4)); [reflexivity | | exact He | exact Hs].
    intros s1 He1 Hs1. apply lift_decodes.
    apply (dump_data_var_whole A L false len pl rest _ Hl Hg Hp 4%nat s1);
      try assumption; lia.
Qed.

(** ** Extension values *)

Section Extension.

Variables (A : abi) (L : libc).
Variables (len : Z) (ty : byte) (pl rest : list byte).
Hypothesis exact : Z.of_nat (List.length pl) = len.
Hypothesis plain : plain_chars A pl = true.
Hypothesis granted : malloc_ok L len = true.

Lemma dump_ext_whole s1 :
  eof_of s1 = false -> stream (pending_of s1) = Some (ty :: pl ++ rest)%list ->
  wp (dump_ext A L len) s1 (fun r s' =>
    r = true
    /\ decoded s1 s'
         ("Type" ++ Fmt.dec (C.byte_val ty) ++ ":" ++ hex_pairs pl) rest).
Proof.
  intros He Hs. unfold dump_ext.
  assert (HT : forall h,
    ("Type" ++ Fmt.dec (C.byte_val ty) ++ ":") ++ h
    = "Type" ++ Fmt.dec (C.byte_val ty) ++ ":" ++ h)
    by (intros h; rewrite !append_assoc; reflexivity).
  rewrite <- HT. remember ("Type" ++ Fmt.dec (C.byte_val ty) ++ ":") as T.
  clear HT. apply wp_bind.
  eapply wp_conseq; [apply (eread_stream 1 s1 _ He Hs); lia|].
  intros r s2 (Hi & Ho & Hr & H).
  replace (1 <=? Z.of_nat (List.length (ty :: pl ++ rest))) with true in H
    by (symmetry; apply Z.leb_le; simpl; lia).
  change (firstn (Z.to_nat 1) (ty :: pl ++ rest)%list) with [ty] in H.
  destruct H as (-> & He2 & Hs2). simpl in Hs2. cbn [hd].
  apply wp_bind, wp_printf. apply wp_bind.
  eapply wp_conseq;
    [apply (dump_data_whole A L false len pl rest (hex_pairs pl) exact granted
              (hex_loop_pairs A pl plain)); [exact He2 | exact Hs2]|].
  intros r s3 (-> & He3 & Hs3 & Hi3 & Ho3 & Hr3). apply wp_ret.
  split; [reflexivity|].
  unfold decoded, eof_of, pending_of, indent_of, out_of, err_of in *.
  cbn [fst snd pending out err indent eof] in *. repeat split; try congruence.
  subst T. rewrite Ho3, Ho, append_assoc. reflexivity.
Qed.

Lemma dump_ext_var_whole k s1 :
  (k <= 8)%nat -> 0 <= len < 256 ^ Z.of_nat k ->
  eof_of s1 = false ->
  stream (pending_of s1) = Some (be_bytes k len ++ ty :: pl ++ rest)%list ->
  wp (dump_ext_var A L (Z.of_nat k)) s1 (fun r s' =>
    r = true
    /\ decoded s1 s'
         ("Type" ++ Fmt.dec (C.byte_val ty) ++ ":" ++ hex_pairs pl) rest).
Proof.
  intros Hk Hlen He Hs. unfold dump_ext_var. apply wp_bind.
  eapply wp_conseq; [apply (read_varuint_stream k len s1 _ Hk Hlen He Hs)|].
  intros r s2 (-> & He2 & Hs2 & Hi2 & Ho2 & Hr2).
  eapply wp_conseq; [apply (dump_ext_whole s2 He2 Hs2)|].
  intros r s3 (-> & He3 & Hs3 & Hi3 & Ho3 & Hr3).
  split; [reflexivity|]. unfold decoded. repeat split; congruence.
Qed.

End Extension.

(** X9.  An extension value whose payload is complete and made of plain
    characters of the host is printed as [Type<N>:], [N] the type byte
    in decimal, followed by the payload as hexadecimal pairs; the header,
    the type byte and the payload are taken from the stream. *)
Theorem extension_decoded :
  forall A L len hdr ty pl rest depth role s,
  In hdr (ext_headers len) ->
  Z.of_nat (List.length pl) = len ->
  plain_chars A pl = true ->
  malloc_ok L len = true ->
  eof_of s = false ->
  stream (pending_of s) = Some (hdr ++ ty :: pl ++ rest)%list ->
  exists s',
    dump A L (S depth) role s = (Some true, s')
    /\ decoded s s'
         (start_text (indent_of s) role
          ++ ("Type" ++ Fmt.dec (C.byte_val ty) ++ ":" ++ hex_pairs pl)
          ++ stop_text role)
         rest.
Proof.
  intros A L len hdr ty pl rest depth role s Hin Hl Hc Hg He Hs.
  apply decoded_run. cbn [dump].
  assert (Hpos : 0 <= len) by lia.
  unfold ext_headers in Hin.
  repeat (apply in_app_or in Hin; destruct Hin as [Hin|Hin]);
    match type of Hin with
    | In _ (if ?c then _ else _) =>
        destruct c eqn:E; [|contradiction]; destruct Hin as [<-|[]]
    end;
    try (apply Z.eqb_eq in E; subst len;
         match type of Hs with
         | _ = Some ([?t] ++ _)%list =>
             eapply (dump_body_value A L _ t (ty :: pl ++ rest) rest);
               [vm_compute; reflexivity | | exact He | exact Hs]
         end;
         intros s1 He1 Hs1; apply lift_decodes;
         apply (dump_ext_whole A L _ ty pl rest Hl Hc Hg s1 He1 Hs1)).
  - apply Z.ltb_lt in E.
    apply (dump_body_value A L _ xc7 (be_bytes 1 len ++ ty :: pl ++ rest) rest
             (DumpExtVar 1)); [reflexivity | | exact He | exact Hs].
    intros s1 He1 Hs1. apply lift_decodes.
    apply (dump_ext_var_whole A L len ty pl rest Hl Hc Hg 1%nat s1);
      try assumption; lia.
  - apply Z.ltb_lt in E.
    apply (dump_body_value A L _ xc8 (be_bytes 2 len ++ ty :: pl ++ rest) rest
             (DumpExtVar 2)); [reflexivity | | exact He | exact Hs].
    intros s1 He1 Hs1. apply lift_decodes.
    apply (dump_ext_var_whole A L len ty pl rest Hl Hc Hg 2%nat s1);
      try assumption; lia.
  - apply Z.ltb_lt in E.
    apply (dump_body_value A L _ xc9 (be_bytes 4 len ++ ty :: pl ++ rest) rest
             (DumpExtVar 4)); [reflexivity | | exact He | exact Hs].
    intros s1 He1 Hs1. apply lift_decodes.
    apply (dump_ext_var_whole A L len ty pl rest Hl Hc Hg 4%nat s1);
      try assumption; lia.
Qed.

(** ** Floating values *)

Lemma dump_float_whole (A : abi) (width : Z) (render : Z -> string)
    (pl rest : list byte) s1 :
  Z.of_nat (List.length pl) = width ->
  eof_of s1 = false -> stream (pending_of s1) = Some (pl ++ rest)%list ->
  wp (r <- eread width ;;
      match r with
      | None => ret false
      | Some v => printf (render (object_bits A v)) ;;; ret true
      end) s1
    (fun r s' => r = true /\ decoded s1 s' (render (object_bits A pl)) rest).
Proof.
  intros Hl He Hs. apply wp_bind.
  eapply wp_conseq; [apply (eread_stream width s1 _ He Hs); lia|].
  intros r s2 (Hi & Ho & Hr & H).
  replace (width <=? Z.of_nat (List.length (pl ++ rest))) with true in H
    by (symmetry; apply Z.leb_le; rewrite length_app; lia).
  rewrite firstn_exact, skipn_exact in H by lia.
  destruct H as (-> & He2 & Hs2).
  apply wp_bind, wp_printf, wp_ret. split; [reflexivity|].
  unfold decoded, eof_of, pending_of, indent_of, out_of, err_of in *.
  simpl. repeat split; congruence.
Qed.

(** X10.  A float32 (float64) tag takes the 4 (8) bytes that follow it and
    prints, with [%g], the floating value whose bit pattern is the
    payload read in the byte order of the host: least significant byte
    first on a little-endian host, most significant first on a
    big-endian one. *)
Theorem float_decoded :
  forall A L pl rest depth role s,
  eof_of s = false ->
  (Z.of_nat (List.length pl) = 4 ->
   stream (pending_of s) = Some (xca :: pl ++ rest)%list ->
   exists s',
     dump A L (S depth) role s = (Some true, s')
     /\ decoded s s'
          (start_text (indent_of s) role
           ++ fmt_g_float L (if little_endian A then le_value pl else be_value pl)
           ++ stop_text role)
          rest)
  /\ (Z.of_nat (List.length pl) = 8 ->
      stream (pending_of s) = Some (xcb :: pl ++ rest)%list ->
      exists s',
        dump A L (S depth) role s = (Some true, s')
        /\ decoded s s'
             (start_text (indent_of s) role
              ++ fmt_g_double L (if little_endian A then le_value pl else be_value pl)
              ++ stop_text role)
             rest).
Proof.
  intros A L pl rest depth role s He. split; intros Hl Hs;
    apply decoded_run; cbn [dump].
  - apply (dump_body_value A L _ xca (pl ++ rest) rest DumpFloat32);
      [reflexivity | | exact He | exact Hs].
    intros s1 He1 Hs1. apply lift_decodes.
    apply (dump_float_whole A 4 (fmt_g_float L) pl rest s1 Hl He1 Hs1).
  - apply (dump_body_value A L _ xcb (pl ++ rest) rest DumpFloat64);
      [reflexivity | | exact He | exact Hs].
    intros s1 He1 Hs1. apply lift_decodes.
    apply (dump_float_whole A 8 (fmt_g_double L) pl rest s1 Hl He1 Hs1).
Qed.

(** ** Arrays and maps of decoded values *)

Section Composite.

Variables (A : abi) (L : libc).
Variable d : nat.

Lemma decoded_trans s1 s2 s3 t1 t2 r1 r2 :
  decoded s1 s2 t1 r1 -> decoded s2 s3 t2 r2 -> decoded s1 s3 (t1 ++ t2) r2.
Proof.
  unfold decoded. intros (E1 & S1 & I1 & O1 & R1) (E2 & S2 & I2 & O2 & R2).
  repeat split; try congruence.
  rewrite O2, O1. apply append_assoc.
Qed.

Lemma to_int_small n : 0 <= n < 2 ^ 31 -> C.to_int n = n.
Proof.
  intros H. unfold C.to_int, C.u32. rewrite Z.mod_small by lia.
  replace (n <? 2 ^ 31) with true by (symmetry; apply Z.ltb_lt; lia).
  reflexivity.
Qed.

Lemma stop_text_index n : 0 <= n -> stop_text n = Fmt.nl.
Proof.
  intros H. unfold stop_text, ROLE_MAP_KEY.
  replace (n =? -2) with false by (symmetry; apply Z.eqb_neq; lia).
  reflexivity.
Qed.

Lemma dump_array_loop_decoded depth : (d <= depth)%nat ->
  forall (elems : list value) n rest s,
  Forall (fun e => decodes A L d (fst e) (snd e)) elems ->
  0 <= n -> n + Z.of_nat (List.length elems) <= 2 ^ 31 ->
  eof_of s = false ->
  stream (pending_of s) = Some (List.concat (map fst elems) ++ rest)%list ->
  0 <= indent_of s < 2 ^ 32 ->
  wp (dump_array_loop (dump A L depth) (List.length elems) n) s (fun r s' =>
    r = Some true /\ decoded s s' (array_lines (indent_of s) n elems) rest).
Proof.
  intros Hd. induction elems as [|e elems IH]; intros n rest s Hall Hn Hc He Hs Hi.
  - apply wp_ret. split; [reflexivity|].
    unfold decoded. simpl in Hs. repeat split; try assumption.
    symmetry. apply append_nil_r.
  - inversion Hall as [|? ? He0 Hall']; subst.
    cbn [List.length dump_array_loop]. cbn [List.length] in Hc.
    cbn [map List.concat fst] in Hs. rewrite <- app_assoc in Hs.
    apply wp_bind. unfold wp at 1.
    destruct (He0 depth _ (C.to_int n) s Hd He Hs Hi) as (s1 & -> & H1).
    cbn [fst snd].
    rewrite to_int_small, stop_text_index in H1 by lia.
    destruct H1 as (E1 & S1 & I1 & O1 & R1).
    replace (C.u32 (n + 1)) with (n + 1)
      by (unfold C.u32; rewrite Z.mod_small; lia).
    eapply wp_conseq;
      [apply (IH (n + 1) rest s1 Hall'); try assumption; try lia;
       rewrite I1; exact Hi|].
    intros r s2 (-> & H2). split; [reflexivity|].
    cbn [array_lines]. rewrite I1 in H2.
    apply (decoded_trans s s1 s2 _ _ (List.concat (map fst elems) ++ rest)%list rest);
      [|exact H2].
    unfold decoded. repeat split; assumption.
Qed.

Lemma dump_map_loop_decoded depth : (d <= depth)%nat ->
  forall (pairs : list (value * value)) rest s,
  Forall (fun p => decodes A L d (fst (fst p)) (snd (fst p))
                   /\ decodes A L d (fst (snd p)) (snd (snd p))) pairs ->
  eof_of s = false ->
  stream (pending_of s)
  = Some (List.concat (map (fun p => (fst (fst p) ++ fst (snd p))%list) pairs) ++ rest)%list ->
  0 <= indent_of s < 2 ^ 32 ->
  wp (dump_map_loop (dump A L depth) (List.length pairs)) s (fun r s' =>
    r = Some true /\ decoded s s' (map_lines (indent_of s) pairs) rest).
Proof.
  intros Hd. induction pairs as [|[k v] pairs IH]; intros rest s Hall He Hs Hi.
  - apply wp_ret. split; [reflexivity|].
    unfold decoded. simpl in Hs. repeat split; try assumption.
    symmetry. apply append_nil_r.
  - inversion Hall as [|? ? [Hk Hv] Hall']; subst. cbn [fst snd] in Hk, Hv.
    cbn [List.length dump_map_loop].
    cbn [map List.concat fst snd] in Hs. rewrite <- !app_assoc in Hs.
    apply wp_bind. unfold wp at 1.
    destruct (Hk depth _ ROLE_MAP_KEY s Hd He Hs Hi) as (s1 & -> & H1).
    cbn [fst snd]. destruct H1 as (E1 & S1 & I1 & O1 & R1).
    apply wp_bind. unfold wp at 1.
    destruct (Hv depth _ ROLE_MAP_VALUE s1 Hd E1 S1 ltac:(rewrite I1; exact Hi))
      as (s2 & -> & H2).
    cbn [fst snd]. destruct H2 as (E2 & S2 & I2 & O2 & R2).
    eapply wp_conseq;
      [apply (IH rest s2 Hall' E2 S2); rewrite I2, I1; exact Hi|].
    intros r s3 (-> & E3 & S3 & I3 & O3 & R3). split; [reflexivity|].
    unfold decoded. repeat split; try congruence.
    rewrite O3, O2, O1, I2, I1. cbn [map_lines fst snd].
    unfold start_text, stop_text, ROLE_MAP_KEY, ROLE_MAP_VALUE.
    cbn [Z.eqb Z.leb Z.compare negb Pos.eqb].
    rewrite ?append_nil_r, !append_assoc. reflexivity.
Qed.

(** A container body around a loop that decodes. *)
Lemma container_decoded (opening closing : string)
    (loop : M (option bool)) (lines : Z -> string) rest s :
  0 <= indent_of s < 2 ^ 32 ->
  (forall s1, eof_of s1 = eof_of s -> pending_of s1 = pending_of s ->
     indent_of s1 = C.u32 (indent_of s + 1) ->
     wp loop s1 (fun r s' =>
       r = Some true /\ decoded s1 s' (lines (indent_of s1)) rest)) ->
  wp (printf (opening ++ Fmt.nl) ;;; incr_indent ;;;
      r <- loop ;;
      match r with
      | Some true =>
          decr_indent ;;; dump_indent ;;; printf closing ;;; ret (Some true)
      | other => ret other
      end) s
    (fun r s' =>
       r = Some true
       /\ decoded s s'
            (bracketed opening closing (indent_of s)
               (lines (C.u32 (indent_of s + 1)))) rest).
Proof.
  intros Hi Hloop.
  apply wp_bind, wp_printf. apply wp_bind, wp_incr_indent. apply wp_bind.
  eapply wp_conseq; [apply Hloop; reflexivity|].
  intros r s2 (-> & E2 & S2 & I2 & O2 & R2).
  apply wp_bind, wp_decr_indent. apply wp_bind, wp_dump_indent.
  apply wp_bind, wp_printf. apply wp_ret. split; [reflexivity|].
  unfold decoded, bracketed, eof_of, pending_of, indent_of, out_of, err_of in *.
  cbn [fst snd pending out err indent eof] in *.
  rewrite I2, u32_incr_decr by exact Hi.
  repeat split; try congruence.
  rewrite O2. rewrite !append_assoc. reflexivity.
Qed.

End Composite.

Section Composites.

Variables (A : abi) (L : libc).
Variable d : nat.

(** The body of [dump] around a call whose text depends on the indent
    level. *)
Lemma dump_body_composite rec t rest rest' dc (body : Z -> string) role s :
  select (C.byte_val t) = Some dc ->
  (forall s1,
     eof_of s1 = false -> stream (pending_of s1) = Some rest ->
     indent_of s1 = indent_of s ->
     wp (call A L rec dc) s1 (fun r s' =>
       r = Some true /\ decoded s1 s' (body (indent_of s1)) rest')) ->
  eof_of s = false -> stream (pending_of s) = Some (t :: rest) ->
  wp (dump_body A L rec role) s (fun r s' =>
    r = Some true
    /\ decoded s s'
         (start_text (indent_of s) role ++ body (indent_of s) ++ stop_text role)
         rest').
Proof.
  intros selected call_decodes He Hs. unfold dump_body. apply wp_bind.
  eapply wp_conseq; [apply (eread_stream 1 s _ He Hs); lia|].
  intros r s1 (Hi & Ho & Hr & H).
  replace (1 <=? Z.of_nat (List.length (t :: rest))) with true in H
    by (symmetry; apply Z.leb_le; simpl; lia).
  change (firstn (Z.to_nat 1) (t :: rest)) with [t] in H.
  destruct H as (-> & He1 & Hs1). simpl in Hs1. cbn [hd].
  apply wp_bind. unfold wp at 1. rewrite dump_start_spec. cbn [fst snd].
  rewrite selected. apply wp_bind.
  eapply wp_conseq; [apply call_decodes; [exact He1 | exact Hs1 | exact Hi]|].
  intros r s3 (-> & He3 & Hs3 & Hi3 & Ho3 & Hr3).
  apply wp_bind. unfold wp at 1. rewrite dump_stop_spec. cbn [fst snd].
  apply wp_ret. split; [reflexivity|].
  unfold decoded, eof_of, pending_of, indent_of, out_of, err_of in *.
  cbn [fst snd pending out err indent eof] in *.
  repeat split; try congruence.
  rewrite Ho3, Ho, Hi, !append_assoc. reflexivity.
Qed.

Section Array.

Variable elems : list value.
Hypothesis elems_decode : Forall (fun e => decodes A L d (fst e) (snd e)) elems.
Hypothesis indexes_fit : Z.of_nat (List.length elems) < 2 ^ 31.

Lemma dump_array_decoded depth rest s1 :
  (d <= depth)%nat ->
  eof_of s1 = false ->
  stream (pending_of s1) = Some (List.concat (map fst elems) ++ rest)%list ->
  0 <= indent_of s1 < 2 ^ 32 ->
  wp (dump_array (dump A L depth) (Z.of_nat (List.length elems))) s1
    (fun r s' =>
       r = Some true
       /\ decoded s1 s'
            (bracketed "[" "]" (indent_of s1)
               (array_lines (C.u32 (indent_of s1 + 1)) 0 elems)) rest).
Proof.
  intros Hd He Hs Hi. unfold dump_array. rewrite Nat2Z.id.
  apply (container_decoded "[" "]" _ (fun lv => array_lines lv 0 elems) rest s1 Hi).
  intros s2 E2 P2 I2.
  apply (dump_array_loop_decoded A L d depth Hd elems 0 rest s2 elems_decode);
    try lia; try congruence.
  rewrite I2. apply u32_range.
Qed.

Lemma dump_array_var_decoded k depth rest s1 :
  (d <= depth)%nat -> (k <= 8)%nat ->
  Z.of_nat (List.length elems) < 256 ^ Z.of_nat k ->
  eof_of s1 = false ->
  stream (pending_of s1)
  = Some (be_bytes k (Z.of_nat (List.length elems))
          ++ List.concat (map fst elems) ++ rest)%list ->
  0 <= indent_of s1 < 2 ^ 32 ->
  wp (dump_array_var (dump A L depth) (Z.of_nat k)) s1
    (fun r s' =>
       r = Some true
       /\ decoded s1 s'
            (bracketed "[" "]" (indent_of s1)
               (array_lines (C.u32 (indent_of s1 + 1)) 0 elems)) rest).
Proof.
  intros Hd Hk Hc He Hs Hi. unfold dump_array_var. apply wp_bind.
  eapply wp_conseq;
    [apply (read_varuint_stream k (Z.of_nat (List.length elems)) s1 _ Hk
              ltac:(lia) He Hs)|].
  intros r s2 (-> & He2 & Hs2 & Hi2 & Ho2 & Hr2).
  eapply wp_conseq;
    [apply (dump_array_decoded depth rest s2 Hd He2 Hs2); rewrite Hi2; exact Hi|].
  intros r s3 (-> & He3 & Hs3 & Hi3 & Ho3 & Hr3).
  split; [reflexivity|]. rewrite Hi2 in *.
  unfold decoded. repeat split; congruence.
Qed.

End Array.

Section Map.

Variable pairs : list (value * value).
Hypothesis pairs_decode :
  Forall (fun p => decodes A L d (fst (fst p)) (snd (fst p))
                   /\ decodes A L d (fst (snd p)) (snd (snd p))) pairs.

Lemma dump_map_decoded depth rest s1 :
  (d <= depth)%nat ->
  eof_of s1 = false ->
  stream (pending_of s1)
  = Some (List.concat (map (fun p => (fst (fst p) ++ fst (snd p))%list) pairs) ++ rest)%list ->
  0 <= indent_of s1 < 2 ^ 32 ->
  wp (dump_map (dump A L depth) (Z.of_nat (List.length pairs))) s1
    (fun r s' =>
       r = Some true
       /\ decoded s1 s'
            (bracketed "{" "}" (indent_of s1)
               (map_lines (C.u32 (indent_of s1 + 1)) pairs)) rest).
Proof.
  intros Hd He Hs Hi. unfold dump_map. rewrite Nat2Z.id.
  apply (container_decoded "{" "}" _ (fun lv => map_lines lv pairs) rest s1 Hi).
  intros s2 E2 P2 I2.
  apply (dump_map_loop_decoded A L d depth Hd pairs rest s2 pairs_decode);
    try congruence.
  rewrite I2. apply u32_range.
Qed.

Lemma dump_map_var_decoded k depth rest s1 :
  (d <= depth)%nat -> (k <= 8)%nat ->
  Z.of_nat (List.length pairs) < 256 ^ Z.of_nat k ->
  eof_of s1 = false ->
  stream (pending_of s1)
  = Some (be_bytes k (Z.of_nat (List.length pairs))
          ++ List.concat (map (fun p => (fst (fst p) ++ fst (snd p))%list) pairs)
          ++ rest)%list ->
  0 <= indent_of s1 < 2 ^ 32 ->
  wp (dump_map_var (dump A L depth) (Z.of_nat k)) s1
    (fun r s' =>
       r = Some true
       /\ decoded s1 s'
            (bracketed "{" "}" (indent_of s1)
               (map_lines (C.u32 (indent_of s1 + 1)) pairs)) rest).
Proof.
  intros Hd Hk Hc He Hs Hi. unfold dump_map_var. apply wp_bind.
  eapply wp_conseq;
    [apply (read_varuint_stream k (Z.of_nat (List.length pairs)) s1 _ Hk
              ltac:(lia) He Hs)|].
  intros r s2 (-> & He2 & Hs2 & Hi2 & Ho2 & Hr2).
  eapply wp_conseq;
    [apply (dump_map_decoded depth rest s2 Hd He2 Hs2); rewrite Hi2; exact Hi|].
  intros r s3 (-> & He3 & Hs3 & Hi3 & Ho3 & Hr3).
  split; [reflexivity|]. rewrite Hi2 in *.
  unfold decoded. repeat split; congruence.
Qed.

End Map.

End Composites.

Lemma select_fixarray count :
  0 <= count < 16 ->
  select (C.byte_val (C.byte_of (0x90 + count))) = Some (DumpArray count).
Proof.
  intros H. rewrite byte_val_byte_of by lia.
  assert (Hn : count = Z.of_nat (Z.to_nat count)) by lia.
  rewrite Hn. assert (Hb : (Z.to_nat count < 16)%nat) by lia.
  clear -Hb. generalize dependent (Z.to_nat count). intros n Hb.
  do 16 (destruct n as [|n]; [reflexivity|]). lia.
Qed.

Lemma select_fixmap count :
  0 <= count < 16 ->
  select (C.byte_val (C.byte_of (0x80 + count))) = Some (DumpMap count).
Proof.
  intros H. rewrite byte_val_byte_of by lia.
  assert (Hn : count = Z.of_nat (Z.to_nat count)) by lia.
  rewrite Hn. assert (Hb : (Z.to_nat count < 16)%nat) by lia.
  clear -Hb. generalize dependent (Z.to_nat count). intros n Hb.
  do 16 (destruct n as [|n]; [reflexivity|]). lia.
Qed.

(** X11.  An array of fewer than [2^31] values, each of which [dump]
    decodes: for each of the three array headers [dump] answers [true],
    takes the header and the elements, and prints an opening bracket
    and a newline, one line per element at one more indent level with
    its zero-based index as a label, and the closing bracket at the
    array's own indent level. *)
Theorem array_decoded :
  forall A L d (elems : list value) hdr,
  Forall (fun e => decodes A L d (fst e) (snd e)) elems ->
  Z.of_nat (List.length elems) < 2 ^ 31 ->
  In hdr (array_headers (Z.of_nat (List.length elems))) ->
  decodes A L (S d) (hdr ++ List.concat (map fst elems))
    (fun level =>
       bracketed "[" "]" level (array_lines (C.u32 (level + 1)) 0 elems)).
Proof.
  intros A L d elems hdr Hall Hfit Hin depth rest role s Hd He Hs Hi.
  destruct depth as [|depth]; [lia|]. assert (Hd' : (d <= depth)%nat) by lia.
  apply decoded_run. cbn [dump]. rewrite <- app_assoc in Hs.
  set (body := fun level =>
         bracketed "[" "]" level (array_lines (C.u32 (level + 1)) 0 elems)).
  unfold array_headers in Hin.
  repeat (apply in_app_or in Hin; destruct Hin as [Hin|Hin]);
    match type of Hin with
    | In _ (if ?c then _ else _) =>
        destruct c eqn:E; [|contradiction]; destruct Hin as [<-|[]];
        apply Z.ltb_lt in E
    end.
  - eapply (dump_body_composite A L _ _ _ rest
             (DumpArray (Z.of_nat (List.length elems))) body role s
             (select_fixarray (Z.of_nat (List.length elems)) ltac:(lia))); [|exact He | exact Hs].
    intros s1 He1 Hs1 Hi1.
    apply (dump_array_decoded A L d elems Hall Hfit depth rest s1 Hd' He1 Hs1).
    rewrite Hi1. exact Hi.
  - eapply (dump_body_composite A L _ xdc _ rest (DumpArrayVar 2) body role s
             eq_refl); [|exact He | exact Hs].
    intros s1 He1 Hs1 Hi1.
    apply (dump_array_var_decoded A L d elems Hall Hfit 2%nat depth rest s1);
      try assumption; lia.
  - eapply (dump_body_composite A L _ xdd _ rest (DumpArrayVar 4) body role s
             eq_refl); [|exact He | exact Hs].
    intros s1 He1 Hs1 Hi1.
    apply (dump_array_var_decoded A L d elems Hall Hfit 4%nat depth rest s1);
      try assumption; lia.
Qed.

(** X12.  A map of pairs of values, each of which [dump] decodes: for each
    of the three map headers [dump] answers [true], takes the header and
    the pairs, key before value, and prints an opening brace and a
    newline, one line per pair at one more indent level (the key, a
    colon and a space, the value), and the closing brace at the map's
    own indent level. *)
Theorem map_decoded :
  forall A L d (pairs : list (value * value)) hdr,
  Forall (fun p => decodes A L d (fst (fst p)) (snd (fst p))
                   /\ decodes A L d (fst (snd p)) (snd (snd p))) pairs ->
  In hdr (map_headers (Z.of_nat (List.length pairs))) ->
  decodes A L (S d)
    (hdr ++ List.concat (map (fun p => (fst (fst p) ++ fst (snd p))%list) pairs))
    (fun level =>
       bracketed "{" "}" level (map_lines (C.u32 (level + 1)) pairs)).
Proof.
  intros A L d pairs hdr Hall Hin depth rest role s Hd He Hs Hi.
  destruct depth as [|depth]; [lia|]. assert (Hd' : (d <= depth)%nat) by lia.
  apply decoded_run. cbn [dump]. rewrite <- app_assoc in Hs.
  set (body := fun level =>
         bracketed "{" "}" level (map_lines (C.u32 (level + 1)) pairs)).
  unfold map_headers in Hin.
  repeat (apply in_app_or in Hin; destruct Hin as [Hin|Hin]);
    match type of Hin with
    | In _ (if ?c then _ else _) =>
        destruct c eqn:E; [|contradiction]; destruct Hin as [<-|[]];
        apply Z.ltb_lt in E
    end.
  - eapply (dump_body_composite A L _ _ _ rest
             (DumpMap (Z.of_nat (List.length pairs))) body role s
             (select_fixmap (Z.of_nat (List.length pairs)) ltac:(lia))); [|exact He | exact Hs].
    intros s1 He1 Hs1 Hi1.
    apply (dump_map_decoded A L d pairs Hall depth rest s1 Hd' He1 Hs1).
    rewrite Hi1. exact Hi.
  - eapply (dump_body_composite A L _ xde _ rest (DumpMapVar 2) body role s
             eq_refl); [|exact He | exact Hs].
    intros s1 He1 Hs1 Hi1.
    apply (dump_map_var_decoded A L d pairs Hall 2%nat depth rest s1);
      try assumption; lia.
  - eapply (dump_body_composite A L _ xdf _ rest (DumpMapVar 4) body role s
             eq_refl); [|exact He | exact Hs].
    intros s1 He1 Hs1 Hi1.
    apply (dump_map_var_decoded A L d pairs Hall 4%nat depth rest s1);
      try assumption; lia.
Qed.

(** ** What [eread] delivers *)



(** X14.  Lengths and counts on the wire: for every width [k] up to 8
    bytes and every [n] below [256^k], [read_varuint] reads the [k]
    big-endian bytes of [n] back as [n] and takes exactly those bytes. *)
Theorem varuint_round_trip : forall k n rest s,
  (k <= 8)%nat -> 0 <= n < 256 ^ Z.of_nat k ->
  eof_of s = false ->
  stream (pending_of s) = Some (be_bytes k n ++ rest)%list ->
  exists s',
    read_varuint (Z.of_nat k) s = (Some n, s')
    /\ eof_of s' = false /\ stream (pending_of s') = Some rest
    /\ indent_of s' = indent_of s /\ out_of s' = out_of s /\ err_of s' = err_of s.
Proof.
  intros k n rest s Hk Hn He Hs.
  pose proof (read_varuint_stream k n s rest Hk Hn He Hs) as H.
  unfold wp in H. destruct (read_varuint (Z.of_nat k) s) as [r s'].
  simpl in H. destruct H as (-> & H1 & H2 & H3).
  exists s'. split; [reflexivity|]. split; [exact H1|]. split; [exact H2 | exact H3].
Qed.

(** ** Whole runs *)


Lemma bytes_left_stream : forall inp bs,
  stream inp = Some bs -> bytes_left inp = Z.of_nat (List.length bs).
Proof.
  induction inp as [|[[|b bs0]|why] rest IH]; intros bs H; try discriminate.
  - injection H as <-. reflexivity.
  - simpl in H. destruct (stream rest) as [more|]; [|discriminate].
    injection H as <-. specialize (IH more eq_refl).
    cbn [bytes_left]. rewrite IH.
    change (b :: (bs0 ++ more)%list) with ((b :: bs0) ++ more)%list.
    rewrite length_app. lia.
Qed.

Lemma eread_loop_clean : forall inp bs sz done off buf e buf' inp' off',
  stream inp = Some bs ->
  eread_loop inp sz done off buf = (e, buf', inp', off') ->
  (e = IoDone /\ stream inp' <> None) \/ (e = IoEof /\ inp' = []).
Proof.
  induction inp as [|[[|b bs0]|why] rest IH];
    intros bs sz done off buf e buf' inp' off' Hs; try discriminate;
    cbn [eread_loop]; destruct (sz <=? done) eqn:E;
    try (intros H; injection H as <- <- <- <-; left; split; [reflexivity|];
         rewrite Hs; discriminate).
  - intros H; injection H as <- <- <- <-. right. split; reflexivity.
  - simpl in Hs. destruct (stream rest) as [more|] eqn:Er; [|discriminate].
    assert (Hst : forall k, (k < List.length (b :: bs0))%nat ->
                    stream (Data (skipn k (b :: bs0)) :: rest) <> None).
    { intros k Hk. destruct (skipn k (b :: bs0)) as [|b' bs'] eqn:Ek.
      - exfalso. apply (f_equal (@List.length byte)) in Ek.
        rewrite length_skipn in Ek.
        change (List.length (@nil byte)) with 0%nat in Ek. lia.
      - simpl. rewrite Er. discriminate. }
    remember (b :: bs0) as chunk eqn:Hc.
    assert (Hlen : 0 < Z.of_nat (List.length chunk)) by (subst chunk; simpl; lia).
    replace (Z.of_nat (List.length chunk) =? 0) with false
      by (symmetry; apply Z.eqb_neq; lia).
    destruct (Z.of_nat (List.length chunk) <=? sz - done) eqn:E1.
    + intros H. apply (IH more) in H; [exact H | reflexivity].
    + apply Z.leb_gt in E1. apply Z.leb_gt in E.
      intros H; injection H as <- <- <- <-. left. split; [reflexivity|].
      apply Hst. lia.
Qed.

(** ** A run that ends with status 0 *)

Lemma tidy_refl s : tidy s s.
Proof.
  intros H. split; [exact H|]. split; [auto | congruence].
Qed.

Lemma tidy_trans s1 s2 s3 : tidy s1 s2 -> tidy s2 s3 -> tidy s1 s3.
Proof.
  intros H12 H23 H1. destruct (H12 H1) as (H2 & A12 & B12).
  destruct (H23 H2) as (H3 & A23 & B23).
  split; [exact H3|]. split.
  - intros E1. destruct (A12 E1) as [E2 P2]. destruct (A23 E2) as [E3 P3].
    split; congruence.
  - intros E1 E3. destruct (eof_of s2) eqn:E2.
    + destruct (A23 eq_refl) as [_ P3]. rewrite P3.
      apply B12; [exact E1 | reflexivity].
    + apply B23; [reflexivity | exact E3].
Qed.

Lemma tidy_same_ctx_pending s s' :
  eof_of s' = eof_of s -> pending_of s' = pending_of s -> tidy s s'.
Proof.
  intros He Hp H. rewrite Hp. split; [exact H|]. split.
  - intros E. split; congruence.
  - congruence.
Qed.

Lemma printf_tidy str : keeps tidy (printf str).
Proof. intros [c w]. apply tidy_same_ctx_pending; reflexivity. Qed.

Lemma eprintf_tidy str : keeps tidy (eprintf str).
Proof. intros [c w]. apply tidy_same_ctx_pending; reflexivity. Qed.

Lemma incr_indent_tidy : keeps tidy incr_indent.
Proof. intros [c w]. apply tidy_same_ctx_pending; reflexivity. Qed.

Lemma decr_indent_tidy : keeps tidy decr_indent.
Proof. intros [c w]. apply tidy_same_ctx_pending; reflexivity. Qed.

Lemma eread_tidy sz : keeps tidy (eread sz).
Proof.
  intros [c w]. unfold wp, eread.
  destruct (eof c) eqn:Ec; [apply (tidy_refl (c, w))|].
  destruct (eread_loop (pending w) sz 0 (offset c) []) as [[[e buf] inp] off] eqn:E.
  intros Hclean. unfold pending_of in Hclean. simpl in Hclean.
  destruct (stream (pending w)) as [bs|] eqn:Es; [|contradiction].
  destruct (eread_loop_clean _ _ _ _ _ _ _ _ _ _ Es E) as [[-> Hc]|[-> ->]];
    unfold pending_of, eof_of; cbn [fst snd pending eof]; rewrite ?Ec.
  - split; [exact Hc|]. split; discriminate.
  - split; [discriminate|]. split; [discriminate | reflexivity].
Qed.

Lemma main_loop_exit_0 A L depth : forall iters s,
  fst (main_loop A L iters depth s) = Some 0 ->
  eof_of (snd (main_loop A L iters depth s)) = true.
Proof.
  induction iters as [|iters IH]; intros s; cbn [main_loop];
    destruct (eof (fst s)) eqn:E; try (intros _; exact E); try discriminate.
  destruct (dump A L depth ROLE_NONE s) as [[[|]|] s1]; try discriminate.
  apply IH.
Qed.

(** X16.  The loop of [main] returns 0 only with the end-of-stream flag
    set; on a stream whose reads all succeed, that is only once every
    byte has been taken, and [ctx->offset] is then the length of the
    stream (as a [size_t]). *)
Theorem exit_0_consumes_stream : forall A L iters depth s bs s',
  eof_of s = false ->
  stream (pending_of s) = Some bs ->
  main_loop A L iters depth s = (Some 0, s') ->
  eof_of s' = true
  /\ pending_of s' = []
  /\ C.u64 (offset (fst s')) = C.u64 (offset (fst s) + Z.of_nat (List.length bs)).
Proof.
  intros A L iters depth s bs s' He Hs Hrun.
  assert (E' : eof_of s' = true).
  { pose proof (main_loop_exit_0 A L depth iters s) as H.
    rewrite Hrun in H. exact (H eq_refl). }
  pose proof (keeps_main_loop A L tidy tidy_refl tidy_trans printf_tidy
                eprintf_tidy eread_tidy incr_indent_tidy decr_indent_tidy
                depth iters s) as Ht.
  pose proof (keeps_main_loop A L advanced advanced_refl advanced_trans
                printf_advanced eprintf_advanced eread_advanced
                incr_indent_advanced decr_indent_advanced depth iters s) as Ha.
  unfold wp in Ht, Ha. rewrite Hrun in Ht, Ha. cbn [snd] in Ht, Ha.
  destruct (Ht ltac:(rewrite Hs; discriminate)) as (_ & _ & Hp).
  specialize (Hp He E'). destruct Ha as [_ Ha].
  rewrite Hp in Ha. cbn [bytes_left] in Ha.
  rewrite (bytes_left_stream _ _ Hs), Z.sub_0_r in Ha.
  split; [exact E'|]. split; [exact Hp | exact Ha].
Qed.

(** ** A stream of values *)

Lemma decodes_nonempty A L d bs text : decodes A L d bs text -> bs <> [].
Proof.
  intros H ->.
  destruct (H (S d) [] ROLE_NONE
              (ctx_ctor 0, mkWorld [] EmptyString EmptyString)
              ltac:(lia) eq_refl eq_refl ltac:(unfold indent_of; simpl; lia))
    as (s' & Hd & He & _).
  cbn in Hd. injection Hd as <-. discriminate He.
Qed.

Lemma stream_nil inp : stream inp = Some [] -> inp = [].
Proof.
  destruct inp as [|[[|b bs]|why] rest]; try discriminate; [reflexivity|].
  simpl. destruct (stream rest); discriminate.
Qed.

Lemma values_length A L d (vals : list value) :
  Forall (fun v => decodes A L d (fst v) (snd v)) vals ->
  (List.length vals <= List.length (List.concat (map fst vals)))%nat.
Proof.
  induction 1 as [|v vals Hv _ IH]; [simpl; lia|].
  cbn [map List.concat List.length]. rewrite length_app.
  apply decodes_nonempty in Hv. destruct (fst v); [contradiction|]. simpl. lia.
Qed.

Lemma main_loop_values A L d depth : (d <= depth)%nat -> (1 <= depth)%nat ->
  forall (vals : list value) iters s,
  Forall (fun v => decodes A L d (fst v) (snd v)) vals ->
  (List.length vals < iters)%nat ->
  eof_of s = false -> indent_of s = 0 ->
  stream (pending_of s) = Some (List.concat (map fst vals)) ->
  exists s',
    main_loop A L iters depth s = (Some 0, s')
    /\ out_of s' = out_of s ++ top_lines vals /\ err_of s' = err_of s.
Proof.
  intros Hd H1. induction vals as [|v vals IH]; intros iters s Hall Hi He Hin Hs.
  - destruct iters as [|iters]; [simpl in Hi; lia|].
    destruct depth as [|depth]; [lia|].
    apply stream_nil in Hs. destruct s as [c [p o e]].
    unfold pending_of, eof_of in *. simpl in Hs, He. subst p.
    cbn [main_loop fst]. rewrite He.
    destruct c as [f off ind ef]. simpl in He. subst ef.
    cbn [dump]. unfold dump_body, bind, eread. cbn [eof eread_loop Z.leb Z.compare fst snd].
    destruct iters; cbn [main_loop fst eof];
      (eexists; split; [reflexivity|];
       unfold out_of, err_of; cbn [snd out err];
       split; [symmetry; apply append_nil_r | reflexivity]).
  - destruct iters as [|iters]; [simpl in Hi; lia|].
    inversion Hall as [|? ? Hv Hall']; subst.
    cbn [map List.concat] in Hs.
    destruct (Hv depth _ ROLE_NONE s Hd He Hs ltac:(rewrite Hin; lia))
      as (s1 & Hrun & E1 & S1 & I1 & O1 & R1).
    destruct (IH iters s1 Hall' ltac:(simpl in Hi; lia) E1 ltac:(congruence) S1)
      as (s' & Hloop & O' & R').
    exists s'. cbn [main_loop]. unfold eof_of in He. rewrite He, Hrun.
    split; [exact Hloop|]. split; [|congruence].
    rewrite O', O1, Hin. cbn [top_lines].
    change (start_text 0 ROLE_NONE) with EmptyString.
    change (stop_text ROLE_NONE) with Fmt.nl.
    cbn [append]. apply append_assoc.
Qed.

(** X17.  A stream that is a sequence of values, each of which [dump]
    decodes, with every read succeeding: the run prints each value at
    indent level 0 followed by a newline, in order, writes nothing to
    standard error and ends with status 0.  (The empty sequence is the
    empty stream.) *)
Theorem values_stream_decoded :
  forall A L d (vals : list value) fdn inp,
  Forall (fun v => decodes A L d (fst v) (snd v)) vals ->
  (d <= S (weight inp))%nat ->
  stream inp = Some (List.concat (map fst vals)) ->
  run_fd A L fdn inp = mkResult (Some 0) (top_lines vals) EmptyString.
Proof.
  intros A L d vals fdn inp Hall Hd Hs. unfold run_fd.
  pose proof (values_length A L d vals Hall) as Hlen.
  pose proof (stream_weight inp _ Hs) as Hw.
  destruct (main_loop_values A L d (S (weight inp)) Hd ltac:(lia) vals
              (S (weight inp)) (ctx_ctor fdn, mkWorld inp EmptyString EmptyString)
              Hall ltac:(lia) eq_refl eq_refl Hs) as (s' & -> & Ho & Hr).
  unfold result_of. cbn [fst snd]. unfold out_of, err_of in Ho, Hr.
  rewrite Ho, Hr. reflexivity.
Qed.

(** ** Two runs side by side *)

Lemma alike_ret R {X} (a : X) : alike R (ret a) (ret a).
Proof. intros s1 s2 H. split; [reflexivity | exact H]. Qed.

Lemma alike_bind R {X Y} (m1 m2 : M X) (k1 k2 : X -> M Y) :
  alike R m1 m2 -> (forall a, alike R (k1 a) (k2 a)) ->
  alike R (bind m1 k1) (bind m2 k2).
Proof.
  intros Hm Hk s1 s2 H. unfold bind.
  destruct (Hm s1 s2 H) as [Ha Hs].
  destruct (m1 s1) as [a1 t1], (m2 s2) as [a2 t2]. simpl in Ha, Hs. subst a2.
  apply Hk, Hs.
Qed.

Section Simulation.

Variables (A : abi) (L : libc).
Variable R : state -> state -> Prop.
Variable ok : Z -> Z -> Prop.

Hypothesis ok_refl : forall role, ok role role.
Hypothesis R_eof : forall s1 s2, R s1 s2 -> eof_of s1 = eof_of s2.
Hypothesis R_printf : forall str, alike R (printf str) (printf str).
Hypothesis R_eprintf : forall str, alike R (eprintf str) (eprintf str).
Hypothesis R_eread : forall sz, alike R (eread sz) (eread sz).
Hypothesis R_incr : alike R incr_indent incr_indent.
Hypothesis R_decr : alike R decr_indent decr_indent.
Hypothesis R_indent : alike R dump_indent dump_indent.
Hypothesis R_start : forall role1 role2, ok role1 role2 ->
  alike R (dump_start role1) (dump_start role2).
Hypothesis R_stop : forall role1 role2, ok role1 role2 ->
  alike R (dump_stop role1) (dump_stop role2).

Lemma alike_read_varint_loop cb :
  forall n b, alike R (read_varint_loop cb n b) (read_varint_loop cb n b).
Proof.
  induction cb as [|cb IH]; intros n b; cbn [read_varint_loop];
    simulate (@alike_ret R) (@alike_bind R) R_printf R_eprintf R_eread.
  apply IH.
Qed.

Lemma alike_read_varint lenlen sign :
  alike R (read_varint lenlen sign) (read_varint lenlen sign).
Proof.
  unfold read_varint.
  simulate (@alike_ret R) (@alike_bind R) R_printf R_eprintf R_eread.
  apply alike_read_varint_loop.
Qed.

Lemma alike_dump_data is_str len :
  alike R (dump_data A L is_str len) (dump_data A L is_str len).
Proof.
  unfold dump_data.
  simulate (@alike_ret R) (@alike_bind R) R_printf R_eprintf R_eread.
Qed.

Lemma alike_call_scalar rec1 rec2 d :
  scalar d = true -> alike R (call A L rec1 d) (call A L rec2 d).
Proof.
  destruct d; simpl; try discriminate; intros _;
    unfold always, lift, dump_nil, dump_false, dump_true, dump_int,
      dump_uint8, dump_uint16, dump_uint32, dump_uint64,
      dump_int8, dump_int16, dump_int32, dump_int64,
      dump_varuint, dump_varsint, dump_varint, dump_float32, dump_float64,
      dump_data_var, dump_ext_var, dump_ext, read_varuint;
    simulate (@alike_ret R) (@alike_bind R) R_printf R_eprintf R_eread;
    first [ apply alike_read_varint | apply alike_dump_data ].
Qed.

Section SimulationLoops.

Variables rec1 rec2 : Z -> M (option bool).
Hypothesis rec_alike : forall role1 role2, ok role1 role2 ->
  alike R (rec1 role1) (rec2 role2).

Lemma alike_dump_array_loop count :
  forall n,
  alike R (dump_array_loop rec1 count n) (dump_array_loop rec2 count n).
Proof.
  induction count as [|count IH]; intros n; cbn [dump_array_loop];
    simulate (@alike_ret R) (@alike_bind R) R_printf R_eprintf R_eread;
    first [apply rec_alike, ok_refl | apply IH].
Qed.

Lemma alike_dump_map_loop count :
  alike R (dump_map_loop rec1 count) (dump_map_loop rec2 count).
Proof.
  induction count as [|count IH]; cbn [dump_map_loop];
    simulate (@alike_ret R) (@alike_bind R) R_printf R_eprintf R_eread;
    first [apply rec_alike, ok_refl | apply IH].
Qed.

Lemma alike_call d : alike R (call A L rec1 d) (call A L rec2 d).
Proof.
  destruct (scalar d) eqn:E; [apply alike_call_scalar, E|].
  destruct d; try discriminate; cbn [call];
    unfold dump_array_var, dump_map_var, dump_array, dump_map, read_varuint;
    simulate (@alike_ret R) (@alike_bind R) R_printf R_eprintf R_eread;
    first [ apply alike_read_varint | apply R_incr | apply R_decr
          | apply R_indent
          | apply alike_dump_array_loop | apply alike_dump_map_loop ].
Qed.

Lemma alike_dump_body role1 role2 :
  ok role1 role2 ->
  alike R (dump_body A L rec1 role1) (dump_body A L rec2 role2).
Proof.
  intros Hok. unfold dump_body.
  simulate (@alike_ret R) (@alike_bind R) R_printf R_eprintf R_eread;
    first [ apply R_start, Hok | apply R_stop, Hok | apply alike_call
          | idtac ].
  intros s1 s2 H. split; [|exact H].
  cbn [fst]. f_equal. apply (R_eof _ _ H).
Qed.

End SimulationLoops.

Lemma alike_dump depth :
  forall role1 role2, ok role1 role2 ->
  alike R (dump A L depth role1) (dump A L depth role2).
Proof.
  induction depth as [|depth IH]; intros role1 role2 Hok.
  - apply alike_ret.
  - apply alike_dump_body; [exact IH | exact Hok].
Qed.

Lemma alike_main_loop depth :
  forall iters, alike R (main_loop A L iters depth) (main_loop A L iters depth).
Proof.
  induction iters as [|iters IH]; intros s1 s2 H; cbn [main_loop];
    pose proof (R_eof _ _ H) as He; unfold eof_of in He; rewrite <- He;
    destruct (eof (fst s1)); try (split; [reflexivity | exact H]).
  destruct (alike_dump depth ROLE_NONE ROLE_NONE (ok_refl _) s1 s2 H) as [Hr Hs].
  destruct (dump A L depth ROLE_NONE s1) as [r1 t1],
           (dump A L depth ROLE_NONE s2) as [r2 t2].
  simpl in Hr, Hs. subst r2.
  destruct r1 as [[|]|]; [apply IH, Hs | |]; (split; [reflexivity | exact Hs]).
Qed.

End Simulation.

(** ** The role only changes what is printed *)

Lemma same_reading_printf str1 str2 :
  alike same_reading (printf str1) (printf str2).
Proof.
  intros [c1 w1] [c2 w2] (Hc & Hp & He). split; [reflexivity|].
  repeat split; assumption.
Qed.

Lemma same_reading_eprintf str :
  alike same_reading (eprintf str) (eprintf str).
Proof.
  intros [c1 w1] [c2 w2] (Hc & Hp & He). split; [reflexivity|].
  unfold same_reading, pending_of, err_of in *. simpl in *.
  repeat split; congruence.
Qed.

Lemma same_reading_eread sz : alike same_reading (eread sz) (eread sz).
Proof.
  intros [c1 w1] [c2 w2] (Hc & Hp & He).
  unfold pending_of, err_of in *. simpl in Hc, Hp, He. subst c2.
  unfold eread. rewrite <- Hp.
  destruct (eof c1); [split; [reflexivity|]; repeat split; assumption|].
  destruct (eread_loop (pending w1) sz 0 (offset c1) []) as [[[e buf] inp] off].
  destruct e; (split; [reflexivity|]);
    unfold same_reading, pending_of, err_of; simpl; repeat split; congruence.
Qed.

Lemma same_reading_incr_indent : alike same_reading incr_indent incr_indent.
Proof.
  intros [c1 w1] [c2 w2] (Hc & Hp & He). simpl in Hc. subst c2.
  split; [reflexivity|]. repeat split; assumption.
Qed.

Lemma same_reading_decr_indent : alike same_reading decr_indent decr_indent.
Proof.
  intros [c1 w1] [c2 w2] (Hc & Hp & He). simpl in Hc. subst c2.
  split; [reflexivity|]. repeat split; assumption.
Qed.

Lemma same_reading_dump_indent : alike same_reading dump_indent dump_indent.
Proof.
  intros s1 s2 H. unfold dump_indent. apply same_reading_printf, H.
Qed.

Lemma same_reading_dump_start role1 role2 :
  alike same_reading (dump_start role1) (dump_start role2).
Proof.
  intros s1 s2 (Hc & Hp & He). rewrite !dump_start_spec.
  split; [reflexivity|]. repeat split; assumption.
Qed.

Lemma same_reading_dump_stop role1 role2 :
  alike same_reading (dump_stop role1) (dump_stop role2).
Proof.
  intros s1 s2 (Hc & Hp & He). rewrite !dump_stop_spec.
  split; [reflexivity|]. repeat split; assumption.
Qed.

(** X18.  The role of a value only changes what is printed on standard
    output: called in two roles from the same state, [dump] gives the
    same answer, leaves the same cursor (offset, indent level,
    end-of-stream flag), takes the same bytes and writes the same text
    to standard error. *)
Theorem role_only_changes_stdout : forall A L depth role1 role2 s,
  fst (dump A L depth role1 s) = fst (dump A L depth role2 s)
  /\ fst (snd (dump A L depth role1 s)) = fst (snd (dump A L depth role2 s))
  /\ pending_of (snd (dump A L depth role1 s))
     = pending_of (snd (dump A L depth role2 s))
  /\ err_of (snd (dump A L depth role1 s))
     = err_of (snd (dump A L depth role2 s)).
Proof.
  intros A L depth role1 role2 s.
  destruct (alike_dump A L same_reading (fun _ _ => True)
              (fun _ => I)
              (fun s1 s2 H => f_equal eof (proj1 H))
              (fun str => same_reading_printf str str)
              same_reading_eprintf same_reading_eread
              same_reading_incr_indent same_reading_decr_indent
              same_reading_dump_indent
              (fun r1 r2 _ => same_reading_dump_start r1 r2)
              (fun r1 r2 _ => same_reading_dump_stop r1 r2)
              depth role1 role2 I s s) as [H1 H2].
  - repeat split.
  - split; [exact H1 | exact H2].
Qed.

(** ** Larger bounds change nothing *)

Lemma extends_refl {X} (m : M (option X)) : extends m m.
Proof. intros s _. reflexivity. Qed.

Lemma extends_trans {X} (m1 m2 m3 : M (option X)) :
  extends m1 m2 -> extends m2 m3 -> extends m1 m3.
Proof.
  intros H12 H23 s H. rewrite <- (H12 s H). apply H23. rewrite (H12 s H). exact H.
Qed.

Lemma extends_bind_same {X Y} (m : M X) (k1 k2 : X -> M (option Y)) :
  (forall a, extends (k1 a) (k2 a)) -> extends (bind m k1) (bind m k2).
Proof.
  intros Hk s. unfold bind. destruct (m s) as [a s']. apply Hk.
Qed.

Lemma extends_bind {X Y} (m1 m2 : M (option X))
    (k1 k2 : option X -> M (option Y)) :
  extends m1 m2 ->
  (forall s, fst (k1 None s) = None) ->
  (forall a, extends (k1 (Some a)) (k2 (Some a))) ->
  extends (bind m1 k1) (bind m2 k2).
Proof.
  intros Hm Hn Hk s. unfold bind. pose proof (Hm s) as H.
  destruct (m1 s) as [[a|] s'] eqn:E.
  - rewrite H by discriminate. apply Hk.
  - intros Hc. exfalso. apply Hc, Hn.
Qed.

Section Bounds.

Variables (A : abi) (L : libc).

Section BoundsLoops.

Variables rec1 rec2 : Z -> M (option bool).
Hypothesis rec_extends : forall role, extends (rec1 role) (rec2 role).

Lemma extends_dump_array_loop count :
  forall n, extends (dump_array_loop rec1 count n) (dump_array_loop rec2 count n).
Proof.
  induction count as [|count IH]; intros n; cbn [dump_array_loop].
  - apply extends_refl.
  - apply extends_bind; [apply rec_extends | reflexivity |].
    intros [|]; [apply IH | apply extends_refl].
Qed.

Lemma extends_dump_map_loop count :
  extends (dump_map_loop rec1 count) (dump_map_loop rec2 count).
Proof.
  induction count as [|count IH]; cbn [dump_map_loop].
  - apply extends_refl.
  - apply extends_bind; [apply rec_extends | reflexivity |].
    intros [|]; [|apply extends_refl].
    apply extends_bind; [apply rec_extends | reflexivity |].
    intros [|]; [apply IH | apply extends_refl].
Qed.

Lemma extends_container (opening closing : string)
    (loop1 loop2 : M (option bool)) :
  extends loop1 loop2 ->
  extends
    (printf opening ;;; incr_indent ;;;
     r <- loop1 ;;
     match r with
     | Some true => decr_indent ;;; dump_indent ;;; printf closing ;;; ret (Some true)
     | other => ret other
     end)
    (printf opening ;;; incr_indent ;;;
     r <- loop2 ;;
     match r with
     | Some true => decr_indent ;;; dump_indent ;;; printf closing ;;; ret (Some true)
     | other => ret other
     end).
Proof.
  intros H. apply extends_bind_same; intros _.
  apply extends_bind_same; intros _.
  apply extends_bind; [exact H | reflexivity |].
  intros a. apply extends_refl.
Qed.

Lemma extends_call d : extends (call A L rec1 d) (call A L rec2 d).
Proof.
  destruct d; cbn [call]; try apply extends_refl;
    unfold dump_array_var, dump_map_var, dump_array, dump_map;
    try (apply extends_bind_same; intros [len|]; [|apply extends_refl]);
    apply extends_container;
    first [apply extends_dump_array_loop | apply extends_dump_map_loop].
Qed.

Lemma extends_dump_body role :
  extends (dump_body A L rec1 role) (dump_body A L rec2 role).
Proof.
  unfold dump_body. apply extends_bind_same. intros [buf|]; [|apply extends_refl].
  apply extends_bind_same; intros _.
  destruct (select (C.byte_val (hd x00 buf))) as [d|]; [|apply extends_refl].
  apply extends_bind; [apply extends_call | reflexivity |].
  intros a. apply extends_refl.
Qed.

End BoundsLoops.

Lemma extends_dump_S depth :
  forall role, extends (dump A L depth role) (dump A L (S depth) role).
Proof.
  induction depth as [|depth IH]; intros role.
  - intros s H. exfalso. apply H. reflexivity.
  - apply (extends_dump_body (dump A L depth) (dump A L (S depth)) IH).
Qed.

Lemma extends_dump depth depth' role :
  (depth <= depth')%nat -> extends (dump A L depth role) (dump A L depth' role).
Proof.
  induction 1 as [|depth' Hle IH].
  - apply extends_refl.
  - eapply extends_trans; [exact IH | apply extends_dump_S].
Qed.

Lemma main_loop_extends depth depth' :
  (depth <= depth')%nat ->
  forall iters iters' s,
  (iters <= iters')%nat ->
  fst (main_loop A L iters depth s) <> None ->
  main_loop A L iters' depth' s = main_loop A L iters depth s.
Proof.
  intros Hd. induction iters as [|iters IH]; intros iters' s Hi H.
  - cbn [main_loop] in *. destruct (eof (fst s)) eqn:E.
    + destruct iters'; cbn [main_loop]; rewrite E; reflexivity.
    + exfalso. apply H. reflexivity.
  - destruct iters' as [|iters']; [lia|].
    cbn [main_loop] in *. destruct (eof (fst s)); [reflexivity|].
    pose proof (extends_dump depth depth' ROLE_NONE Hd s) as Hx.
    destruct (dump A L depth ROLE_NONE s) as [[[|]|] s1] eqn:E.
    + rewrite Hx by discriminate. apply IH; [lia | exact H].
    + rewrite Hx by discriminate. reflexivity.
    + exfalso. apply H. reflexivity.
Qed.

End Bounds.

Lemma run_fd_with_bounds A L fdn inp iters depth :
  (S (weight inp) <= iters)%nat -> (S (weight inp) <= depth)%nat ->
  result_of (main_loop A L iters depth
               (ctx_ctor fdn, mkWorld inp EmptyString EmptyString))
  = run_fd A L fdn inp.
Proof.
  intros Hi Hd. unfold run_fd. f_equal.
  apply main_loop_extends; [exact Hd | exact Hi |].
  destruct (run_fd_status_ok A L fdn inp) as [H|H];
    unfold run_fd, result_of in H; cbn [status] in H; rewrite H; discriminate.
Qed.


(** ** How the reads split the bytes does not matter *)

Lemma same_bytes_printf o str : alike (same_bytes o) (printf str) (printf str).
Proof.
  intros [c1 [p1 o1 e1]] [c2 [p2 o2 e2]] (Hi & He & Ho & Hr & Hs).
  split; [reflexivity|].
  unfold same_bytes, indent_of, eof_of, out_of, err_of, pending_of in *.
  simpl in *. repeat split; try assumption.
  rewrite Ho. apply append_assoc.
Qed.

Lemma same_bytes_eprintf o str :
  alike (same_bytes o) (eprintf str) (eprintf str).
Proof.
  intros [c1 [p1 o1 e1]] [c2 [p2 o2 e2]] (Hi & He & Ho & Hr & Hs).
  split; [reflexivity|].
  unfold same_bytes, indent_of, eof_of, out_of, err_of, pending_of in *.
  simpl in *. repeat split; try assumption. congruence.
Qed.

Lemma same_bytes_incr_indent o : alike (same_bytes o) incr_indent incr_indent.
Proof.
  intros [c1 [p1 o1 e1]] [c2 [p2 o2 e2]] (Hi & He & Ho & Hr & Hs).
  split; [reflexivity|].
  unfold same_bytes, indent_of, eof_of, out_of, err_of, pending_of in *.
  simpl in *. repeat split; try assumption. congruence.
Qed.

Lemma same_bytes_decr_indent o : alike (same_bytes o) decr_indent decr_indent.
Proof.
  intros [c1 [p1 o1 e1]] [c2 [p2 o2 e2]] (Hi & He & Ho & Hr & Hs).
  split; [reflexivity|].
  unfold same_bytes, indent_of, eof_of, out_of, err_of, pending_of in *.
  simpl in *. repeat split; try assumption. congruence.
Qed.

Lemma same_bytes_dump_indent o : alike (same_bytes o) dump_indent dump_indent.
Proof.
  intros s1 s2 H. unfold dump_indent.
  destruct H as (Hi & H). unfold indent_of in Hi. rewrite Hi.
  apply same_bytes_printf. split; assumption.
Qed.

Lemma same_bytes_dump_start o role1 role2 :
  role1 = role2 ->
  alike (same_bytes o) (dump_start role1) (dump_start role2).
Proof.
  intros <-. unfold dump_start. apply alike_bind.
  - destruct (negb (role1 =? ROLE_MAP_VALUE));
      [apply same_bytes_dump_indent | apply alike_ret].
  - intros _. destruct (0 <=? role1); [apply same_bytes_printf | apply alike_ret].
Qed.

Lemma same_bytes_dump_stop o role1 role2 :
  role1 = role2 ->
  alike (same_bytes o) (dump_stop role1) (dump_stop role2).
Proof.
  intros <-. unfold dump_stop.
  destruct (role1 =? ROLE_MAP_KEY); apply same_bytes_printf.
Qed.

Lemma eread_nothing sz s :
  sz <= 0 -> eof_of s = false -> eread sz s = (Some [], s).
Proof.
  destruct s as [c [p o e]]. unfold eof_of. simpl. intros Hsz He.
  unfold eread. rewrite He, eread_loop_step.
  replace (sz <=? 0) with true by (symmetry; apply Z.leb_le; lia).
  destruct c as [f off i ef]. simpl in He. subst ef. reflexivity.
Qed.

Lemma same_bytes_eread o sz : alike (same_bytes o) (eread sz) (eread sz).
Proof.
  intros s1 s2 H. pose proof H as (Hi & He & Ho & Hr & Hs).
  destruct (eof_of s1) eqn:E1.
  - destruct s1 as [c1 w1], s2 as [c2 w2]. unfold eof_of in *. simpl in E1, He.
    unfold eread. rewrite E1, <- He. split; [reflexivity | exact H].
  - destruct (Hs eq_refl) as (bs & Hs1 & Hs2).
    destruct (Z.le_gt_cases sz 0) as [Hsz|Hsz].
    + rewrite !eread_nothing by congruence. split; [reflexivity | exact H].
    + pose proof (eread_stream sz s1 bs E1 Hs1 ltac:(lia)) as W1.
      pose proof (eread_stream sz s2 bs ltac:(congruence) Hs2 ltac:(lia)) as W2.
      unfold wp in W1, W2.
      destruct (eread sz s1) as [r1 t1], (eread sz s2) as [r2 t2].
      cbn [fst snd] in *.
      destruct W1 as (Hi1 & Ho1 & Hr1 & W1), W2 as (Hi2 & Ho2 & Hr2 & W2).
      destruct (sz <=? Z.of_nat (List.length bs)).
      * destruct W1 as (-> & He1 & Hp1), W2 as (-> & He2 & Hp2).
        split; [reflexivity|]. unfold same_bytes.
        repeat split; try congruence.
        intros _. exists (skipn (Z.to_nat sz) bs). split; assumption.
      * destruct W1 as (-> & He1), W2 as (-> & He2).
        split; [reflexivity|]. unfold same_bytes.
        repeat split; try congruence.
Qed.

Lemma same_bytes_main_loop A L o iters depth :
  alike (same_bytes o) (main_loop A L iters depth) (main_loop A L iters depth).
Proof.
  apply (alike_main_loop A L (same_bytes o) eq (fun r => eq_refl)
           (fun s1 s2 H => proj1 (proj2 H))
           (same_bytes_printf o) (same_bytes_eprintf o) (same_bytes_eread o)
           (same_bytes_incr_indent o) (same_bytes_decr_indent o)
           (same_bytes_dump_indent o)
           (same_bytes_dump_start o) (same_bytes_dump_stop o)).
Qed.

(** X20.  What a run prints and its exit status depend only on the bytes
    the descriptor delivers, not on how the [read] calls split them nor
    on the descriptor's number: [eread] asks again until it has the
    bytes it was asked for. *)
Theorem short_reads_do_not_matter : forall A L fd1 fd2 inp1 inp2 bs,
  stream inp1 = Some bs -> stream inp2 = Some bs ->
  run_fd A L fd1 inp1 = run_fd A L fd2 inp2.
Proof.
  intros A L fd1 fd2 inp1 inp2 bs H1 H2.
  set (n := S (Nat.max (weight inp1) (weight inp2))).
  rewrite <- (run_fd_with_bounds A L fd1 inp1 n n) by (subst n; lia).
  rewrite <- (run_fd_with_bounds A L fd2 inp2 n n) by (subst n; lia).
  destruct (same_bytes_main_loop A L EmptyString n n
              (ctx_ctor fd1, mkWorld inp1 EmptyString EmptyString)
              (ctx_ctor fd2, mkWorld inp2 EmptyString EmptyString))
    as [Hr (_ & _ & Ho & He & _)].
  - unfold same_bytes, indent_of, eof_of, out_of, err_of, pending_of. simpl.
    repeat split. intros _. exists bs. split; assumption.
  - unfold result_of. unfold out_of, err_of in Ho, He. rewrite Hr, Ho, He.
    reflexivity.
Qed.

(** ** Values, then the rest of the stream *)

Lemma main_loop_values_then A L d depth : (d <= depth)%nat ->
  forall (vals : list value) rest iters s,
  Forall (fun v => decodes A L d (fst v) (snd v)) vals ->
  eof_of s = false -> indent_of s = 0 ->
  stream (pending_of s) = Some (List.concat (map fst vals) ++ rest)%list ->
  exists s1,
    main_loop A L (List.length vals + iters) depth s
    = main_loop A L iters depth s1
    /\ eof_of s1 = false /\ indent_of s1 = 0
    /\ stream (pending_of s1) = Some rest
    /\ out_of s1 = out_of s ++ top_lines vals /\ err_of s1 = err_of s.
Proof.
  intros Hd. induction vals as [|v vals IH]; intros rest iters s Hall He Hin Hs.
  - exists s. cbn [List.length Nat.add top_lines]. rewrite append_nil_r.
    repeat split; assumption.
  - inversion Hall as [|? ? Hv Hall']; subst.
    cbn [map List.concat] in Hs. rewrite <- app_assoc in Hs.
    destruct (Hv depth _ ROLE_NONE s Hd He Hs ltac:(rewrite Hin; lia))
      as (s1 & Hrun & E1 & S1 & I1 & O1 & R1).
    destruct (IH rest iters s1 Hall' E1 ltac:(congruence) S1)
      as (s2 & Hloop & E2 & I2 & S2 & O2 & R2).
    exists s2. cbn [List.length Nat.add main_loop].
    unfold eof_of in He. rewrite He, Hrun.
    split; [exact Hloop|]. repeat split; try congruence.
    rewrite O2, O1, Hin. cbn [top_lines].
    change (start_text 0 ROLE_NONE) with EmptyString.
    change (stop_text ROLE_NONE) with Fmt.nl.
    cbn [append]. apply append_assoc.
Qed.

Lemma run_values_then A L d (vals : list value) rest fdn fdn' inp inp' :
  Forall (fun v => decodes A L d (fst v) (snd v)) vals ->
  (d <= S (weight inp))%nat ->
  stream inp = Some (List.concat (map fst vals) ++ rest)%list ->
  stream inp' = Some rest ->
  run_fd A L fdn inp
  = mkResult (status (run_fd A L fdn' inp'))
      (top_lines vals ++ stdout (run_fd A L fdn' inp'))
      (stderr (run_fd A L fdn' inp')).
Proof.
  intros Hall Hd Hs Hs'.
  pose proof (values_length A L d vals Hall) as Hlen.
  pose proof (stream_weight inp _ Hs) as Hw. rewrite length_app in Hw.
  set (W := S (weight inp)) in *.
  set (s0 := (ctx_ctor fdn, mkWorld inp EmptyString EmptyString)).
  set (s0' := (ctx_ctor fdn', mkWorld inp' EmptyString EmptyString)).
  destruct (main_loop_values_then A L d W Hd vals rest (W - List.length vals) s0
              Hall eq_refl eq_refl Hs) as (s1 & Hrun & E1 & I1 & S1 & O1 & R1).
  replace (List.length vals + (W - List.length vals))%nat with W in Hrun
    by (subst W; lia).
  assert (Hsome : fst (main_loop A L W W s0) <> None).
  { destruct (run_fd_status_ok A L fdn inp) as [H|H];
      unfold run_fd, result_of in H; cbn [status] in H;
      fold W in H; fold s0 in H; rewrite H; discriminate. }
  set (N := Nat.max W (S (weight inp'))).
  assert (H1 : main_loop A L N N s1 = main_loop A L W W s0).
  { rewrite Hrun. apply main_loop_extends; [lia | lia |].
    rewrite <- Hrun. exact Hsome. }
  assert (H2 : result_of (main_loop A L N N s0') = run_fd A L fdn' inp').
  { apply run_fd_with_bounds; lia. }
  destruct (same_bytes_main_loop A L (top_lines vals) N N s1 s0')
    as [Hr (_ & _ & Ho & He & _)].
  - unfold same_bytes. rewrite E1, I1, O1, R1.
    unfold indent_of, eof_of, out_of, err_of, pending_of, s0, s0'. simpl.
    rewrite append_nil_r. repeat split.
    intros _. exists rest. split; assumption.
  - rewrite H1 in Hr, Ho, He. rewrite <- H2.
    unfold run_fd. fold W. fold s0. unfold result_of.
    cbn [status stdout stderr]. unfold out_of, err_of in Ho, He.
    rewrite Hr, Ho, He. reflexivity.
Qed.

(** X21.  A stream that starts with values [dump] decodes: the run prints
    them, each at indent level 0 and followed by a newline, and goes on
    as a run on the rest of the stream would: same exit status, same
    text after the values on standard output, same standard error. *)
Theorem values_then_rest :
  forall A L d (vals : list value) rest fdn fdn' inp inp',
  Forall (fun v => decodes A L d (fst v) (snd v)) vals ->
  (d <= S (weight inp))%nat ->
  stream inp = Some (List.concat (map fst vals) ++ rest)%list ->
  stream inp' = Some rest ->
  run_fd A L fdn inp
  = mkResult (status (run_fd A L fdn' inp'))
      (top_lines vals ++ stdout (run_fd A L fdn' inp'))
      (stderr (run_fd A L fdn' inp')).
Proof. exact run_values_then. Qed.

(** ** A refused allocation *)

Section Refused.

Variables (A : abi) (L : libc).
Variables (len : Z).
Hypothesis refused : malloc_ok L len = false.

Lemma dump_data_refused is_str s1 :
  dump_data A L is_str len s1
  = (false,
     (fst s1,
      mkWorld (pending_of s1) (out_of s1)
        (err_of s1 ++ "Cannot alloc " ++ Fmt.dec len ++ " bytes"))).
Proof.
  destruct s1 as [c [p o e]]. unfold dump_data. rewrite refused. reflexivity.
Qed.

Lemma dump_data_var_refused is_str k s1 rest :
  (k <= 8)%nat -> 0 <= len < 256 ^ Z.of_nat k ->
  eof_of s1 = false ->
  stream (pending_of s1) = Some (be_bytes k len ++ rest)%list ->
  wp (dump_data_var A L is_str (Z.of_nat k)) s1 (fun r s' =>
    r = false /\ eof_of s' = false /\ stream (pending_of s') = Some rest
    /\ indent_of s' = indent_of s1 /\ out_of s' = out_of s1
    /\ err_of s' = err_of s1 ++ "Cannot alloc " ++ Fmt.dec len ++ " bytes").
Proof.
  intros Hk Hlen He Hs. unfold dump_data_var. apply wp_bind.
  eapply wp_conseq; [apply (read_varuint_stream k len s1 _ Hk Hlen He Hs)|].
  intros r s2 (-> & He2 & Hs2 & Hi2 & Ho2 & Hr2).
  unfold wp. rewrite dump_data_refused. cbn [fst snd].
  unfold eof_of, pending_of, indent_of, out_of, err_of in *. simpl.
  repeat split; congruence.
Qed.

Section RefusedBody.

Variable rec : Z -> M (option bool).
Variables (t : byte) (rest rest' : list byte) (d : decoder).
Hypothesis selected : select (C.byte_val t) = Some d.
Hypothesis call_refused : forall s1,
  eof_of s1 = false -> stream (pending_of s1) = Some rest ->
  wp (call A L rec d) s1 (fun r s' =>
    r = Some false /\ eof_of s' = false /\ stream (pending_of s') = Some rest'
    /\ indent_of s' = indent_of s1 /\ out_of s' = out_of s1
    /\ err_of s' = err_of s1 ++ "Cannot alloc " ++ Fmt.dec len ++ " bytes").

Lemma dump_body_refused role s :
  eof_of s = false -> stream (pending_of s) = Some (t :: rest) ->
  wp (dump_body A L rec role) s (fun r s' =>
    r = Some false /\ eof_of s' = false /\ stream (pending_of s') = Some rest'
    /\ out_of s' = out_of s ++ start_text (indent_of s) role
    /\ err_of s' = err_of s ++ "Cannot alloc " ++ Fmt.dec len ++ " bytes").
Proof.
  intros He Hs. unfold dump_body. apply wp_bind.
  eapply wp_conseq; [apply (eread_stream 1 s _ He Hs); lia|].
  intros r s1 (Hi & Ho & Hr & H).
  replace (1 <=? Z.of_nat (List.length (t :: rest))) with true in H
    by (symmetry; apply Z.leb_le; simpl; lia).
  change (firstn (Z.to_nat 1) (t :: rest)) with [t] in H.
  destruct H as (-> & He1 & Hs1). simpl in Hs1. cbn [hd].
  apply wp_bind. unfold wp at 1. rewrite dump_start_spec. cbn [fst snd].
  rewrite selected. apply wp_bind.
  eapply wp_conseq; [apply call_refused; [exact He1 | exact Hs1]|].
  intros r s3 (-> & He3 & Hs3 & Hi3 & Ho3 & Hr3).
  apply wp_ret. split; [reflexivity|].
  unfold eof_of, pending_of, indent_of, out_of, err_of in *.
  simpl in *. repeat split; try congruence.
Qed.

End RefusedBody.

Lemma lift_refused (m : M bool) s (Q : state -> Prop) :
  wp m s (fun r s' => r = false /\ Q s') ->
  wp (lift m) s (fun r s' => r = Some false /\ Q s').
Proof.
  intros H. unfold lift. apply wp_bind.
  eapply wp_conseq; [exact H|]. intros r s' [-> Hq].
  apply wp_ret. split; [reflexivity | exact Hq].
Qed.

Lemma dump_refused hdr rest depth role s :
  In hdr (str_headers len ++ bin_headers len)%list -> 0 <= len ->
  eof_of s = false -> stream (pending_of s) = Some (hdr ++ rest)%list ->
  wp (dump A L (S depth) role) s (fun r s' =>
    r = Some false /\ eof_of s' = false /\ stream (pending_of s') = Some rest
    /\ out_of s' = out_of s ++ start_text (indent_of s) role
    /\ err_of s' = err_of s ++ "Cannot alloc " ++ Fmt.dec len ++ " bytes").
Proof.
  intros Hin Hpos He Hs. cbn [dump].
  assert (Hfix : forall is_str s1,
            eof_of s1 = false -> stream (pending_of s1) = Some rest ->
            wp (lift (dump_data A L is_str len)) s1 (fun r s' =>
              r = Some false /\ eof_of s' = false
              /\ stream (pending_of s') = Some rest
              /\ indent_of s' = indent_of s1 /\ out_of s' = out_of s1
              /\ err_of s' = err_of s1 ++ "Cannot alloc " ++ Fmt.dec len ++ " bytes")).
  { intros is_str s1 He1 Hs1. apply lift_refused. unfold wp.
    rewrite dump_data_refused. cbn [fst snd].
    unfold eof_of, pending_of, indent_of, out_of, err_of in *. simpl.
    repeat split; assumption. }
  assert (Hvar : forall is_str k s1, (k <= 8)%nat -> 0 <= len < 256 ^ Z.of_nat k ->
            eof_of s1 = false ->
            stream (pending_of s1) = Some (be_bytes k len ++ rest)%list ->
            wp (lift (dump_data_var A L is_str (Z.of_nat k))) s1 (fun r s' =>
              r = Some false /\ eof_of s' = false
              /\ stream (pending_of s') = Some rest
              /\ indent_of s' = indent_of s1 /\ out_of s' = out_of s1
              /\ err_of s' = err_of s1 ++ "Cannot alloc " ++ Fmt.dec len ++ " bytes")).
  { intros is_str k s1 Hk Hlen He1 Hs1. apply lift_refused.
    apply dump_data_var_refused; assumption. }
  unfold str_headers, bin_headers in Hin.
  repeat (apply in_app_or in Hin; destruct Hin as [Hin|Hin]).
  - destruct (len <? 32) eqn:E; [|contradiction]. apply Z.ltb_lt in E.
    destruct Hin as [<-|[]].
    apply (dump_body_refused _ (C.byte_of (0xa0 + len)) rest rest
             (DumpData true len)); [apply select_fixstr; lia | | exact He | exact Hs].
    intros s1 He1 Hs1. apply Hfix; assumption.
  - destruct (len <? 2 ^ 8) eqn:E; [|contradiction]. apply Z.ltb_lt in E.
    destruct Hin as [<-|[]].
    apply (dump_body_refused _ xd9 (be_bytes 1 len ++ rest) rest
             (DumpDataVar true 1)); [reflexivity | | exact He | exact Hs].
    intros s1 He1 Hs1. apply (Hvar true 1%nat); try assumption; lia.
  - destruct (len <? 2 ^ 16) eqn:E; [|contradiction]. apply Z.ltb_lt in E.
    destruct Hin as [<-|[]].
    apply (dump_body_refused _ xda (be_bytes 2 len ++ rest) rest
             (DumpDataVar true 2)); [reflexivity | | exact He | exact Hs].
    intros s1 He1 Hs1. apply (Hvar true 2%nat); try assumption; lia.
  - destruct (len <? 2 ^ 32) eqn:E; [|contradiction]. apply Z.ltb_lt in E.
    destruct Hin as [<-|[]].
    apply (dump_body_refused _ xdb (be_bytes 4 len ++ rest) rest
             (DumpDataVar true 4)); [reflexivity | | exact He | exact Hs].
    intros s1 He1 Hs1. apply (Hvar true 4%nat); try assumption; lia.
  - destruct (len <? 2 ^ 8) eqn:E; [|contradiction]. apply Z.ltb_lt in E.
    destruct Hin as [<-|[]].
    apply (dump_body_refused _ xc4 (be_bytes 1 len ++ rest) rest
             (DumpDataVar false 1)); [reflexivity | | exact He | exact Hs].
    intros s1 He1 Hs1. apply (Hvar false 1%nat); try assumption; lia.
  - destruct (len <? 2 ^ 16) eqn:E; [|contradiction]. apply Z.ltb_lt in E.
    destruct Hin as [<-|[]].
    apply (dump_body_refused _ xc5 (be_bytes 2 len ++ rest) rest
             (DumpDataVar false 2)); [reflexivity | | exact He | exact Hs].
    intros s1 He1 Hs1. apply (Hvar false 2%nat); try assumption; lia.
  - destruct (len <? 2 ^ 32) eqn:E; [|contradiction]. apply Z.ltb_lt in E.
    destruct Hin as [<-|[]].
    apply (dump_body_refused _ xc6 (be_bytes 4 len ++ rest) rest
             (DumpDataVar false 4)); [reflexivity | | exact He | exact Hs].
    intros s1 He1 Hs1. apply (Hvar false 4%nat); try assumption; lia.
Qed.

End Refused.

(** X22.  When [malloc] refuses the buffer of a string or of a blob,
    [dump] fails after the header: none of the payload is read, the
    value is not printed, the message (which has no newline) goes to
    standard error; a run on such a stream ends with status 1. *)
Theorem refused_allocation_exits_1 :
  forall A L len hdr rest,
  In hdr (str_headers len ++ bin_headers len)%list -> 0 <= len ->
  malloc_ok L len = false ->
  (forall depth role s,
     eof_of s = false -> stream (pending_of s) = Some (hdr ++ rest)%list ->
     exists s',
       dump A L (S depth) role s = (Some false, s')
       /\ eof_of s' = false /\ stream (pending_of s') = Some rest
       /\ out_of s' = out_of s ++ start_text (indent_of s) role
       /\ err_of s' = err_of s ++ "Cannot alloc " ++ Fmt.dec len ++ " bytes")
  /\ (forall fdn inp,
        stream inp = Some (hdr ++ rest)%list ->
        run_fd A L fdn inp
        = mkResult (Some 1) EmptyString
            ("Cannot alloc " ++ Fmt.dec len ++ " bytes")).
Proof.
  intros A L len hdr rest Hin Hpos Hm.
  assert (H : forall depth role s,
     eof_of s = false -> stream (pending_of s) = Some (hdr ++ rest)%list ->
     exists s',
       dump A L (S depth) role s = (Some false, s')
       /\ eof_of s' = false /\ stream (pending_of s') = Some rest
       /\ out_of s' = out_of s ++ start_text (indent_of s) role
       /\ err_of s' = err_of s ++ "Cannot alloc " ++ Fmt.dec len ++ " bytes").
  { intros depth role s He Hs.
    pose proof (dump_refused A L len Hm hdr rest depth role s Hin Hpos He Hs) as W.
    unfold wp in W. destruct (dump A L (S depth) role s) as [r s'].
    cbn [fst snd] in W. destruct W as (-> & W). exists s'.
    split; [reflexivity | exact W]. }
  split; [exact H|].
  intros fdn inp Hs. unfold run_fd.
  destruct (H (weight inp) ROLE_NONE
              (ctx_ctor fdn, mkWorld inp EmptyString EmptyString) eq_refl Hs)
    as (s' & Hrun & _ & _ & Ho & Hr).
  cbn [main_loop fst ctx_ctor eof]. rewrite Hrun.
  unfold result_of. cbn [fst snd]. unfold out_of, err_of in Ho, Hr.
  rewrite Ho, Hr. reflexivity.
Qed.

(** ** Numbers and blobs cut short *)

Lemma eread_short sz s bs :
  eof_of s = false -> stream (pending_of s) = Some bs ->
  Z.of_nat (List.length bs) < sz ->
  wp (eread sz) s (fun r s' => r = None /\ eof_of s' = true /\ intact s s').
Proof.
  intros He Hs Hl.
  eapply wp_conseq; [apply (eread_stream sz s bs He Hs); lia|].
  intros r s1 (Hi & Ho & Hr & H).
  replace (sz <=? Z.of_nat (List.length bs)) with false in H
    by (symmetry; apply Z.leb_gt; exact Hl).
  destruct H as [-> He1]. repeat split; assumption.
Qed.

Lemma read_varint_loop_short cb : forall n b s bs,
  eof_of s = false -> stream (pending_of s) = Some bs ->
  (List.length bs < cb)%nat ->
  wp (read_varint_loop cb n b) s (fun r s' =>
    r = None /\ eof_of s' = true /\ intact s s').
Proof.
  induction cb as [|cb IH]; intros n b s bs He Hs Hl; [lia|].
  cbn [read_varint_loop]. apply wp_bind.
  destruct bs as [|x bs].
  - eapply wp_conseq; [apply (eread_short 1 s [] He Hs); simpl; lia|].
    intros r s1 (-> & He1 & Hi). apply wp_ret.
    split; [reflexivity|]. split; assumption.
  - eapply wp_conseq; [apply (eread_stream 1 s _ He Hs); lia|].
    intros r s1 (Hi & Ho & Hr & H).
    replace (1 <=? Z.of_nat (List.length (x :: bs))) with true in H
      by (symmetry; apply Z.leb_le; simpl; lia).
    destruct H as (-> & He1 & Hs1). simpl in Hs1.
    eapply wp_conseq; [apply (IH _ _ s1 bs He1 Hs1); simpl in Hl; lia|].
    intros r s2 (-> & He2 & Hi2 & Ho2 & Hr2).
    repeat split; congruence.
Qed.

Lemma dump_varint_short k sign s bs :
  eof_of s = false -> stream (pending_of s) = Some bs ->
  (List.length bs < k)%nat ->
  wp (lift (dump_varint (Z.of_nat k) sign)) s (fails_at_eof s).
Proof.
  intros He Hs Hl. unfold lift, dump_varint, read_varint.
  apply wp_bind, wp_bind, wp_bind. rewrite Nat2Z.id.
  eapply wp_conseq; [apply (read_varint_loop_short k 0 0 s bs He Hs Hl)|].
  intros r s1 (-> & He1 & Hi). apply wp_ret, wp_ret, wp_ret.
  split; [reflexivity|]. split; assumption.
Qed.

Lemma dump_float32_short A L s bs :
  eof_of s = false -> stream (pending_of s) = Some bs ->
  (List.length bs < 4)%nat ->
  wp (lift (dump_float32 A L)) s (fails_at_eof s).
Proof.
  intros He Hs Hl. unfold lift, dump_float32. apply wp_bind, wp_bind.
  eapply wp_conseq; [apply (eread_short 4 s bs He Hs); lia|].
  intros r s1 (-> & He1 & Hi). apply wp_ret, wp_ret.
  split; [reflexivity|]. split; assumption.
Qed.

Lemma dump_float64_short A L s bs :
  eof_of s = false -> stream (pending_of s) = Some bs ->
  (List.length bs < 8)%nat ->
  wp (lift (dump_float64 A L)) s (fails_at_eof s).
Proof.
  intros He Hs Hl. unfold lift, dump_float64. apply wp_bind, wp_bind.
  eapply wp_conseq; [apply (eread_short 8 s bs He Hs); lia|].
  intros r s1 (-> & He1 & Hi). apply wp_ret, wp_ret.
  split; [reflexivity|]. split; assumption.
Qed.

Lemma dump_truncated_number A L t k pl depth role s :
  In (t, k) number_tags -> (List.length pl < k)%nat ->
  eof_of s = false -> stream (pending_of s) = Some (t :: pl) ->
  wp (dump A L (S depth) role) s (fun r s' =>
    r = Some false /\ eof_of s' = true
    /\ out_of s' = out_of s ++ start_text (indent_of s) role
    /\ err_of s' = err_of s).
Proof.
  intros Hin Hl He Hs. cbn [dump].
  unfold number_tags, uint_tags, sint_tags in Hin. cbn [app] in Hin.
  repeat (destruct Hin as [Hin|Hin]; [injection Hin as <- <-|]);
    [ apply (dump_body_fails A L [] _ xcc pl DumpUint8)
    | apply (dump_body_fails A L [] _ xcd pl DumpUint16)
    | apply (dump_body_fails A L [] _ xce pl DumpUint32)
    | apply (dump_body_fails A L [] _ xcf pl DumpUint64)
    | apply (dump_body_fails A L [] _ xd0 pl DumpInt8)
    | apply (dump_body_fails A L [] _ xd1 pl DumpInt16)
    | apply (dump_body_fails A L [] _ xd2 pl DumpInt32)
    | apply (dump_body_fails A L [] _ xd3 pl DumpInt64)
    | apply (dump_body_fails A L [] _ xca pl DumpFloat32)
    | apply (dump_body_fails A L [] _ xcb pl DumpFloat64)
    | destruct Hin ];
    try assumption; try reflexivity;
    intros s1 He1 Hs1; cbn [call];
    first [ apply (dump_varint_short 1 false s1 pl He1 Hs1 Hl)
          | apply (dump_varint_short 2 false s1 pl He1 Hs1 Hl)
          | apply (dump_varint_short 4 false s1 pl He1 Hs1 Hl)
          | apply (dump_varint_short 8 false s1 pl He1 Hs1 Hl)
          | apply (dump_varint_short 1 true s1 pl He1 Hs1 Hl)
          | apply (dump_varint_short 2 true s1 pl He1 Hs1 Hl)
          | apply (dump_varint_short 4 true s1 pl He1 Hs1 Hl)
          | apply (dump_varint_short 8 true s1 pl He1 Hs1 Hl)
          | apply (dump_float32_short A L s1 pl He1 Hs1 Hl)
          | apply (dump_float64_short A L s1 pl He1 Hs1 Hl) ].
Qed.

Lemma failed_dump_exits_1 A L fdn inp (Q : state -> Prop) :
  (forall depth s,
     eof_of s = false -> stream (pending_of s) = stream inp ->
     wp (dump A L (S depth) ROLE_NONE) s (fun r s' =>
       r = Some false /\ Q s'
       /\ out_of s' = out_of s ++ start_text (indent_of s) ROLE_NONE
       /\ err_of s' = err_of s)) ->
  run_fd A L fdn inp = mkResult (Some 1) EmptyString EmptyString.
Proof.
  intros H. unfold run_fd.
  specialize (H (weight inp) (ctx_ctor fdn, mkWorld inp EmptyString EmptyString)
                eq_refl eq_refl).
  unfold wp in H. cbn [main_loop fst ctx_ctor eof].
  destruct (dump A L (S (weight inp)) ROLE_NONE
              (ctx_ctor fdn, mkWorld inp EmptyString EmptyString)) as [r s'].
  cbn [fst snd] in H. destruct H as (-> & _ & Ho & Hr).
  unfold result_of. cbn [fst snd]. unfold out_of, err_of in Ho, Hr.
  rewrite Ho, Hr. reflexivity.
Qed.

(** X23.  A stream that ends inside the payload of a fixed-width integer
    or of a floating-point number: whatever its role, [dump] answers
    [false] with the end-of-stream flag set, printing nothing of the
    number and nothing on standard error; a run on such a stream ends
    with status 1 and both outputs empty. *)
Theorem truncated_number_exits_1 :
  forall A L t k pl,
  In (t, k) number_tags -> (List.length pl < k)%nat ->
  (forall depth role s,
     eof_of s = false -> stream (pending_of s) = Some (t :: pl) ->
     exists s',
       dump A L (S depth) role s = (Some false, s')
       /\ eof_of s' = true
       /\ out_of s' = out_of s ++ start_text (indent_of s) role
       /\ err_of s' = err_of s)
  /\ (forall fdn inp,
        stream inp = Some (t :: pl) ->
        run_fd A L fdn inp = mkResult (Some 1) EmptyString EmptyString).
Proof.
  intros A L t k pl Hin Hl. split.
  - intros depth role s He Hs.
    pose proof (dump_truncated_number A L t k pl depth role s Hin Hl He Hs) as W.
    unfold wp in W. destruct (dump A L (S depth) role s) as [r s'].
    cbn [fst snd] in W. destruct W as (-> & W). exists s'.
    split; [reflexivity | exact W].
  - intros fdn inp Hs.
    apply (failed_dump_exits_1 A L fdn inp (fun s' => eof_of s' = true)).
    intros depth s He Hs1. rewrite Hs in Hs1.
    exact (dump_truncated_number A L t k pl depth ROLE_NONE s Hin Hl He Hs1).
Qed.

Section TruncatedBlob.

Variables (A : abi) (L : libc).
Variables (len : Z) (pl : list byte).
Hypothesis short : Z.of_nat (List.length pl) < len.
Hypothesis granted : malloc_ok L len = true.

Lemma dump_blob_short s1 :
  eof_of s1 = false -> stream (pending_of s1) = Some pl ->
  wp (lift (dump_data A L false len)) s1 (fails_at_eof s1).
Proof.
  intros He Hs. unfold lift, dump_data. rewrite granted. cbn [negb].
  apply wp_bind, wp_bind.
  eapply wp_conseq; [apply (eread_short len s1 pl He Hs short)|].
  intros r s2 (-> & He2 & Hi). apply wp_ret, wp_ret.
  split; [reflexivity|]. split; assumption.
Qed.

Lemma dump_blob_var_short k s1 :
  (k <= 8)%nat -> 0 <= len < 256 ^ Z.of_nat k ->
  eof_of s1 = false ->
  stream (pending_of s1) = Some (be_bytes k len ++ pl)%list ->
  wp (lift (dump_data_var A L false (Z.of_nat k))) s1 (fails_at_eof s1).
Proof.
  intros Hk Hlen He Hs. unfold lift, dump_data_var. apply wp_bind, wp_bind.
  eapply wp_conseq; [apply (read_varuint_stream k len s1 pl Hk Hlen He Hs)|].
  intros r s2 (-> & He2 & Hs2 & Hi2 & Ho2 & Hr2).
  pose proof (dump_blob_short s2 He2 Hs2) as H.
  unfold lift in H. revert H. unfold wp, bind.
  destruct (dump_data A L false len s2) as [b s3]. simpl.
  intros (Hb & He3 & Hi3 & Ho3 & Hr3).
  split; [exact Hb|]. split; [exact He3|]. repeat split; congruence.
Qed.

Lemma dump_truncated_blob hdr depth role s :
  In hdr (bin_headers len) ->
  eof_of s = false -> stream (pending_of s) = Some (hdr ++ pl)%list ->
  wp (dump A L (S depth) role) s (fun r s' =>
    r = Some false /\ eof_of s' = true
    /\ out_of s' = out_of s ++ start_text (indent_of s) role
    /\ err_of s' = err_of s).
Proof.
  intros Hin He Hs. cbn [dump].
  assert (Hpos : 0 <= len) by lia.
  unfold bin_headers in Hin.
  repeat (apply in_app_or in Hin; destruct Hin as [Hin|Hin]).
  - destruct (len <? 2 ^ 8) eqn:E; [|contradiction]. apply Z.ltb_lt in E.
    destruct Hin as [<-|[]].
    apply (dump_body_fails A L [] _ xc4 (be_bytes 1 len ++ pl)
             (DumpDataVar false 1)); [reflexivity | | exact He | exact Hs].
    intros s1 He1 Hs1. apply (dump_blob_var_short 1%nat); try assumption; lia.
  - destruct (len <? 2 ^ 16) eqn:E; [|contradiction]. apply Z.ltb_lt in E.
    destruct Hin as [<-|[]].
    apply (dump_body_fails A L [] _ xc5 (be_bytes 2 len ++ pl)
             (DumpDataVar false 2)); [reflexivity | | exact He | exact Hs].
    intros s1 He1 Hs1. apply (dump_blob_var_short 2%nat); try assumption; lia.
  - destruct (len <? 2 ^ 32) eqn:E; [|contradiction]. apply Z.ltb_lt in E.
    destruct Hin as [<-|[]].
    apply (dump_body_fails A L [] _ xc6 (be_bytes 4 len ++ pl)
             (DumpDataVar false 4)); [reflexivity | | exact He | exact Hs].
    intros s1 He1 Hs1. apply (dump_blob_var_short 4%nat); try assumption; lia.
Qed.

End TruncatedBlob.

(** X24.  A stream that holds the header of a blob of [len] bytes and then
    fewer than [len] bytes before it ends: [dump] answers [false] with
    the end-of-stream flag set, printing none of the bytes and nothing
    on standard error; a run on such a stream ends with status 1 and
    both outputs empty. *)
Theorem truncated_blob_exits_1 :
  forall A L len hdr pl,
  In hdr (bin_headers len) ->
  Z.of_nat (List.length pl) < len ->
  malloc_ok L len = true ->
  (forall depth role s,
     eof_of s = false -> stream (pending_of s) = Some (hdr ++ pl)%list ->
     exists s',
       dump A L (S depth) role s = (Some false, s')
       /\ eof_of s' = true
       /\ out_of s' = out_of s ++ start_text (indent_of s) role
       /\ err_of s' = err_of s)
  /\ (forall fdn inp,
        stream inp = Some (hdr ++ pl)%list ->
        run_fd A L fdn inp = mkResult (Some 1) EmptyString EmptyString).
Proof.
  intros A L len hdr pl Hin Hl Hg. split.
  - intros depth role s He Hs.
    pose proof (dump_truncated_blob A L len pl Hl Hg hdr depth role s Hin He Hs)
      as W.
    unfold wp in W. destruct (dump A L (S depth) role s) as [r s'].
    cbn [fst snd] in W. destruct W as (-> & W). exists s'.
    split; [reflexivity | exact W].
  - intros fdn inp Hs.
    apply (failed_dump_exits_1 A L fdn inp (fun s' => eof_of s' = true)).
    intros depth s He Hs1. rewrite Hs in Hs1.
    exact (dump_truncated_blob A L len pl Hl Hg hdr depth ROLE_NONE s Hin He Hs1).
Qed.

(** ** The tag that is no value *)

Lemma dump_bad_tag A L rest depth role s :
  eof_of s = false -> stream (pending_of s) = Some (xc1 :: rest) ->
  wp (dump A L (S depth) role) s (fun r s' =>
    r = Some false /\ eof_of s' = false /\ stream (pending_of s') = Some rest
    /\ out_of s' = out_of s ++ start_text (indent_of s) role
    /\ err_of s' = err_of s ++ "Bad tag c1" ++ Fmt.nl).
Proof.
  intros He Hs. cbn [dump]. unfold dump_body. apply wp_bind.
  eapply wp_conseq; [apply (eread_stream 1 s _ He Hs); lia|].
  intros r s1 (Hi & Ho & Hr & H).
  replace (1 <=? Z.of_nat (List.length (xc1 :: rest))) with true in H
    by (symmetry; apply Z.leb_le; simpl; lia).
  change (firstn (Z.to_nat 1) (xc1 :: rest)) with [xc1] in H.
  destruct H as (-> & He1 & Hs1). simpl in Hs1. cbn [hd].
  apply wp_bind. unfold wp at 1. rewrite dump_start_spec. cbn [fst snd].
  change (select (C.byte_val xc1)) with (@None decoder).
  apply wp_bind, wp_eprintf, wp_ret.
  unfold eof_of, pending_of, indent_of, out_of, err_of in *. simpl in *.
  repeat split; try congruence.
Qed.

(** X25.  Decoding stops at the first tag byte 0xc1: the values before it
    are printed, the message names the tag on standard error, and the
    run ends with status 1 whatever follows the tag. *)
Theorem bad_tag_stops_run :
  forall A L d (vals : list value) rest fdn inp,
  Forall (fun v => decodes A L d (fst v) (snd v)) vals ->
  (d <= S (weight inp))%nat ->
  stream inp = Some (List.concat (map fst vals) ++ xc1 :: rest)%list ->
  run_fd A L fdn inp
  = mkResult (Some 1) (top_lines vals) ("Bad tag c1" ++ Fmt.nl).
Proof.
  intros A L d vals rest fdn inp Hall Hd Hs.
  rewrite (run_values_then A L d vals (xc1 :: rest) fdn 0 inp
             [Data (xc1 :: rest)] Hall Hd Hs)
    by (simpl; rewrite app_nil_r; reflexivity).
  assert (H : run_fd A L 0 [Data (xc1 :: rest)]
              = mkResult (Some 1) EmptyString ("Bad tag c1" ++ Fmt.nl)).
  { unfold run_fd.
    pose proof (dump_bad_tag A L rest (weight [Data (xc1 :: rest)]) ROLE_NONE
                  (ctx_ctor 0, mkWorld [Data (xc1 :: rest)] EmptyString EmptyString)
                  eq_refl) as W.
    unfold wp in W. cbn [main_loop fst ctx_ctor eof].
    destruct (dump A L (S (weight [Data (xc1 :: rest)])) ROLE_NONE
                (ctx_ctor 0, mkWorld [Data (xc1 :: rest)] EmptyString EmptyString))
      as [r s'].
    cbn [fst snd] in W.
    destruct W as (-> & _ & _ & Ho & Hr);
      [unfold pending_of; simpl; rewrite app_nil_r; reflexivity|].
    unfold result_of. cbn [fst snd]. unfold out_of, err_of in Ho, Hr.
    rewrite Ho, Hr. reflexivity. }
  rewrite H. cbn [status stdout stderr]. rewrite append_nil_r. reflexivity.
Qed.

(** ** Instances *)

(** A descriptor already at its end stays there. *)
Lemma eof_never_cleared_witness :
  eof_of (snd (dump x86_64 symbolic_libc 2 ROLE_NONE
                 (mkCtx 3 0 0 true, mkWorld (file [xc3]) EmptyString EmptyString)))
  = true
  /\ eof_of (snd (main_loop x86_64 symbolic_libc 2 2
                    (mkCtx 3 0 0 true,
                     mkWorld (file [xc3]) EmptyString EmptyString)))
     = true.
Proof.
  exact (eof_never_cleared x86_64 symbolic_libc 2 2 ROLE_NONE
           (mkCtx 3 0 0 true, mkWorld (file [xc3]) EmptyString EmptyString)
           eq_refl).
Defined.

(** [true] followed by one more byte. *)
Lemma immediate_value_decoded_witness :
  exists s',
    dump x86_64 symbolic_libc 1 ROLE_NONE (opened [xc3; x01]) = (Some true, s')
    /\ decoded (opened [xc3; x01]) s' ("true" ++ Fmt.nl) [x01].
Proof.
  exact (immediate_value_decoded x86_64 symbolic_libc xc3 "true" [x01] 0
           ROLE_NONE (opened [xc3; x01]) eq_refl eq_refl eq_refl).
Defined.

(** The 16-bit unsigned 513. *)
Lemma unsigned_integer_decoded_witness :
  exists s',
    dump x86_64 symbolic_libc 1 ROLE_NONE (opened [xcd; x02; x01; xc3])
    = (Some true, s')
    /\ decoded (opened [xcd; x02; x01; xc3]) s' ("513" ++ Fmt.nl) [xc3].
Proof.
  exact (unsigned_integer_decoded x86_64 symbolic_libc xcd 2 513 [xc3] 0
           ROLE_NONE (opened [xcd; x02; x01; xc3])
           ltac:(simpl; auto) ltac:(cbn; lia) eq_refl eq_refl).
Defined.

(** The 8-bit signed -1. *)
Lemma signed_integer_decoded_witness :
  exists s',
    dump x86_64 symbolic_libc 1 ROLE_NONE (opened [xd0; xff; xc3])
    = (Some true, s')
    /\ decoded (opened [xd0; xff; xc3]) s' ("-1" ++ Fmt.nl) [xc3].
Proof.
  exact (signed_integer_decoded x86_64 symbolic_libc xd0 1 255 [xc3] 0
           ROLE_NONE (opened [xd0; xff; xc3])
           ltac:(simpl; auto) ltac:(cbn; lia) eq_refl eq_refl).
Defined.

(** The two-byte string "hi". *)
Lemma string_decoded_witness :
  exists s',
    dump x86_64 symbolic_libc 1 ROLE_NONE (opened [xa2; x68; x69; xc3])
    = (Some true, s')
    /\ decoded (opened [xa2; x68; x69; xc3]) s'
         (Fmt.dquote ++ "hi" ++ Fmt.dquote ++ Fmt.nl) [xc3].
Proof.
  exact (string_decoded x86_64 symbolic_libc 2 [xa2] [x68; x69] [xc3] 0
           ROLE_NONE (opened [xa2; x68; x69; xc3])
           ltac:(simpl; auto) eq_refl ltac:(cbn; lia) eq_refl eq_refl
           eq_refl eq_refl).
Defined.

(** A two-byte blob. *)
Lemma blob_decoded_witness :
  exists s',
    dump x86_64 symbolic_libc 1 ROLE_NONE (opened [xc4; x02; x01; x7f; xc3])
    = (Some true, s')
    /\ decoded (opened [xc4; x02; x01; x7f; xc3]) s' ("01 7f" ++ Fmt.nl) [xc3].
Proof.
  exact (blob_decoded x86_64 symbolic_libc 2 [xc4; x02] [x01; x7f] [xc3] 0
           ROLE_NONE (opened [xc4; x02; x01; x7f; xc3])
           ltac:(simpl; auto) eq_refl eq_refl eq_refl eq_refl eq_refl).
Defined.

(** An extension of type 5 with a one-byte payload. *)
Lemma extension_decoded_witness :
  exists s',
    dump x86_64 symbolic_libc 1 ROLE_NONE (opened [xd4; x05; x2a; xc3])
    = (Some true, s')
    /\ decoded (opened [xd4; x05; x2a; xc3]) s' ("Type5:2a" ++ Fmt.nl) [xc3].
Proof.
  exact (extension_decoded x86_64 symbolic_libc 1 [xd4] x05 [x2a] [xc3] 0
           ROLE_NONE (opened [xd4; x05; x2a; xc3])
           ltac:(simpl; auto) eq_refl eq_refl eq_refl eq_refl eq_refl).
Defined.

(** The binary32 value 1.0, as the wire has it. *)
Lemma float_decoded_witness :
  exists s',
    dump x86_64 symbolic_libc 1 ROLE_NONE (opened [xca; x3f; x80; x00; x00; xc3])
    = (Some true, s')
    /\ decoded (opened [xca; x3f; x80; x00; x00; xc3]) s'
         (fmt_g_float symbolic_libc (le_value [x3f; x80; x00; x00]) ++ Fmt.nl)
         [xc3].
Proof.
  exact (proj1 (float_decoded x86_64 symbolic_libc [x3f; x80; x00; x00] [xc3] 0
                  ROLE_NONE (opened [xca; x3f; x80; x00; x00; xc3]) eq_refl)
           eq_refl eq_refl).
Defined.

(** The array of [true] and 1. *)
Lemma array_decoded_witness :
  decodes x86_64 symbolic_libc 2 [x92; xc3; x01]
    (fun level =>
       bracketed "[" "]" level
         (array_lines (C.u32 (level + 1)) 0
            [([xc3], fun _ => "true"); ([x01], fun _ => "1")])).
Proof.
  refine (array_decoded x86_64 symbolic_libc 1
            [([xc3], fun _ => "true"); ([x01], fun _ => "1")] [x92] _ _ _).
  - apply Forall_cons; [|apply Forall_cons; [|apply Forall_nil]]; cbn [fst snd];
      apply immediate_decodes; reflexivity.
  - simpl. lia.
  - simpl. auto.
Defined.

(** The map of 1 to [true]. *)
Lemma map_decoded_witness :
  decodes x86_64 symbolic_libc 2 [x81; x01; xc3]
    (fun level =>
       bracketed "{" "}" level
         (map_lines (C.u32 (level + 1))
            [(([x01], fun _ => "1"), ([xc3], fun _ => "true"))])).
Proof.
  refine (map_decoded x86_64 symbolic_libc 1
            [(([x01], fun _ => "1"), ([xc3], fun _ => "true"))] [x81] _ _).
  - apply Forall_cons; [split|apply Forall_nil]; cbn [fst snd];
      apply immediate_decodes; reflexivity.
  - simpl. auto.
Defined.


(** The two bytes of 513. *)
Lemma varuint_round_trip_witness :
  exists s',
    read_varuint 2 (opened [x02; x01; xc3]) = (Some 513, s')
    /\ eof_of s' = false /\ stream (pending_of s') = Some [xc3]
    /\ indent_of s' = 0 /\ out_of s' = EmptyString /\ err_of s' = EmptyString.
Proof.
  exact (varuint_round_trip 2 513 [xc3] (opened [x02; x01; xc3])
           ltac:(lia) ltac:(cbn; lia) eq_refl eq_refl).
Defined.

(** A file holding [true]. *)
Lemma exit_0_consumes_stream_witness :
  eof_of (snd (main_loop x86_64 symbolic_libc 2 2 (opened [xc3]))) = true
  /\ pending_of (snd (main_loop x86_64 symbolic_libc 2 2 (opened [xc3]))) = []
  /\ C.u64 (offset (fst (snd (main_loop x86_64 symbolic_libc 2 2 (opened [xc3])))))
     = C.u64 (0 + 1).
Proof.
  exact (exit_0_consumes_stream x86_64 symbolic_libc 2 2 (opened [xc3]) [xc3]
           (snd (main_loop x86_64 symbolic_libc 2 2 (opened [xc3])))
           eq_refl eq_refl eq_refl).
Defined.

(** A file holding [true] and then 1. *)
Lemma values_stream_decoded_witness :
  run_fd x86_64 symbolic_libc 3 (file [xc3; x01])
  = mkResult (Some 0) ("true" ++ Fmt.nl ++ "1" ++ Fmt.nl) EmptyString.
Proof.
  refine (values_stream_decoded x86_64 symbolic_libc 1
            [([xc3], fun _ => "true"); ([x01], fun _ => "1")] 3
            (file [xc3; x01]) _ _ _).
  - apply Forall_cons; [|apply Forall_cons; [|apply Forall_nil]]; cbn [fst snd];
      apply immediate_decodes; reflexivity.
  - simpl. lia.
  - reflexivity.
Defined.


(** An array read in two pieces and in one. *)
Lemma short_reads_do_not_matter_witness :
  run_fd x86_64 symbolic_libc 3 [Data [x92]; Data [xc3; x01]]
  = run_fd x86_64 symbolic_libc 0 (file [x92; xc3; x01]).
Proof.
  exact (short_reads_do_not_matter x86_64 symbolic_libc 3 0
           [Data [x92]; Data [xc3; x01]] (file [x92; xc3; x01])
           [x92; xc3; x01] eq_refl eq_refl).
Defined.

(** [true], then a stream cut inside a 16-bit integer. *)
Lemma values_then_rest_witness :
  run_fd x86_64 symbolic_libc 3 (file [xc3; xcd; x01])
  = mkResult (status (run_fd x86_64 symbolic_libc 0 (file [xcd; x01])))
      (("true" ++ Fmt.nl)
       ++ stdout (run_fd x86_64 symbolic_libc 0 (file [xcd; x01])))
      (stderr (run_fd x86_64 symbolic_libc 0 (file [xcd; x01]))).
Proof.
  refine (values_then_rest x86_64 symbolic_libc 1 [([xc3], fun _ => "true")]
            [xcd; x01] 3 0 (file [xc3; xcd; x01]) (file [xcd; x01]) _ _ _ _).
  - apply Forall_cons; [|apply Forall_nil]. cbn [fst snd].
    apply immediate_decodes; reflexivity.
  - simpl. lia.
  - reflexivity.
  - reflexivity.
Defined.

(** A C library that grants no more than one byte, and the string "hi". *)
Lemma refused_allocation_exits_1_witness :
  run_fd x86_64
    (mkLibc (fun n => n <? 2) (fmt_g_float symbolic_libc)
       (fmt_g_double symbolic_libc))
    3 (file [xa2; x68; x69])
  = mkResult (Some 1) EmptyString "Cannot alloc 2 bytes".
Proof.
  exact (proj2 (refused_allocation_exits_1 x86_64
                  (mkLibc (fun n => n <? 2) (fmt_g_float symbolic_libc)
                     (fmt_g_double symbolic_libc))
                  2 [xa2] [x68; x69]
                  ltac:(simpl; auto) ltac:(lia) eq_refl)
           3 (file [xa2; x68; x69]) eq_refl).
Defined.

(** A 16-bit integer with one byte of its two. *)
Lemma truncated_number_exits_1_witness :
  run_fd x86_64 symbolic_libc 3 (file [xcd; x01])
  = mkResult (Some 1) EmptyString EmptyString.
Proof.
  exact (proj2 (truncated_number_exits_1 x86_64 symbolic_libc xcd 2 [x01]
                  ltac:(simpl; auto) ltac:(simpl; lia))
           3 (file [xcd; x01]) eq_refl).
Defined.

(** A blob of two bytes with one of them. *)
Lemma truncated_blob_exits_1_witness :
  run_fd x86_64 symbolic_libc 3 (file [xc4; x02; x01])
  = mkResult (Some 1) EmptyString EmptyString.
Proof.
  exact (proj2 (truncated_blob_exits_1 x86_64 symbolic_libc 2 [xc4; x02] [x01]
                  ltac:(simpl; auto) ltac:(simpl; lia) eq_refl)
           3 (file [xc4; x02; x01]) eq_refl).
Defined.

(** [true], the tag 0xc1, and a byte that is never read. *)
Lemma bad_tag_stops_run_witness :
  run_fd x86_64 symbolic_libc 3 (file [xc3; xc1; x01])
  = mkResult (Some 1) ("true" ++ Fmt.nl) ("Bad tag c1" ++ Fmt.nl).
Proof.
  refine (bad_tag_stops_run x86_64 symbolic_libc 1 [([xc3], fun _ => "true")]
            [x01] 3 (file [xc3; xc1; x01]) _ _ _).
  - apply Forall_cons; [|apply Forall_nil]. cbn [fst snd].
    apply immediate_decodes; reflexivity.
  - simpl. lia.
  - reflexivity.
Defined.
